(** * euron: a small arithmetic-expression interpreter (src/interpretor.ts)

    Shallow embedding of the lexer, the recursive-descent parser, the AST with
    its two visitors (calculator and printer), and the properties of the
    specification checked against them.

    Conventions of the embedding.
    - A JavaScript string is a [string]; one [ascii] stands for one UTF-16
      code unit below 256.  Code units from 256 on are not represented.
    - A JavaScript number is an IEEE-754 binary64 value, [spec_float] with
      precision 53 and maximal exponent 1024, computed with the operations of
      the Standard Library's [SpecFloat].
    - [undefined] and [null] are the [None] of an [option].
    - An exception is the [Throw] outcome; a run that needs more loop
      iterations or recursion depth than the supplied fuel is [OutOfFuel];
      a run that goes on with a host object (an inherited member of
      [Object.prototype], [Number] of a string the lexer cannot deliver) is
      [Beyond]. *)

From Stdlib Require Import ZArith Lia Ascii String List Bool.
From Stdlib Require Import Floats.SpecFloat.
From stdpp Require Import base option strings gmap.

Import ListNotations.
Local Open Scope string_scope.
Local Open Scope list_scope.

(** ** Tokens *)

Inductive TokenType : Set :=
| ID | NUMBER | ASSIGN | LPAREN | RPAREN | COMMA | SEMICOLON
| PLUS | MINUS | MULT | DIVI | POW | FACTORIAL | EOL | EOF.

#[global] Instance TokenType_eq_dec : EqDecision TokenType.
Proof. solve_decision. Defined.

(** [value] is [None] where the constructor's default [null] is used. *)
Record Token : Set := mkToken { type : TokenType; value : option string }.

#[global] Instance Token_eq_dec : EqDecision Token.
Proof. solve_decision. Defined.

(** ** Outcomes *)

Inductive Error : Set :=
| UnexpectedChar (char : ascii) (at_cursor : nat)
    (* Lexer: [wooops! unespected char 'c' at n] *)
| InvalidSyntax (expected got : TokenType)
    (* Parser.eat: [Invalid syntax: Expect token X but got Y.] *)
| UndefinedSymbol (name : string)
    (* ASTCalculatorVisitor.visitRefExpr: [Undefined symbol 'x'.] *)
| UnexpectedTokenType (t : TokenType).
    (* resolve: [Unexpected token type 'X' in binary operation!] *)

(** Places where a run goes on in JavaScript without an exception but with a
    value that is not a number or a string of this model.
    - [InheritedMember key]: a lookup [table[key]] on an object literal finds
      no own property but a member of [Object.prototype] (a host function).
    - [NumericString s]: [Number(s)] for a string that is not a run of digits
      and dots, which [readNumber] never delivers. *)
Inductive HostCase : Set :=
| InheritedMember (key : string)
| NumericString (s : string).

Inductive Outcome (A : Type) : Type :=
| Normal (a : A)
| Throw (e : Error)
| Beyond (h : HostCase)
| OutOfFuel.

Arguments Normal {A} a.
Arguments Throw {A} e.
Arguments Beyond {A} h.
Arguments OutOfFuel {A}.

#[global] Instance Outcome_bind : MBind Outcome := fun A B k m =>
  match m with
  | Normal a => k a
  | Throw e => Throw e
  | Beyond h => Beyond h
  | OutOfFuel => OutOfFuel
  end.

(** ** Lexer *)

(** The lexer reads [text] at [lexCursor] and beyond only; [rest] is that
    suffix, [text.substring(lexCursor)]. *)
Record Lexer : Set := mkLexer { rest : string; lexCursor : nat }.

Definition newLexer (input : string) : Lexer :=
  {| rest := input; lexCursor := 0 |}.

Definition advance (l : Lexer) : Lexer :=
  match rest l with
  | EmptyString => {| rest := EmptyString; lexCursor := S (lexCursor l) |}
  | String _ r => {| rest := r; lexCursor := S (lexCursor l) |}
  end.

(** [this.text[this.lexCursor]]: [None] is [undefined], past the end. *)
Definition currentChar (l : Lexer) : option ascii :=
  match rest l with
  | EmptyString => None
  | String c _ => Some c
  end.

Definition is_digit (c : ascii) : bool :=
  let n := nat_of_ascii c in (48 <=? n)%nat && (n <=? 57)%nat.

Definition is_letter (c : ascii) : bool :=
  let n := nat_of_ascii c in
  ((65 <=? n)%nat && (n <=? 90)%nat) || ((97 <=? n)%nat && (n <=? 122)%nat).

(** The character class [\s] on code units below 256: tab, line feed,
    vertical tab, form feed, carriage return, space, no-break space. *)
Definition is_regex_space (c : ascii) : bool :=
  let n := nat_of_ascii c in
  ((9 <=? n)%nat && (n <=? 13)%nat) || (n =? 32)%nat || (n =? 160)%nat.

(** The four labels [case '\t': case '\v': case ' ': case '\f':]. *)
Definition is_case_space (c : ascii) : bool :=
  (Ascii.eqb c "009" || Ascii.eqb c "011" || Ascii.eqb c " "
   || Ascii.eqb c "012")%char.

(** [/[\d\.]+?/.test(input)].  [test] converts [undefined] to the string
    ["undefined"], which has no digit and no dot. *)
Definition isNumber (input : option ascii) : bool :=
  match input with
  | Some c => is_digit c || Ascii.eqb c "."
  | None => false
  end.

(** [/\s+/.test(input)]; ["undefined"] has no white space. *)
Definition isWhiteSpace (input : option ascii) : bool :=
  match input with
  | Some c => is_regex_space c
  | None => false
  end.

(** [input !== undefined && /[a-zA-Z][a-zA-Z0-9]*/.test(input)]: on one
    character the pattern asks for a letter. *)
Definition isAlphaNumeric (input : option ascii) : bool :=
  match input with
  | Some c => is_letter c
  | None => false
  end.

(** [read]: the loop [while (predicate(text[cursor])) { token += ...;
    advance() }].  It stops at the end of the text, where the three
    predicates above are false. *)
Fixpoint read_from (predicate : option ascii -> bool) (s : string)
  : string * string :=
  match s with
  | EmptyString => (EmptyString, EmptyString)
  | String c r =>
      if predicate (Some c)
      then let '(token, s') := read_from predicate r in (String c token, s')
      else (EmptyString, s)
  end.

Definition read (predicate : option ascii -> bool) (l : Lexer)
  : string * Lexer :=
  let '(token, s') := read_from predicate (rest l) in
  (token, {| rest := s'; lexCursor := lexCursor l + String.length token |}).

Definition readNumber := read isNumber.
Definition readWhiteSpace := read isWhiteSpace.
Definition readAlphaNumeric := read isAlphaNumeric.

Definition lower_char (c : ascii) : ascii :=
  let n := nat_of_ascii c in
  if (65 <=? n)%nat && (n <=? 90)%nat then ascii_of_nat (n + 32) else c.

Fixpoint toLowerCase (s : string) : string :=
  match s with
  | EmptyString => EmptyString
  | String c r => String (lower_char c) (toLowerCase r)
  end.

Definition single (l : Lexer) (t : TokenType) (v : option string)
  : Outcome (Token * Lexer) :=
  Normal (mkToken t v, advance l).

(** One pass through the [switch] of [nextToken]; [self] is the recursive
    call after a run of white space. *)
Definition nextToken_body (self : Lexer -> Outcome (Token * Lexer))
  (l : Lexer) : Outcome (Token * Lexer) :=
  match currentChar l with
  | None => Normal (mkToken EOF None, l)
  | Some char =>
      let here := Some (String char EmptyString) in
      if is_case_space char then self (snd (readWhiteSpace l))
      else if Ascii.eqb char "010" then single l EOL here
      else if Ascii.eqb char ";" then single l SEMICOLON here
      else if is_digit char || Ascii.eqb char "."
      then let '(num, l') := readNumber l in
           Normal (mkToken NUMBER (Some num), l')
      else if Ascii.eqb char "+" then single l PLUS here
      else if Ascii.eqb char "-" then single l MINUS here
      else if Ascii.eqb char "*" then single l MULT here
      else if Ascii.eqb char "/" then single l DIVI here
      else if Ascii.eqb char "^" then single l POW here
      else if Ascii.eqb char "!" then single l FACTORIAL here
      else if Ascii.eqb char "=" then single l ASSIGN here
      else if Ascii.eqb char "(" then single l LPAREN here
      else if Ascii.eqb char ")" then single l RPAREN None
      else if Ascii.eqb char "," then single l COMMA None
      else if isAlphaNumeric (Some char)
      then let '(id, l') := readAlphaNumeric l in
           let low := toLowerCase id in
           if String.eqb low "e" then Normal (mkToken ID (Some "e"), l')
           else if String.eqb low "pi" then Normal (mkToken ID (Some "pi"), l')
           else Normal (mkToken ID (Some id), l')
      else Throw (UnexpectedChar char (lexCursor l))
  end.

Fixpoint nextToken_fuel (fuel : nat) (l : Lexer) : Outcome (Token * Lexer) :=
  match fuel with
  | O => OutOfFuel
  | S fuel' => nextToken_body (nextToken_fuel fuel') l
  end.

(** After [readWhiteSpace] the current character is not white space, so the
    recursion of [nextToken] is at most one call deep ([nextToken_total]). *)
Definition nextToken (l : Lexer) : Outcome (Token * Lexer) :=
  nextToken_fuel 2 l.


(** ** AST *)

#[local] Unset Elimination Schemes.
Inductive AST : Set :=
| UnaryExpr (opToken : TokenType) (expr : AST)
| ValueExpr (num : option string)
| RefExpr (constToken : Token)
| FactorialExpr (factor : AST)
| BinaryExpr (left : AST) (token : TokenType) (right : AST)
| AssignExpr (id : Token) (expr : AST)
| StatementListExpr (statements : list AST).
#[local] Set Elimination Schemes.

(** The trees the productions [expr], [term] and [factor] build: expression
    nodes over expression nodes; statements and programs over them. *)
Fixpoint is_expr (a : AST) : bool :=
  match a with
  | UnaryExpr _ e => is_expr e
  | ValueExpr _ => true
  | RefExpr _ => true
  | FactorialExpr e => is_expr e
  | BinaryExpr l _ r => is_expr l && is_expr r
  | AssignExpr _ _ => false
  | StatementListExpr _ => false
  end.

Definition is_statement (a : AST) : bool :=
  match a with AssignExpr _ e => is_expr e | _ => false end.

Definition is_program (a : AST) : bool :=
  match a with StatementListExpr l => forallb is_statement l | _ => false end.

(** ** Parser *)

Record Parser : Set := mkParser { lexer : Lexer; currentToken : Token }.

(** [new Parser(input)]: primes [currentToken] with the first token. *)
Definition newParser (input : string) : Outcome Parser :=
  '(t, l) ← nextToken (newLexer input);
  Normal {| lexer := l; currentToken := t |}.

Definition eat (tokenType : TokenType) (p : Parser) : Outcome Parser :=
  if decide (type (currentToken p) = tokenType)
  then '(t, l) ← nextToken (lexer p);
       Normal {| lexer := l; currentToken := t |}
  else Throw (InvalidSyntax tokenType (type (currentToken p))).

Definition current_is (p : Parser) (ts : list TokenType) : bool :=
  bool_decide (type (currentToken p) ∈ ts).

(** [const]: a reference to the current identifier token. *)
Definition const (p : Parser) : Outcome (AST * Parser) :=
  let constant := RefExpr (currentToken p) in
  p ← eat ID p;
  Normal (constant, p).

(** The four mutually recursive productions; [fuel] bounds the depth of the
    calls. *)
Fixpoint expr (fuel : nat) (p : Parser) {struct fuel}
  : Outcome (AST * Parser) :=
  match fuel with
  | O => OutOfFuel
  | S fuel =>
      '(term_, p) ← term fuel p;
      if current_is p [PLUS; MINUS] then
        let lTerm := term_ in
        let token := type (currentToken p) in
        p ← eat (type (currentToken p)) p;
        '(rTerm, p) ← expr fuel p;
        Normal (BinaryExpr lTerm token rTerm, p)
      else Normal (term_, p)
  end
with term (fuel : nat) (p : Parser) {struct fuel} : Outcome (AST * Parser) :=
  match fuel with
  | O => OutOfFuel
  | S fuel =>
      '(factor_, p) ← factor fuel p;
      if current_is p [NUMBER] then
        '(rTerm, p) ← term fuel p;
        Normal (BinaryExpr factor_ MULT rTerm, p)
      else if current_is p [MULT; DIVI; POW] then
        let lFactor := factor_ in
        let token := type (currentToken p) in
        p ← eat (type (currentToken p)) p;
        '(rTerm, p) ← term fuel p;
        Normal (BinaryExpr lFactor token rTerm, p)
      else Normal (factor_, p)
  end
with factor (fuel : nat) (p : Parser) {struct fuel} : Outcome (AST * Parser) :=
  match fuel with
  | O => OutOfFuel
  | S fuel =>
      if current_is p [PLUS; MINUS] then
        let opToken := type (currentToken p) in
        p ← eat (type (currentToken p)) p;
        '(operand, p) ← factor fuel p;
        Normal (UnaryExpr opToken operand, p)
      else if current_is p [FACTORIAL] then
        p ← eat FACTORIAL p;
        '(operand, p) ← factor fuel p;
        Normal (FactorialExpr operand, p)
      else if current_is p [LPAREN] then closure fuel p
      else if current_is p [ID] then const p
      else
        let factor_ := ValueExpr (value (currentToken p)) in
        p ← eat NUMBER p;
        Normal (factor_, p)
  end
with closure (fuel : nat) (p : Parser) {struct fuel} : Outcome (AST * Parser) :=
  match fuel with
  | O => OutOfFuel
  | S fuel =>
      p ← eat LPAREN p;
      '(e, p) ← expr fuel p;
      p ← eat RPAREN p;
      Normal (e, p)
  end.

(** The [while] loop of [declarations]; [assignList] is the array built so
    far, [push] appends at its end. *)
Fixpoint declarations_loop (fuel : nat) (assignList : list AST) (p : Parser)
  : Outcome (AST * Parser) :=
  if decide (type (currentToken p) = EOF)
  then Normal (StatementListExpr assignList, p)
  else
    match fuel with
    | O => OutOfFuel
    | S fuel =>
        let id := currentToken p in
        p ← eat ID p;
        p ← eat ASSIGN p;
        '(e, p) ← expr fuel p;
        let assignList := assignList ++ [AssignExpr id e] in
        p ← (if current_is p [EOL; SEMICOLON]
             then eat (type (currentToken p)) p else Normal p);
        declarations_loop fuel assignList p
    end.

Definition declarations (fuel : nat) (p : Parser) : Outcome (AST * Parser) :=
  declarations_loop fuel [] p.

(** Every successful [eat] leaves less text, and each call consumes at most
    four levels of recursion per character left ([parse_total]). *)
Definition parse_fuel (p : Parser) : nat :=
  4 * String.length (rest (lexer p)) + 8.

Definition parse (p : Parser) : Outcome AST :=
  '(root, _) ← declarations (parse_fuel p) p; Normal root.

Definition parse_text (input : string) : Outcome AST :=
  p ← newParser input; parse p.

(** ** Numbers *)

Abbreviation number := spec_float.

Definition prec : Z := 53.
Definition emax : Z := 1024.

Definition add : number -> number -> number := SFadd prec emax.
Definition sub : number -> number -> number := SFsub prec emax.
Definition mul : number -> number -> number := SFmul prec emax.
Definition div : number -> number -> number := SFdiv prec emax.
Definition leb : number -> number -> bool := SFleb.

(** The number of an integer literal of the source ([1], [2], [-1], [0]). *)
Definition of_Z (k : Z) : number := binary_normalize prec emax k 0 false.

(** The binary64 value nearest to [m / d] (ties to even), for [0 <= m] and
    [0 < d]. *)
Definition of_ratio (m d : Z) : number :=
  match m with
  | Z0 => S754_zero false
  | _ => let '(q, e, l) := SFdiv_core_binary prec emax m 0 d 0 in
         binary_round_aux prec emax false q e l
  end.

Definition JS_NaN : number := S754_nan.
Definition Math_PI : number := S754_finite false 7074237752028440 (-51).
Definition Math_E : number := S754_finite false 6121026514868073 (-51).

(** [Math.pow] belongs to the host; the ECMAScript standard leaves its value
    to the implementation. *)
Class MathHost := Math_pow : number -> number -> number.

(** [ToNumber] of a number or [undefined]. *)
Definition ToNumber (v : option number) : number := default JS_NaN v.

(** [`${v}`] and the property key of a string or [null]. *)
Definition to_string (v : option string) : string := default "null" v.

Fixpoint all_chars (f : ascii -> bool) (s : string) : bool :=
  match s with
  | EmptyString => true
  | String c r => f c && all_chars f r
  end.

Fixpoint digits_to_Z (acc : Z) (s : string) : Z :=
  match s with
  | EmptyString => acc
  | String c r => digits_to_Z (10 * acc + Z.of_nat (nat_of_ascii c - 48)) r
  end.

(** The text before the first dot, and the text after it if there is one. *)
Fixpoint split_dot (s : string) : string * option string :=
  match s with
  | EmptyString => (EmptyString, None)
  | String c r =>
      if Ascii.eqb c "." then (EmptyString, Some r)
      else let '(a, b) := split_dot r in (String c a, b)
  end.

(** [StrDecimalLiteral] without sign and exponent: [digits], [digits.],
    [digits.digits] or [.digits], as numerator and denominator. *)
Definition StrDecimalLiteral (s : string) : option (Z * Z) :=
  let '(int_part, frac_part) := split_dot s in
  match frac_part with
  | None =>
      if all_chars is_digit int_part && negb (String.eqb int_part "")
      then Some (digits_to_Z 0 int_part, 1%Z) else None
  | Some f =>
      if all_chars is_digit int_part && all_chars is_digit f
         && negb (String.eqb (int_part +:+ f) "")
      then Some (digits_to_Z 0 (int_part +:+ f),
                 (10 ^ Z.of_nat (String.length f))%Z)
      else None
  end.

(** [Number(num)] on [null], the empty string and runs of digits and dots. *)
Definition Number_ (num : option string) : Outcome number :=
  match num with
  | None => Normal (S754_zero false)
  | Some s =>
      if String.eqb s "" then Normal (S754_zero false)
      else if all_chars (fun c => is_digit c || Ascii.eqb c ".") s then
        match StrDecimalLiteral s with
        | Some (m, d) => Normal (of_ratio m d)
        | None => Normal JS_NaN
        end
      else Beyond (NumericString s)
  end.

(** ** Object literals used as tables *)

Definition Object_prototype_keys : list string :=
  ["constructor"; "hasOwnProperty"; "isPrototypeOf"; "propertyIsEnumerable";
   "toLocaleString"; "toString"; "valueOf"; "__proto__";
   "__defineGetter__"; "__defineSetter__";
   "__lookupGetter__"; "__lookupSetter__"].

(** [table[key]] on an object literal: own properties first, then the
    prototype chain; [None] is [undefined]. *)
Definition get_property {V} (table : gmap string V) (key : string)
  : Outcome (option V) :=
  match table !! key with
  | Some v => Normal (Some v)
  | None =>
      if bool_decide (key ∈ Object_prototype_keys)
      then Beyond (InheritedMember key)
      else Normal None
  end.

(** [table[key] = v] for a number or [undefined]: the setter of [__proto__]
    ignores such values, every other key becomes an own property. *)
Definition set_property {V} (table : gmap string V) (key : string) (v : V)
  : gmap string V :=
  if String.eqb key "__proto__" then table else <[key := v]> table.

(** ** The calculator visitor *)

Module ASTCalculatorVisitor.

(** A property of [scope] holds a number or [undefined]. *)
Record t : Type := mk {
  scope : gmap string (option number);
  stack : list number;
  output : number
}.

Definition new : t :=
  {| scope := <["pi" := Some Math_PI]> (<["e" := Some Math_E]> ∅);
     stack := [];
     output := S754_zero false |}.

(** The value read from a property that may be absent or may hold
    [undefined]. *)
Definition held (r : option (option number)) : option number :=
  match r with Some x => x | None => None end.

Definition getOutput (v : t) : Outcome (option number) :=
  r ← get_property (scope v) "out"; Normal (held r).

Definition push (x : number) (v : t) : t :=
  {| scope := scope v; stack := x :: stack v; output := output v |}.

(** [this.stack.pop()]: [undefined] on the empty array. *)
Definition pop (v : t) : option number * t :=
  match stack v with
  | [] => (None, v)
  | x :: st => (Some x, {| scope := scope v; stack := st; output := output v |})
  end.

(** [if (this.stack.length === 0) this.output += result]. *)
Definition note_output (result : number) (v : t) : t :=
  if Nat.eqb (length (stack v)) 0
  then {| scope := scope v; stack := stack v;
          output := add (output v) result |}
  else v.

(** [for (; i <= num; i++) val = val * i]. *)
Fixpoint factorial_loop (fuel : nat) (val i num : number) : Outcome number :=
  if leb i num then
    match fuel with
    | O => OutOfFuel
    | S fuel => factorial_loop fuel (mul val i) (add i (of_Z 1)) num
    end
  else Normal val.

Definition factorial (fuel : nat) (num : number) : Outcome number :=
  factorial_loop fuel (of_Z 1) (of_Z 2) num.

Section Visitor.
Context {host : MathHost}.

Definition resolve (type : TokenType) (left right : number)
  : Outcome number :=
  match type with
  | PLUS => Normal (add left right)
  | MINUS => Normal (sub left right)
  | DIVI => Normal (div left right)
  | MULT => Normal (mul left right)
  | POW => Normal (Math_pow left right)
  | _ => Throw (UnexpectedTokenType type)
  end.

(** [accept] stands for [node.accept(this)] on a child node. *)
Variable accept : AST -> t -> Outcome t.

Definition visitUnaryExpr (opToken : TokenType) (e : AST) (v : t)
  : Outcome t :=
  let signFactor :=
    match opToken with MINUS => of_Z (-1) | _ => of_Z 1 end in
  v ← accept e v;
  let '(x, v) := pop v in
  let result := mul signFactor (ToNumber x) in
  Normal (note_output result (push result v)).

Definition visitValueExpr (num : option string) (v : t) : Outcome t :=
  n ← Number_ num; Normal (push n v).

Definition visitRefExpr (constToken : Token) (v : t) : Outcome t :=
  r ← get_property (scope v) (to_string (value constToken));
  match held r with
  | None => Throw (UndefinedSymbol (to_string (value constToken)))
  | Some result => Normal (note_output result (push result v))
  end.

Definition visitFactorialExpr (fuel : nat) (operand : AST) (v : t)
  : Outcome t :=
  v ← accept operand v;
  let '(x, v) := pop v in
  result ← factorial fuel (ToNumber x);
  Normal (note_output result (push result v)).

Definition visitBinaryExpr (left : AST) (token : TokenType) (right : AST)
  (v : t) : Outcome t :=
  v ← accept left v;
  let '(l, v) := pop v in
  v ← accept right v;
  let '(r, v) := pop v in
  result ← resolve token (ToNumber l) (ToNumber r);
  Normal (note_output result (push result v)).

Definition visitAssignExpr (id : Token) (e : AST) (v : t) : Outcome t :=
  v ← accept e v;
  let '(x, v) := pop v in
  Normal {| scope := set_property (scope v) (to_string (value id)) x;
          stack := stack v; output := output v |}.

Fixpoint visitStatementListExpr (statements : list AST) (v : t)
  : Outcome t :=
  match statements with
  | [] => Normal v
  | e :: statements => v ← accept e v; visitStatementListExpr statements v
  end.
End Visitor.

(** Double dispatch: each node calls the visitor method of its variant.
    [fuel] bounds the iterations of each factorial loop. *)
Fixpoint accept {host : MathHost} (fuel : nat) (ast : AST) (v : t) {struct ast}
  : Outcome t :=
  match ast with
  | UnaryExpr opToken e => visitUnaryExpr (accept fuel) opToken e v
  | ValueExpr num => visitValueExpr num v
  | RefExpr constToken => visitRefExpr constToken v
  | FactorialExpr operand => visitFactorialExpr (accept fuel) fuel operand v
  | BinaryExpr l token r => visitBinaryExpr (accept fuel) l token r v
  | AssignExpr id e => visitAssignExpr (accept fuel) id e v
  | StatementListExpr statements =>
      visitStatementListExpr (accept fuel) statements v
  end.

End ASTCalculatorVisitor.

(** ** The printer visitor *)

Module ASTPrinterVisitor.

Record t : Set := mk { stack : list string; output : string }.

Definition new : t := {| stack := []; output := "" |}.

Definition constTable : gmap string string :=
  <["pi" := "&pi;"]> (<["e" := "<i>e</i>"]> ∅).

(** [this.stack.join('')]; the head of [stack] is the top of the array. *)
Definition join (st : list string) : string :=
  fold_left (fun acc x => x +:+ acc) st "".

Definition getOutput (v : t) : string := join (stack v).

Definition push (x : string) (v : t) : t :=
  {| stack := x :: stack v; output := output v |}.

(** [`${this.stack.pop()}`]: the text ["undefined"] on the empty array. *)
Definition pop (v : t) : string * t :=
  match stack v with
  | [] => ("undefined", v)
  | x :: st => (x, {| stack := st; output := output v |})
  end.

(** [if (this.stack.length === 0) this.output = this.stack.join('')]. *)
Definition note_output (v : t) : t :=
  if Nat.eqb (length (stack v)) 0
  then {| stack := stack v; output := join (stack v) |}
  else v.

Definition resolve (type : TokenType) (left right : string)
  : Outcome string :=
  match type with
  | PLUS => Normal (left +:+ " &plus; " +:+ right)
  | MINUS => Normal (left +:+ " &minus; " +:+ right)
  | DIVI =>
      Normal ("<sup>" +:+ left +:+ "</sup>&frasl;<sub>" +:+ right +:+ "</sub>")
  | MULT => Normal (left +:+ " &times; " +:+ right)
  | POW => Normal (left +:+ "<sup>" +:+ right +:+ "</sup>")
  | _ => Throw (UnexpectedTokenType type)
  end.

(** [instanceof] tests and the [token] property, [undefined] on the nodes
    that have none. *)
Definition is_ValueExpr (a : AST) : bool :=
  match a with ValueExpr _ => true | _ => false end.
Definition is_FactorialExpr (a : AST) : bool :=
  match a with FactorialExpr _ => true | _ => false end.
Definition is_RefExpr (a : AST) : bool :=
  match a with RefExpr _ => true | _ => false end.
Definition is_BinaryExpr (a : AST) : bool :=
  match a with BinaryExpr _ _ _ => true | _ => false end.
Definition token_of (a : AST) : option TokenType :=
  match a with BinaryExpr _ token _ => Some token | _ => None end.
Definition token_is (a : AST) (t : TokenType) : bool :=
  bool_decide (token_of a = Some t).

Definition paren (s : string) : string := "(" +:+ s +:+ ")".

(** The tests of [visitBinaryExpr] that leave an operand bare. *)
Definition left_bare (left : AST) (token : TokenType) : bool :=
  is_ValueExpr left || is_FactorialExpr left
  || (is_BinaryExpr left
      && (token_is left DIVI || token_is left token || token_is left POW))
  || is_RefExpr left.

Definition right_bare (token : TokenType) (right : AST) : bool :=
  is_ValueExpr right || is_FactorialExpr right
  || bool_decide (token = POW)
  || ((is_BinaryExpr right
       && (token_is right DIVI || token_is right token))
      || token_is right POW)
  || is_RefExpr right.

Section Visitor.
Variable accept : AST -> t -> Outcome t.

Definition visitUnaryExpr (opToken : TokenType) (e : AST) (v : t)
  : Outcome t :=
  let signFactor := match opToken with MINUS => "&minus;" | _ => "" end in
  v ← accept e v;
  let '(x, v) := pop v in
  let v := if is_ValueExpr e || is_FactorialExpr e
           then push (signFactor +:+ x) v
           else push (signFactor +:+ paren x) v in
  Normal (note_output v).

Definition visitValueExpr (num : option string) (v : t) : Outcome t :=
  Normal (note_output (push (to_string num) v)).

Definition visitRefExpr (constToken : Token) (v : t) : Outcome t :=
  r ← get_property constTable (to_string (value constToken));
  let result := default (to_string (value constToken)) r in
  Normal (note_output (push result v)).

Definition visitFactorialExpr (operand : AST) (v : t) : Outcome t :=
  v ← accept operand v;
  let '(x, v) := pop v in
  let v := if is_ValueExpr operand || is_FactorialExpr operand
              || is_RefExpr operand
           then push ("!" +:+ x) v
           else push ("!" +:+ paren x) v in
  Normal (note_output v).

Definition visitBinaryExpr (left : AST) (token : TokenType) (right : AST)
  (v : t) : Outcome t :=
  v ← accept left v;
  let '(x, v) := pop v in
  let l := if left_bare left token then x else paren x in
  v ← accept right v;
  let '(y, v) := pop v in
  let r := if right_bare token right then y else paren y in
  s ← resolve token l r;
  Normal (note_output (push s v)).

Definition visitAssignExpr (id : Token) (e : AST) (v : t) : Outcome t :=
  v ← accept e v;
  let '(x, v) := pop v in
  Normal (note_output (push (to_string (value id) +:+ " = " +:+ x) v)).

Fixpoint forEach_statement (statements : list AST) (v : t) : Outcome t :=
  match statements with
  | [] => Normal v
  | e :: statements =>
      v ← accept e v;
      let '(x, v) := pop v in
      forEach_statement statements (push (x +:+ "<br>") v)
  end.

Definition visitStatementListExpr (statements : list AST) (v : t)
  : Outcome t :=
  v ← forEach_statement statements v; Normal (note_output v).
End Visitor.

Fixpoint accept (ast : AST) (v : t) {struct ast} : Outcome t :=
  match ast with
  | UnaryExpr opToken e => visitUnaryExpr accept opToken e v
  | ValueExpr num => visitValueExpr num v
  | RefExpr constToken => visitRefExpr constToken v
  | FactorialExpr operand => visitFactorialExpr accept operand v
  | BinaryExpr l token r => visitBinaryExpr accept l token r v
  | AssignExpr id e => visitAssignExpr accept id e v
  | StatementListExpr statements => visitStatementListExpr accept statements v
  end.

End ASTPrinterVisitor.

(** ** Intepretor *)

(** [interpret(input, visitor)]: parse, then [rootAST.accept(visitor)]. *)
Definition interpret {V} (accept : AST -> V -> Outcome V)
  (input : string) (visitor : V) : Outcome V :=
  p ← newParser input;
  rootAST ← parse p;
  accept rootAST visitor.

Module Calc := ASTCalculatorVisitor.
Module Print := ASTPrinterVisitor.

(** The calculator run on a fresh visitor, and its result accessor. *)
Definition calculate {host : MathHost} (fuel : nat) (input : string)
  : Outcome Calc.t :=
  interpret (Calc.accept fuel) input Calc.new.

Definition print (input : string) : Outcome string :=
  v ← interpret Print.accept input Print.new; Normal (Print.getOutput v).

(** What is left to read: the text behind the cursor, and the current token
    unless it is EOF. *)
Definition remaining (p : Parser) : nat :=
  String.length (rest (lexer p))
  + (if decide (type (currentToken p) = EOF) then 0 else 1).

(** ** Reading binary64 values *)

(** [m] shifted left by [n] bits. *)
Definition shl (m : positive) (n : Z) : positive :=
  match n with Zpos d => Pos.iter xO m d | _ => m end.

(** The number of bits of [m]. *)
Definition digits (m : positive) : Z := Zpos (digits2_pos m).

(** The greatest integer not above a finite number ([0] elsewhere). *)
Definition floor (x : number) : Z :=
  match x with
  | S754_finite s m e => Z.shiftl (cond_Zopp s (Zpos m)) e
  | _ => 0%Z
  end.

Definition is_finite (x : number) : bool :=
  match x with
  | S754_finite _ _ _ | S754_zero _ => true
  | _ => false
  end.

(** [m * 2^e] is an integer: no bit below the unit is set. *)
Definition is_integer (x : number) : bool :=
  match x with
  | S754_finite _ m e =>
      (Z.shiftl (Z.shiftl (Zpos m) e) (- e) =? Zpos m)%Z
  | S754_zero _ => true
  | _ => false
  end.

(** A number below zero, [-Infinity] included. *)
Definition is_negative (x : number) : bool := SFltb x (S754_zero false).

(** The integers [k], [k+1], ..., [k + count - 1]. *)
Fixpoint Zseq (k : Z) (count : nat) : list Z :=
  match count with
  | O => []
  | S count => k :: Zseq (k + 1) count
  end.

(** [val * k1 * k2 * ...], multiplied from the left in binary64. *)
Definition product_from (val : number) (ks : list Z) : number :=
  fold_left (fun acc j => mul acc (of_Z j)) ks val.

(** The product of the integers from 2 up to [z]; the empty product, 1,
    when [z] is below 2. *)
Definition product_2_to (z : Z) : number :=
  product_from (of_Z 1) (Zseq 2 (Z.to_nat (z - 1))).


(** ** Vocabulary of the statements *)

(** Some statement of the list assigns to [name]. *)
Definition assigns (name : string) (statements : list AST) : bool :=
  existsb (fun a => match a with
                    | AssignExpr id _ => String.eqb (to_string (value id)) name
                    | _ => false
                    end) statements.

(** The value of the identifier token [nextToken] makes of the letters
    [id]. *)
Definition lexed_name (id : string) : string :=
  if String.eqb (toLowerCase id) "e" then "e"
  else if String.eqb (toLowerCase id) "pi" then "pi"
  else id.

Definition statements_of (root : AST) : list AST :=
  match root with StatementListExpr statements => statements | _ => [] end.

(** The value the calculator leaves in [out], on a fresh visitor. *)
Definition result_of {host : MathHost} (fuel : nat) (input : string)
  : Outcome (option number) :=
  v ← calculate fuel input; Calc.getOutput v.

(** A host whose [Math.pow] answers NaN, for the runs that evaluate no
    exponentiation. *)
Definition plain_host : MathHost := fun _ _ => JS_NaN.

(** The line feed character and a one-character string of it. *)
Definition LF : ascii := "010"%char.
Definition newline : string := String LF EmptyString.

(** The right-operand rule in the words of the specification: bare if the
    operand is a literal, a factorial, a reference, if the parent operator is
    exponentiation, or if it is a binary node whose operator is division or
    the parent's operator. *)
Definition spec_right_bare (token : TokenType) (right : AST) : bool :=
  Print.is_ValueExpr right || Print.is_FactorialExpr right
  || Print.is_RefExpr right || bool_decide (token = POW)
  || (Print.is_BinaryExpr right
      && (Print.token_is right DIVI || Print.token_is right token)).

(** The operand rule of unary and factorial nodes in the words of the
    specification: bare if the operand is a literal, a reference or a
    factorial. *)
Definition spec_operand_bare (operand : AST) : bool :=
  Print.is_ValueExpr operand || Print.is_RefExpr operand
  || Print.is_FactorialExpr operand.

(** ** Vocabulary of the further properties *)

(** A character of a number token: a digit or a dot. *)
Definition is_numchar (c : ascii) : bool := is_digit c || Ascii.eqb c ".".

(** The lexer [l] is at work on [input]: [rest l] is the text of [input]
    from offset [lexCursor l] on. *)
Definition reads (input : string) (l : Lexer) : Prop :=
  exists consumed,
    input = consumed +:+ rest l /\ String.length consumed = lexCursor l.

(** The payload the lexer gives a token: a number token carries a run of
    digits and dots, an identifier token a run of letters, neither empty. *)
Definition token_wf (t : Token) : bool :=
  match type t with
  | NUMBER =>
      match value t with
      | Some s => all_chars is_numchar s && negb (String.eqb s "")
      | None => false
      end
  | ID =>
      match value t with
      | Some s => all_chars is_letter s && negb (String.eqb s "")
      | None => false
      end
  | _ => true
  end.

(** A parser at work on [input]: its lexer reads [input], its current token
    is one the lexer makes, and an EOF token stands at the end of the
    text. *)
Definition parses (input : string) (p : Parser) : Prop :=
  reads input (lexer p)
  /\ token_wf (currentToken p) = true
  /\ (type (currentToken p) = EOF -> rest (lexer p) = "").

(** Longest match: behind a number token stands no digit and no dot,
    behind an identifier token no letter. *)
Definition munched (t : Token) (l : Lexer) : Prop :=
  match type t with
  | NUMBER => isNumber (currentChar l) = false
  | ID => isAlphaNumeric (currentChar l) = false
  | _ => True
  end.

(** A token the lexer has made of [input], with the lexer behind it. *)
Definition lexed (input : string) (r : Token * Lexer) : Prop :=
  reads input (snd r)
  /\ token_wf (fst r) = true
  /\ (type (fst r) = EOF -> rest (snd r) = "")
  /\ munched (fst r) (snd r).

(** Expression trees with the tokens the productions put into them. *)
Fixpoint wf_expr (a : AST) : bool :=
  match a with
  | UnaryExpr opToken e => bool_decide (opToken ∈ [PLUS; MINUS]) && wf_expr e
  | ValueExpr num =>
      match num with
      | Some s => all_chars is_numchar s && negb (String.eqb s "")
      | None => false
      end
  | RefExpr constToken =>
      bool_decide (type constToken = ID) && token_wf constToken
  | FactorialExpr e => wf_expr e
  | BinaryExpr l token r =>
      bool_decide (token ∈ [PLUS; MINUS; MULT; DIVI; POW])
      && wf_expr l && wf_expr r
  | AssignExpr _ _ => false
  | StatementListExpr _ => false
  end.

Definition wf_statement (a : AST) : bool :=
  match a with
  | AssignExpr id e => bool_decide (type id = ID) && token_wf id && wf_expr e
  | _ => false
  end.

Definition wf_program (a : AST) : bool :=
  match a with
  | StatementListExpr l => forallb wf_statement l
  | _ => false
  end.

(** The errors of lexing and parsing [input]: a syntax error, or an
    unexpected character that stands in [input] at the reported offset. *)
Definition parse_error (input : string) (e : Error) : Prop :=
  match e with
  | UnexpectedChar c n => String.get n input = Some c
  | InvalidSyntax _ _ => True
  | _ => False
  end.

(** An outcome of lexing or parsing [input] whose result satisfies [Q]. *)
Definition parse_outcome {A} (input : string) (Q : A -> Prop)
  (o : Outcome A) : Prop :=
  match o with
  | Normal a => Q a
  | Throw e => parse_error input e
  | Beyond _ => False
  | OutOfFuel => True
  end.

(** What a production hands back: a well-formed expression tree, and a
    parser that is still at work on the input. *)
Definition produced (input : string) (r : AST * Parser) : Prop :=
  parses input (snd r) /\ wf_expr (fst r) = true.

(** What [declarations] hands back: a well-formed program, and a parser
    that has reached the end of the input. *)
Definition declared (input : string) (r : AST * Parser) : Prop :=
  wf_program (fst r) = true
  /\ parses input (snd r)
  /\ type (currentToken (snd r)) = EOF.

(** A text of [n] characters. *)
Fixpoint padding (n : nat) : string :=
  match n with
  | O => EmptyString
  | S n => String "000" (padding n)
  end.

(** The value the calculator makes of an expression tree, written as a
    function of the tree and of the bindings alone. *)
Fixpoint eval {host : MathHost} (fuel : nat)
  (scope : gmap string (option number)) (a : AST) : Outcome number :=
  match a with
  | UnaryExpr opToken e =>
      x ← eval fuel scope e;
      let signFactor :=
        match opToken with MINUS => of_Z (-1) | _ => of_Z 1 end in
      Normal (mul signFactor x)
  | ValueExpr num => Number_ num
  | RefExpr constToken =>
      r ← get_property scope (to_string (value constToken));
      match Calc.held r with
      | None => Throw (UndefinedSymbol (to_string (value constToken)))
      | Some result => Normal result
      end
  | FactorialExpr e => x ← eval fuel scope e; Calc.factorial fuel x
  | BinaryExpr l token r =>
      x ← eval fuel scope l;
      y ← eval fuel scope r;
      Calc.resolve token x y
  | AssignExpr _ _ => Normal JS_NaN
  | StatementListExpr _ => Normal JS_NaN
  end.

(** The bindings a list of assignments leaves, statement by statement. *)
Fixpoint exec {host : MathHost} (fuel : nat)
  (scope : gmap string (option number)) (statements : list AST)
  : Outcome (gmap string (option number)) :=
  match statements with
  | [] => Normal scope
  | s :: statements =>
      match s with
      | AssignExpr id e =>
          x ← eval fuel scope e;
          exec fuel (set_property scope (to_string (value id)) (Some x))
            statements
      | _ => Normal scope
      end
  end.

(** The ways a run of the calculator on a parsed program can end: with a
    state, with an undefined symbol, with an inherited member for a value,
    or out of fuel in a factorial. *)
Definition calc_outcome {A} (o : Outcome A) : Prop :=
  match o with
  | Normal _ => True
  | Throw (UndefinedSymbol _) => True
  | Throw _ => False
  | Beyond (InheritedMember _) => True
  | Beyond _ => False
  | OutOfFuel => True
  end.

(** The ways a run of the printer on a parsed program can end: with a
    state, or with an inherited member for a text. *)
Definition print_outcome {A} (o : Outcome A) : Prop :=
  match o with
  | Normal _ => True
  | Beyond (InheritedMember _) => True
  | _ => False
  end.

(** The text the printer makes of a tree, written as a function of the tree
    alone. *)
Fixpoint render (a : AST) : Outcome string :=
  match a with
  | UnaryExpr opToken e =>
      x ← render e;
      let signFactor := match opToken with MINUS => "&minus;" | _ => "" end in
      Normal (if Print.is_ValueExpr e || Print.is_FactorialExpr e
              then signFactor +:+ x else signFactor +:+ Print.paren x)
  | ValueExpr num => Normal (to_string num)
  | RefExpr constToken =>
      r ← get_property Print.constTable (to_string (value constToken));
      Normal (default (to_string (value constToken)) r)
  | FactorialExpr e =>
      x ← render e;
      Normal (if Print.is_ValueExpr e || Print.is_FactorialExpr e
                 || Print.is_RefExpr e
              then "!" +:+ x else "!" +:+ Print.paren x)
  | BinaryExpr l token r =>
      x ← render l;
      y ← render r;
      Print.resolve token
        (if Print.left_bare l token then x else Print.paren x)
        (if Print.right_bare token r then y else Print.paren y)
  | AssignExpr id e =>
      x ← render e; Normal (to_string (value id) +:+ " = " +:+ x)
  | StatementListExpr _ => Normal "undefined"
  end.

(** The lines of a program: each statement's text and a line break. *)
Fixpoint render_lines (statements : list AST) : Outcome string :=
  match statements with
  | [] => Normal ""
  | s :: statements =>
      x ← render s;
      text ← render_lines statements;
      Normal (x +:+ "<br>" +:+ text)
  end.

(** The names an expression tree refers to are bound to numbers in
    [scope]. *)
Fixpoint refs_bound (scope : gmap string (option number)) (a : AST) : bool :=
  match a with
  | UnaryExpr _ e => refs_bound scope e
  | ValueExpr _ => true
  | RefExpr constToken =>
      match scope !! to_string (value constToken) with
      | Some (Some _) => true
      | _ => false
      end
  | FactorialExpr e => refs_bound scope e
  | BinaryExpr l _ r => refs_bound scope l && refs_bound scope r
  | AssignExpr _ e => refs_bound scope e
  | StatementListExpr _ => false
  end.

(** No factorial node in the tree. *)
Fixpoint no_factorial (a : AST) : bool :=
  match a with
  | UnaryExpr _ e => no_factorial e
  | ValueExpr _ => true
  | RefExpr _ => true
  | FactorialExpr _ => false
  | BinaryExpr l _ r => no_factorial l && no_factorial r
  | AssignExpr _ e => no_factorial e
  | StatementListExpr _ => false
  end.

(** The number of dots of a text. *)
Fixpoint dots (s : string) : nat :=
  match s with
  | EmptyString => 0
  | String c r => (if Ascii.eqb c "." then 1 else 0) + dots r
  end.

(** The first character of a text fails [predicate], if there is one. *)
Definition stops_at (predicate : option ascii -> bool) (s : string) : Prop :=
  match s with
  | String c _ => predicate (Some c) = false
  | EmptyString => True
  end.

(** The syntax errors the parser raises: the token it asked for is a
    number, a closing parenthesis, an identifier or [=], and the token it
    found is another one. *)
Definition syntax_outcome {A} (o : Outcome A) : Prop :=
  match o with
  | Throw (InvalidSyntax expected got) =>
      expected ∈ [NUMBER; RPAREN; ID; ASSIGN] /\ got <> expected
  | _ => True
  end.

(** The product of the integers from 2 up to [z], as an integer. *)
Definition integer_product_2_to (z : Z) : Z :=
  fold_left Z.mul (Zseq 2 (Z.to_nat (z - 1))) 1%Z.

(** The tokens [nextToken] makes of the text left in a lexer, call after
    call, up to the EOF token. *)
Fixpoint tokens_fuel (fuel : nat) (l : Lexer) : Outcome (list Token) :=
  match fuel with
  | O => OutOfFuel
  | S fuel =>
      '(t, l') ← nextToken l;
      if decide (type t = EOF) then Normal [t]
      else ts ← tokens_fuel fuel l'; Normal (t :: ts)
  end.

(** The tokens of a text.  Every token but EOF takes a character at least,
    so the length of the text bounds their number. *)
Definition tokens (input : string) : Outcome (list Token) :=
  tokens_fuel (String.length input + 1) (newLexer input).

(** Two lexers that have the same tokens to give. *)
Definition same_stream (l1 l2 : Lexer) : Prop :=
  exists ts n1 n2,
    tokens_fuel n1 l1 = Normal ts /\ tokens_fuel n2 l2 = Normal ts.

(** Two parsers at the same token, with the same tokens to come. *)
Definition same_state (p1 p2 : Parser) : Prop :=
  currentToken p1 = currentToken p2 /\ same_stream (lexer p1) (lexer p2).

(** Two results of a production: the same tree, and parsers in the same
    state. *)
Definition same_result (r1 r2 : AST * Parser) : Prop :=
  fst r1 = fst r2 /\ same_state (snd r1) (snd r2).

(** Two outcomes that end alike, with results related by [rel], as far as
    neither has run out of fuel. *)
Definition alike {A B} (rel : A -> B -> Prop) (o1 : Outcome A)
  (o2 : Outcome B) : Prop :=
  match o1, o2 with
  | OutOfFuel, _ | _, OutOfFuel => True
  | Normal a, Normal b => rel a b
  | Throw e1, Throw e2 => e1 = e2
  | Beyond h1, Beyond h2 => h1 = h2
  | _, _ => False
  end.

(** * Properties *)

(** ** The lexer always answers, and every token but EOF consumes text *)

Lemma read_from_length pred s tok s' :
  read_from pred s = (tok, s') ->
  String.length s = String.length tok + String.length s'.
Proof.
  revert tok s'. induction s as [|c r IH]; intros tok s' E; simpl in E.
  - inversion E; reflexivity.
  - destruct (pred (Some c)).
    + destruct (read_from pred r) as [t0 s0] eqn:R.
      inversion E; subst. simpl. rewrite (IH _ _ eq_refl). reflexivity.
    + inversion E; subst. reflexivity.
Qed.

Lemma read_from_stops pred s tok s' :
  read_from pred s = (tok, s') ->
  match s' with String c _ => pred (Some c) = false | EmptyString => True end.
Proof.
  revert tok s'. induction s as [|c r IH]; intros tok s' E; simpl in E.
  - inversion E; exact I.
  - destruct (pred (Some c)) eqn:P.
    + destruct (read_from pred r) as [t0 s0] eqn:R.
      inversion E; subst. exact (IH _ _ eq_refl).
    + inversion E; subst. exact P.
Qed.

Lemma read_from_first pred c r :
  pred (Some c) = true ->
  exists tok s', read_from pred (String c r) = (String c tok, s')
                 /\ read_from pred r = (tok, s').
Proof.
  intros P. simpl. rewrite P.
  destruct (read_from pred r) as [t0 s0]. eauto.
Qed.

Lemma case_space_is_regex_space c :
  is_case_space c = true -> is_regex_space c = true.
Proof.
  unfold is_case_space. intros E.
  repeat (apply orb_true_iff in E; destruct E as [E|E]);
    apply Ascii.eqb_eq in E; subst; reflexivity.
Qed.

Ltac split_if :=
  match goal with
  | H : context [if ?b then _ else _] |- _ => destruct b eqn:?
  end.

Lemma nextToken_body_progress self l t l' :
  match currentChar l with
  | Some c => is_case_space c = false
  | None => True
  end ->
  nextToken_body self l = Normal (t, l') ->
  String.length (rest l') <= String.length (rest l)
  /\ (type t <> EOF -> String.length (rest l') < String.length (rest l)).
Proof.
  unfold nextToken_body, currentChar, single, advance, readNumber,
    readAlphaNumeric, read.
  destruct l as [s n]; cbn [rest lexCursor]. destruct s as [|c r].
  - intros _ E. inversion E; subst; simpl. split; [lia|congruence].
  - intros -> E. cbn [rest lexCursor] in E.
    repeat (split_if; [inversion E; subst; simpl; split; lia|]).
    split_if.
    { destruct (read_from_first isNumber c r) as (tok & s' & R & R');
        [simpl; assumption|].
      rewrite R in E. inversion E; subst; simpl.
      apply read_from_length in R'. split; lia. }
    repeat (split_if; [inversion E; subst; simpl; split; lia|]).
    split_if; [|discriminate].
    destruct (read_from_first isAlphaNumeric c r) as (tok & s' & R & R');
      [assumption|].
    rewrite R in E. apply read_from_length in R'.
    repeat split_if; inversion E; subst; simpl; split; lia.
Qed.

Lemma nextToken_unfold l :
  nextToken l =
  match currentChar l with
  | Some c =>
      if is_case_space c
      then nextToken_body (fun _ => OutOfFuel) (snd (readWhiteSpace l))
      else nextToken_body (fun _ => OutOfFuel) l
  | None => Normal (mkToken EOF None, l)
  end.
Proof.
  unfold nextToken. simpl. unfold nextToken_body at 1.
  destruct (currentChar l) as [c|] eqn:C; [|reflexivity].
  destruct (is_case_space c) eqn:W; [reflexivity|].
  unfold nextToken_body. rewrite C, W. reflexivity.
Qed.

Lemma after_readWhiteSpace l :
  match currentChar (snd (readWhiteSpace l)) with
  | Some c => is_case_space c = false
  | None => True
  end
  /\ String.length (rest (snd (readWhiteSpace l))) <= String.length (rest l).
Proof.
  unfold readWhiteSpace, read, currentChar.
  destruct (read_from isWhiteSpace (rest l)) as [tok s'] eqn:R. simpl.
  pose proof (read_from_stops _ _ _ _ R) as S.
  pose proof (read_from_length _ _ _ _ R) as L.
  split; [|lia].
  destruct s' as [|c r]; [exact I|].
  simpl in S. destruct (is_case_space c) eqn:W; [|reflexivity].
  apply case_space_is_regex_space in W. congruence.
Qed.

Lemma nextToken_body_answers l :
  match currentChar l with
  | Some c => is_case_space c = false
  | None => True
  end ->
  nextToken_body (fun _ => OutOfFuel) l <> OutOfFuel.
Proof.
  unfold nextToken_body, single, readNumber, readAlphaNumeric, read.
  destruct (currentChar l) as [c|]; [|discriminate].
  intros ->.
  destruct (read_from isNumber (rest l)), (read_from isAlphaNumeric (rest l)).
  repeat match goal with
         | |- context [if ?b then _ else _] => destruct b
         end; discriminate.
Qed.

Lemma nextToken_total l : nextToken l <> OutOfFuel.
Proof.
  rewrite nextToken_unfold.
  destruct (currentChar l) as [c|] eqn:C; [|discriminate].
  destruct (is_case_space c) eqn:W.
  - apply nextToken_body_answers, after_readWhiteSpace.
  - apply nextToken_body_answers. rewrite C. exact W.
Qed.

Lemma nextToken_progress l t l' :
  nextToken l = Normal (t, l') ->
  String.length (rest l') <= String.length (rest l)
  /\ (type t <> EOF -> String.length (rest l') < String.length (rest l)).
Proof.
  rewrite nextToken_unfold.
  destruct (currentChar l) as [c|] eqn:C.
  - destruct (is_case_space c) eqn:W; intros E.
    + destruct (after_readWhiteSpace l) as [A B].
      apply nextToken_body_progress in E; [|exact A].
      destruct E as [E1 E2]. split; [lia|]. intros N. specialize (E2 N). lia.
    + apply nextToken_body_progress in E; [exact E|]. rewrite C. exact W.
  - intros E. inversion E; subst; simpl. split; [lia|congruence].
Qed.
(** ** The parser: unfolding equations, progress, stability in the fuel *)

Lemma bind_Normal {A B} (m : Outcome A) (k : A -> Outcome B) (r : B) :
  m ≫= k = Normal r -> exists a, m = Normal a /\ k a = Normal r.
Proof. destruct m; simpl; intros E; try discriminate. eauto. Qed.

Lemma bind_not_OutOfFuel {A B} (m : Outcome A) (k : A -> Outcome B) :
  m ≫= k <> OutOfFuel -> m <> OutOfFuel.
Proof. destruct m; simpl; congruence. Qed.

Lemma expr_S fuel p :
  expr (S fuel) p =
  ('(term_, p) ← term fuel p;
   if current_is p [PLUS; MINUS] then
     let token := type (currentToken p) in
     p ← eat (type (currentToken p)) p;
     '(rTerm, p) ← expr fuel p;
     Normal (BinaryExpr term_ token rTerm, p)
   else Normal (term_, p)).
Proof. reflexivity. Qed.

Lemma term_S fuel p :
  term (S fuel) p =
  ('(factor_, p) ← factor fuel p;
   if current_is p [NUMBER] then
     '(rTerm, p) ← term fuel p;
     Normal (BinaryExpr factor_ MULT rTerm, p)
   else if current_is p [MULT; DIVI; POW] then
     let token := type (currentToken p) in
     p ← eat (type (currentToken p)) p;
     '(rTerm, p) ← term fuel p;
     Normal (BinaryExpr factor_ token rTerm, p)
   else Normal (factor_, p)).
Proof. reflexivity. Qed.

Lemma factor_S fuel p :
  factor (S fuel) p =
  (if current_is p [PLUS; MINUS] then
     let opToken := type (currentToken p) in
     p ← eat (type (currentToken p)) p;
     '(operand, p) ← factor fuel p;
     Normal (UnaryExpr opToken operand, p)
   else if current_is p [FACTORIAL] then
     p ← eat FACTORIAL p;
     '(operand, p) ← factor fuel p;
     Normal (FactorialExpr operand, p)
   else if current_is p [LPAREN] then closure fuel p
   else if current_is p [ID] then const p
   else
     let factor_ := ValueExpr (value (currentToken p)) in
     p ← eat NUMBER p;
     Normal (factor_, p)).
Proof. reflexivity. Qed.

Lemma closure_S fuel p :
  closure (S fuel) p =
  (p ← eat LPAREN p;
   '(e, p) ← expr fuel p;
   p ← eat RPAREN p;
   Normal (e, p)).
Proof. reflexivity. Qed.

Lemma eat_Normal tokenType p p' :
  eat tokenType p = Normal p' ->
  type (currentToken p) = tokenType
  /\ nextToken (lexer p) = Normal (currentToken p', lexer p').
Proof.
  unfold eat. destruct (decide _) as [E|]; [|discriminate].
  intros H. apply bind_Normal in H as ([t l] & N & H).
  inversion H; subst. auto.
Qed.

Lemma eat_progress tokenType p p' :
  eat tokenType p = Normal p' -> tokenType <> EOF ->
  remaining p' < remaining p.
Proof.
  intros H NE. apply eat_Normal in H as [T N]. subst tokenType.
  apply nextToken_progress in N as [L1 L2]. unfold remaining.
  destruct (decide (type (currentToken p) = EOF)); [contradiction|].
  destruct (decide (type (currentToken p') = EOF)); [lia|].
  specialize (L2 n0). lia.
Qed.

Lemma eat_total tokenType p : eat tokenType p <> OutOfFuel.
Proof.
  unfold eat. destruct (decide _); [|discriminate].
  pose proof (nextToken_total (lexer p)) as N.
  destruct (nextToken (lexer p)) as [[t l]| | |]; cbn; congruence.
Qed.

Lemma current_is_true p ts :
  current_is p ts = true -> type (currentToken p) ∈ ts.
Proof. unfold current_is. apply bool_decide_eq_true_1. Qed.

Lemma current_is_not_EOF p ts :
  current_is p ts = true -> bool_decide (EOF ∈ ts) = false ->
  type (currentToken p) <> EOF.
Proof.
  intros C N E. apply current_is_true in C. rewrite E in C.
  apply bool_decide_eq_false_1 in N. contradiction.
Qed.

Ltac invert_bind H :=
  let a := fresh "a" in
  let E := fresh "E" in
  apply bind_Normal in H as (a & E & H);
  try match type of a with (_ * _)%type => destruct a as [? ?] end.

Lemma parser_progress fuel :
  forall p r p',
    (expr fuel p = Normal (r, p') -> remaining p' < remaining p)
    /\ (term fuel p = Normal (r, p') -> remaining p' < remaining p)
    /\ (factor fuel p = Normal (r, p') -> remaining p' < remaining p)
    /\ (closure fuel p = Normal (r, p') -> remaining p' < remaining p).
Proof.
  induction fuel as [|fuel IH]; intros p r p'.
  { repeat split; discriminate. }
  assert (IHe : forall p r p', expr fuel p = Normal (r, p') ->
                               remaining p' < remaining p)
    by (intros q r0 q' HH; destruct (IH q r0 q') as (A & B & C & D); auto).
  assert (IHt : forall p r p', term fuel p = Normal (r, p') ->
                               remaining p' < remaining p)
    by (intros q r0 q' HH; destruct (IH q r0 q') as (A & B & C & D); auto).
  assert (IHf : forall p r p', factor fuel p = Normal (r, p') ->
                               remaining p' < remaining p)
    by (intros q r0 q' HH; destruct (IH q r0 q') as (A & B & C & D); auto).
  assert (IHc : forall p r p', closure fuel p = Normal (r, p') ->
                               remaining p' < remaining p)
    by (intros q r0 q' HH; destruct (IH q r0 q') as (A & B & C & D); auto).
  clear IH. repeat split.
  - rewrite expr_S. intros H. invert_bind H. apply IHt in E.
    destruct (current_is p0 [PLUS; MINUS]) eqn:C.
    + cbn zeta in H. invert_bind H. invert_bind H. inversion H; subst.
      apply eat_progress in E0;
        [|eapply current_is_not_EOF; [eassumption|reflexivity]].
      apply IHe in E1. lia.
    + inversion H; subst. assumption.
  - rewrite term_S. intros H. invert_bind H. apply IHf in E.
    destruct (current_is p0 [NUMBER]) eqn:C.
    + invert_bind H. inversion H; subst. apply IHt in E0. lia.
    + destruct (current_is p0 [MULT; DIVI; POW]) eqn:C'.
      * cbn zeta in H. invert_bind H. invert_bind H. inversion H; subst.
        apply eat_progress in E0;
          [|eapply current_is_not_EOF; [eassumption|reflexivity]].
        apply IHt in E1. lia.
      * inversion H; subst. assumption.
  - rewrite factor_S. intros H.
    destruct (current_is p [PLUS; MINUS]) eqn:C1.
    { cbn zeta in H. invert_bind H. invert_bind H. inversion H; subst.
      apply eat_progress in E;
        [|eapply current_is_not_EOF; [eassumption|reflexivity]].
      apply IHf in E0. lia. }
    destruct (current_is p [FACTORIAL]) eqn:C2.
    { invert_bind H. invert_bind H. inversion H; subst.
      apply eat_progress in E; [|discriminate]. apply IHf in E0. lia. }
    destruct (current_is p [LPAREN]) eqn:C3.
    { eapply IHc; eassumption. }
    destruct (current_is p [ID]) eqn:C4.
    { unfold const in H. invert_bind H. inversion H; subst.
      apply eat_progress in E; [assumption|discriminate]. }
    cbn zeta in H. invert_bind H. inversion H; subst.
    apply eat_progress in E; [assumption|discriminate].
  - rewrite closure_S. intros H. invert_bind H. invert_bind H.
    invert_bind H. inversion H; subst.
    apply eat_progress in E; [|discriminate].
    apply eat_progress in E1; [|discriminate].
    apply IHe in E0. lia.
Qed.

(** A result other than [OutOfFuel] does not change with more fuel. *)
Lemma parser_stable_S fuel :
  forall p,
    (expr fuel p <> OutOfFuel -> expr (S fuel) p = expr fuel p)
    /\ (term fuel p <> OutOfFuel -> term (S fuel) p = term fuel p)
    /\ (factor fuel p <> OutOfFuel -> factor (S fuel) p = factor fuel p)
    /\ (closure fuel p <> OutOfFuel -> closure (S fuel) p = closure fuel p).
Proof.
  induction fuel as [|fuel IH]; intros p.
  { repeat split; intros N; contradiction N; reflexivity. }
  assert (IHe : forall p, expr fuel p <> OutOfFuel ->
                          expr (S fuel) p = expr fuel p) by (apply IH).
  assert (IHt : forall p, term fuel p <> OutOfFuel ->
                          term (S fuel) p = term fuel p) by (apply IH).
  assert (IHf : forall p, factor fuel p <> OutOfFuel ->
                          factor (S fuel) p = factor fuel p) by (apply IH).
  assert (IHc : forall p, closure fuel p <> OutOfFuel ->
                          closure (S fuel) p = closure fuel p) by (apply IH).
  clear IH.
  repeat split.
  - rewrite (expr_S (S fuel)), (expr_S fuel). intros N.
    rewrite IHt by (eapply bind_not_OutOfFuel; exact N).
    destruct (term fuel p) as [[t p1]| | |]; cbn in *; try reflexivity.
    destruct (current_is p1 [PLUS; MINUS]); [|reflexivity].
    destruct (eat (type (currentToken p1)) p1) as [p2| | |]; cbn in *;
      try reflexivity.
    rewrite IHe by (eapply bind_not_OutOfFuel; exact N). reflexivity.
  - rewrite (term_S (S fuel)), (term_S fuel). intros N.
    rewrite IHf by (eapply bind_not_OutOfFuel; exact N).
    destruct (factor fuel p) as [[t p1]| | |]; cbn in *; try reflexivity.
    destruct (current_is p1 [NUMBER]).
    { rewrite IHt by (eapply bind_not_OutOfFuel; exact N). reflexivity. }
    destruct (current_is p1 [MULT; DIVI; POW]); [|reflexivity].
    destruct (eat (type (currentToken p1)) p1) as [p2| | |]; cbn in *;
      try reflexivity.
    rewrite IHt by (eapply bind_not_OutOfFuel; exact N). reflexivity.
  - rewrite (factor_S (S fuel)), (factor_S fuel). intros N.
    destruct (current_is p [PLUS; MINUS]).
    { destruct (eat (type (currentToken p)) p) as [p2| | |]; cbn in *;
        try reflexivity.
      rewrite IHf by (eapply bind_not_OutOfFuel; exact N). reflexivity. }
    destruct (current_is p [FACTORIAL]).
    { destruct (eat FACTORIAL p) as [p2| | |]; cbn in *; try reflexivity.
      rewrite IHf by (eapply bind_not_OutOfFuel; exact N). reflexivity. }
    destruct (current_is p [LPAREN]); [exact (IHc p N)|reflexivity].
  - rewrite (closure_S (S fuel)), (closure_S fuel). intros N.
    destruct (eat LPAREN p) as [p2| | |]; cbn in *; try reflexivity.
    rewrite IHe by (eapply bind_not_OutOfFuel; exact N). reflexivity.
Qed.

Lemma parser_stable fuel fuel' p :
  fuel <= fuel' ->
  (expr fuel p <> OutOfFuel -> expr fuel' p = expr fuel p)
  /\ (term fuel p <> OutOfFuel -> term fuel' p = term fuel p)
  /\ (factor fuel p <> OutOfFuel -> factor fuel' p = factor fuel p)
  /\ (closure fuel p <> OutOfFuel -> closure fuel' p = closure fuel p).
Proof.
  induction 1 as [|k L IH]; [tauto|].
  destruct IH as (A & B & C & D).
  destruct (parser_stable_S k p) as (A' & B' & C' & D').
  repeat split; intros N.
  - rewrite <- (A N). apply A'. rewrite (A N). exact N.
  - rewrite <- (B N). apply B'. rewrite (B N). exact N.
  - rewrite <- (C N). apply C'. rewrite (C N). exact N.
  - rewrite <- (D N). apply D'. rewrite (D N). exact N.
Qed.

Lemma factor_more_fuel fuel fuel' p r :
  factor fuel p = Normal r -> fuel <= fuel' -> factor fuel' p = Normal r.
Proof.
  intros E L. destruct (parser_stable fuel fuel' p L) as (_ & _ & C & _).
  rewrite C; [exact E|congruence].
Qed.

Lemma term_more_fuel fuel fuel' p r :
  term fuel p = Normal r -> fuel <= fuel' -> term fuel' p = Normal r.
Proof.
  intros E L. destruct (parser_stable fuel fuel' p L) as (_ & B & _ & _).
  rewrite B; [exact E|congruence].
Qed.

Lemma expr_more_fuel fuel fuel' p r :
  expr fuel p = Normal r -> fuel <= fuel' -> expr fuel' p = Normal r.
Proof.
  intros E L. destruct (parser_stable fuel fuel' p L) as (A & _ & _ & _).
  rewrite A; [exact E|congruence].
Qed.

(** With four levels of recursion for each unit of [remaining], the
    productions never run out of fuel. *)
Lemma parser_total fuel :
  forall p,
    (4 * remaining p + 3 <= fuel -> expr fuel p <> OutOfFuel)
    /\ (4 * remaining p + 2 <= fuel -> term fuel p <> OutOfFuel)
    /\ (4 * remaining p + 1 <= fuel -> factor fuel p <> OutOfFuel)
    /\ (1 <= remaining p -> 4 * remaining p <= fuel ->
        closure fuel p <> OutOfFuel).
Proof.
  induction fuel as [|fuel IH]; intros p.
  { repeat split; intros; lia. }
  assert (IHe : forall p, 4 * remaining p + 3 <= fuel ->
                          expr fuel p <> OutOfFuel) by (apply IH).
  assert (IHt : forall p, 4 * remaining p + 2 <= fuel ->
                          term fuel p <> OutOfFuel) by (apply IH).
  assert (IHf : forall p, 4 * remaining p + 1 <= fuel ->
                          factor fuel p <> OutOfFuel) by (apply IH).
  assert (IHc : forall p, 1 <= remaining p -> 4 * remaining p <= fuel ->
                          closure fuel p <> OutOfFuel) by (apply IH).
  clear IH.
  repeat split.
  - intros L. rewrite expr_S.
    pose proof (IHt p ltac:(lia)) as T.
    destruct (term fuel p) as [[t p1]| | |] eqn:E; cbn; try congruence.
    apply parser_progress in E.
    destruct (current_is p1 [PLUS; MINUS]) eqn:C; [|discriminate].
    pose proof (eat_total (type (currentToken p1)) p1) as ET.
    destruct (eat (type (currentToken p1)) p1) as [p2| | |] eqn:E2; cbn;
      try congruence.
    apply eat_progress in E2;
      [|eapply current_is_not_EOF; [eassumption|reflexivity]].
    pose proof (IHe p2 ltac:(lia)) as X.
    destruct (expr fuel p2) as [[? ?]| | |]; cbn; congruence.
  - intros L. rewrite term_S.
    pose proof (IHf p ltac:(lia)) as T.
    destruct (factor fuel p) as [[t p1]| | |] eqn:E; cbn; try congruence.
    apply parser_progress in E.
    destruct (current_is p1 [NUMBER]) eqn:C.
    { pose proof (IHt p1 ltac:(lia)) as X.
      destruct (term fuel p1) as [[? ?]| | |]; cbn; congruence. }
    destruct (current_is p1 [MULT; DIVI; POW]) eqn:C'; [|discriminate].
    pose proof (eat_total (type (currentToken p1)) p1) as ET.
    destruct (eat (type (currentToken p1)) p1) as [p2| | |] eqn:E2; cbn;
      try congruence.
    apply eat_progress in E2;
      [|eapply current_is_not_EOF; [eassumption|reflexivity]].
    pose proof (IHt p2 ltac:(lia)) as X.
    destruct (term fuel p2) as [[? ?]| | |]; cbn; congruence.
  - intros L. rewrite factor_S.
    destruct (current_is p [PLUS; MINUS]) eqn:C1.
    { pose proof (eat_total (type (currentToken p)) p) as ET.
      destruct (eat (type (currentToken p)) p) as [p2| | |] eqn:E2; cbn;
        try congruence.
      apply eat_progress in E2;
        [|eapply current_is_not_EOF; [eassumption|reflexivity]].
      pose proof (IHf p2 ltac:(lia)) as X.
      destruct (factor fuel p2) as [[? ?]| | |]; cbn; congruence. }
    destruct (current_is p [FACTORIAL]) eqn:C2.
    { pose proof (eat_total FACTORIAL p) as ET.
      destruct (eat FACTORIAL p) as [p2| | |] eqn:E2; cbn; try congruence.
      apply eat_progress in E2; [|discriminate].
      pose proof (IHf p2 ltac:(lia)) as X.
      destruct (factor fuel p2) as [[? ?]| | |]; cbn; congruence. }
    destruct (current_is p [LPAREN]) eqn:C3.
    { apply IHc; [|lia].
      pose proof (current_is_not_EOF _ _ C3 eq_refl) as NE.
      unfold remaining. destruct (decide _); [contradiction|lia]. }
    destruct (current_is p [ID]) eqn:C4.
    { unfold const. pose proof (eat_total ID p) as ET.
      destruct (eat ID p); cbn; congruence. }
    cbn zeta. pose proof (eat_total NUMBER p) as ET.
    destruct (eat NUMBER p); cbn; congruence.
  - intros L1 L. rewrite closure_S.
    pose proof (eat_total LPAREN p) as ET.
    destruct (eat LPAREN p) as [p2| | |] eqn:E2; cbn; try congruence.
    apply eat_progress in E2; [|discriminate].
    pose proof (IHe p2 ltac:(lia)) as X.
    destruct (expr fuel p2) as [[e p3]| | |]; cbn; try congruence.
    pose proof (eat_total RPAREN p3) as ET3.
    destruct (eat RPAREN p3); cbn; congruence.
Qed.

Lemma declarations_loop_total fuel :
  forall assignList p,
    4 * remaining p + 4 <= fuel ->
    declarations_loop fuel assignList p <> OutOfFuel.
Proof.
  induction fuel as [|fuel IH]; intros assignList p L; [lia|].
  cbn [declarations_loop].
  destruct (decide (type (currentToken p) = EOF)); [discriminate|].
  pose proof (eat_total ID p) as T1.
  destruct (eat ID p) as [p1| | |] eqn:E1; cbn; try congruence.
  apply eat_progress in E1; [|discriminate].
  pose proof (eat_total ASSIGN p1) as T2.
  destruct (eat ASSIGN p1) as [p2| | |] eqn:E2; cbn; try congruence.
  apply eat_progress in E2; [|discriminate].
  destruct (parser_total fuel p2) as (T3 & _).
  specialize (T3 ltac:(lia)).
  destruct (expr fuel p2) as [[e p3]| | |] eqn:E3; cbn; try congruence.
  apply parser_progress in E3.
  destruct (current_is p3 [EOL; SEMICOLON]) eqn:C.
  - pose proof (eat_total (type (currentToken p3)) p3) as T4.
    destruct (eat (type (currentToken p3)) p3) as [p4| | |] eqn:E4; cbn;
      try congruence.
    apply eat_progress in E4;
      [|eapply current_is_not_EOF; [eassumption|reflexivity]].
    apply IH. lia.
  - cbn. apply IH. lia.
Qed.

Lemma remaining_le p : remaining p <= String.length (rest (lexer p)) + 1.
Proof. unfold remaining. destruct (decide _); lia. Qed.

(** The parser always answers: with a tree or with an exception. *)
Lemma parse_total p : parse p <> OutOfFuel.
Proof.
  unfold parse, declarations.
  pose proof (declarations_loop_total (parse_fuel p) [] p) as T.
  pose proof (remaining_le p). unfold parse_fuel in *.
  specialize (T ltac:(lia)).
  destruct (declarations_loop _ [] p) as [[root p']| | |]; cbn; congruence.
Qed.

Lemma parse_text_total input : parse_text input <> OutOfFuel.
Proof.
  unfold parse_text, newParser.
  pose proof (nextToken_total (newLexer input)) as N.
  destruct (nextToken (newLexer input)) as [[t l]| | |];
    cbn [mbind Outcome_bind]; try congruence.
  apply parse_total.
Qed.

(** ** The shape of parsed trees *)

Lemma parser_builds_expr fuel :
  forall p r p',
    (expr fuel p = Normal (r, p') -> is_expr r = true)
    /\ (term fuel p = Normal (r, p') -> is_expr r = true)
    /\ (factor fuel p = Normal (r, p') -> is_expr r = true)
    /\ (closure fuel p = Normal (r, p') -> is_expr r = true).
Proof.
  induction fuel as [|fuel IH]; intros p r p'.
  { repeat split; discriminate. }
  assert (IHe : forall p r p', expr fuel p = Normal (r, p') ->
                               is_expr r = true)
    by (intros q r0 q' HH; destruct (IH q r0 q') as (A & B & C & D); auto).
  assert (IHt : forall p r p', term fuel p = Normal (r, p') ->
                               is_expr r = true)
    by (intros q r0 q' HH; destruct (IH q r0 q') as (A & B & C & D); auto).
  assert (IHf : forall p r p', factor fuel p = Normal (r, p') ->
                               is_expr r = true)
    by (intros q r0 q' HH; destruct (IH q r0 q') as (A & B & C & D); auto).
  assert (IHc : forall p r p', closure fuel p = Normal (r, p') ->
                               is_expr r = true)
    by (intros q r0 q' HH; destruct (IH q r0 q') as (A & B & C & D); auto).
  clear IH. repeat split.
  - rewrite expr_S. intros H. invert_bind H. apply IHt in E.
    destruct (current_is p0 [PLUS; MINUS]).
    + cbn zeta in H. invert_bind H. invert_bind H. inversion H; subst.
      apply IHe in E1. cbn. rewrite E, E1. reflexivity.
    + inversion H; subst. assumption.
  - rewrite term_S. intros H. invert_bind H. apply IHf in E.
    destruct (current_is p0 [NUMBER]).
    + invert_bind H. inversion H; subst. apply IHt in E0.
      cbn. rewrite E, E0. reflexivity.
    + destruct (current_is p0 [MULT; DIVI; POW]).
      * cbn zeta in H. invert_bind H. invert_bind H. inversion H; subst.
        apply IHt in E1. cbn. rewrite E, E1. reflexivity.
      * inversion H; subst. assumption.
  - rewrite factor_S. intros H.
    destruct (current_is p [PLUS; MINUS]).
    { cbn zeta in H. invert_bind H. invert_bind H. inversion H; subst.
      cbn. eapply IHf; eassumption. }
    destruct (current_is p [FACTORIAL]).
    { invert_bind H. invert_bind H. inversion H; subst.
      cbn. eapply IHf; eassumption. }
    destruct (current_is p [LPAREN]).
    { eapply IHc; eassumption. }
    destruct (current_is p [ID]).
    { unfold const in H. invert_bind H. inversion H; subst. reflexivity. }
    cbn zeta in H. invert_bind H. inversion H; subst. reflexivity.
  - rewrite closure_S. intros H. invert_bind H. invert_bind H.
    invert_bind H. inversion H; subst. eapply IHe; eassumption.
Qed.

Lemma declarations_loop_builds_program fuel :
  forall assignList p root p',
    forallb is_statement assignList = true ->
    declarations_loop fuel assignList p = Normal (root, p') ->
    is_program root = true.
Proof.
  induction fuel as [|fuel IH]; intros assignList p root p' W H;
    cbn [declarations_loop] in H;
    (destruct (decide (type (currentToken p) = EOF));
     [inversion H; subst; exact W|]); [discriminate|].
  invert_bind H. invert_bind H. invert_bind H. invert_bind H.
  eapply IH; [|exact H].
  rewrite forallb_app, W. cbn.
  match goal with
  | X : expr fuel ?q = Normal (?e, ?q') |- _ =>
      destruct (parser_builds_expr fuel q e q') as (A & _); rewrite (A X)
  end.
  reflexivity.
Qed.

Lemma parse_builds_program p root :
  parse p = Normal root -> is_program root = true.
Proof.
  unfold parse, declarations. intros H. invert_bind H. inversion H; subst.
  eapply declarations_loop_builds_program; [|eassumption]. reflexivity.
Qed.

(** ** The calculator on expression trees *)

Lemma is_expr_ind (P : AST -> Prop) :
  (forall opToken e, is_expr e = true -> P e -> P (UnaryExpr opToken e)) ->
  (forall num, P (ValueExpr num)) ->
  (forall constToken, P (RefExpr constToken)) ->
  (forall e, is_expr e = true -> P e -> P (FactorialExpr e)) ->
  (forall l token r, is_expr l = true -> P l -> is_expr r = true -> P r ->
                     P (BinaryExpr l token r)) ->
  forall e, is_expr e = true -> P e.
Proof.
  intros HU HV HR HF HB. fix IH 1.
  intros [op e|num|tok|e|l tok r|id e|l] W; cbn in W; try discriminate.
  - apply HU; [exact W|exact (IH e W)].
  - apply HV.
  - apply HR.
  - apply HF; [exact W|exact (IH e W)].
  - apply andb_true_iff in W as [Wl Wr].
    apply HB; [exact Wl|exact (IH l Wl)|exact Wr|exact (IH r Wr)].
Qed.

(** Visiting an expression tree pushes one number and touches nothing
    else. *)
Lemma Calc_accept_expr {host : MathHost} fuel e :
  is_expr e = true ->
  forall v v', Calc.accept fuel e v = Normal v' ->
  exists x, v' = Calc.push x v.
Proof.
  revert e. apply (is_expr_ind (fun e => forall v v',
    Calc.accept fuel e v = Normal v' -> exists x, v' = Calc.push x v)).
  all: [> intros opToken e _ IHe | intros num | intros constToken
        | intros e _ IHe | intros e1 token e2 _ IHe1 _ IHe2 ].
  all: intros v v' A; cbn [Calc.accept] in A.
  - unfold Calc.visitUnaryExpr in A. invert_bind A.
    apply IHe in E as [x ->]. cbn in A. inversion A; subst.
    destruct v; eauto.
  - unfold Calc.visitValueExpr in A. invert_bind A. inversion A; eauto.
  - unfold Calc.visitRefExpr in A. invert_bind A.
    destruct (Calc.held a); [|discriminate]. inversion A; eauto.
  - unfold Calc.visitFactorialExpr in A. invert_bind A.
    apply IHe in E as [x ->]. cbn in A. invert_bind A. inversion A; subst.
    destruct v; eauto.
  - unfold Calc.visitBinaryExpr in A. invert_bind A.
    apply IHe1 in E as [x ->]. cbn in A. invert_bind A.
    apply IHe2 in E as [y ->]. cbn in A. invert_bind A. inversion A; subst.
    destruct v; eauto.
Qed.

(** ** Binary64 arithmetic on small integers *)

Section Binary64.
Local Open Scope Z_scope.

Lemma iter_xO_Z m t : Zpos (Pos.iter xO m t) = Zpos m * 2 ^ Zpos t.
Proof.
  induction t as [|t IH] using Pos.peano_ind.
  - cbn [Pos.iter]. rewrite Pos2Z.inj_xO. change (2 ^ 1) with 2. lia.
  - rewrite Pos.iter_succ, Pos2Z.inj_xO, IH, Pos2Z.inj_succ.
    rewrite Z.pow_succ_r by lia. lia.
Qed.

Lemma shl_Z m n : 0 <= n -> Zpos (shl m n) = Zpos m * 2 ^ n.
Proof.
  destruct n as [|d|d]; intros L; cbn [shl]; [lia| |lia].
  apply iter_xO_Z.
Qed.

Lemma digits_iter_xO m t :
  digits2_pos (Pos.iter xO m t) = (digits2_pos m + t)%positive.
Proof.
  induction t as [|t IH] using Pos.peano_ind.
  - cbn. lia.
  - rewrite Pos.iter_succ. cbn [digits2_pos]. rewrite IH. lia.
Qed.

Lemma digits_shl m n : 0 <= n -> digits (shl m n) = digits m + n.
Proof.
  unfold digits. destruct n as [|d|d]; intros L; cbn [shl]; [lia| |lia].
  rewrite digits_iter_xO. lia.
Qed.

Lemma shl_shl m a b : 0 <= a -> 0 <= b -> shl (shl m a) b = shl m (a + b).
Proof.
  intros A B. apply Pos2Z.inj.
  rewrite !shl_Z by lia. rewrite Z.pow_add_r by lia. lia.
Qed.

Lemma digits_bounds m : 2 ^ (digits m - 1) <= Zpos m < 2 ^ digits m.
Proof.
  unfold digits. induction m as [m IH|m IH|]; cbn [digits2_pos].
  - rewrite Pos2Z.inj_succ. change (Zpos m~1) with (2 * Zpos m + 1).
    replace (Z.succ (Zpos (digits2_pos m)) - 1)
      with (Z.succ (Zpos (digits2_pos m) - 1)) by lia.
    rewrite !Z.pow_succ_r by lia.
    generalize dependent (2 ^ (Zpos (digits2_pos m) - 1)).
    generalize dependent (2 ^ Zpos (digits2_pos m)). lia.
  - rewrite Pos2Z.inj_succ. change (Zpos m~0) with (2 * Zpos m).
    replace (Z.succ (Zpos (digits2_pos m)) - 1)
      with (Z.succ (Zpos (digits2_pos m) - 1)) by lia.
    rewrite !Z.pow_succ_r by lia.
    generalize dependent (2 ^ (Zpos (digits2_pos m) - 1)).
    generalize dependent (2 ^ Zpos (digits2_pos m)). lia.
  - cbn. lia.
Qed.

Lemma iter_pos_eq {A} (f : A -> A) n x :
  SpecFloat.iter_pos f n x = Pos.iter f x n.
Proof.
  revert x. induction n as [n IH|n IH|]; intros x; cbn.
  - rewrite !IH, !Pos.iter_swap. reflexivity.
  - rewrite !IH. reflexivity.
  - reflexivity.
Qed.

Lemma shr_exact m t :
  SpecFloat.iter_pos shr_1 t
    {| shr_m := Zpos (Pos.iter xO m t); shr_r := false; shr_s := false |}
  = {| shr_m := Zpos m; shr_r := false; shr_s := false |}.
Proof.
  rewrite iter_pos_eq.
  induction t as [|t IH] using Pos.peano_ind.
  - reflexivity.
  - rewrite (Pos.iter_succ t _ xO), Pos.iter_succ_r. exact IH.
Qed.

Lemma fexp_normal x : -1021 <= x -> fexp prec emax x = x - 53.
Proof. unfold fexp, emin, prec, emax. lia. Qed.

(** A mantissa that already has its canonical exponent is kept. *)
Lemma binary_round_aux_canonical s m e :
  fexp prec emax (digits m + e) = e -> e <= 971 ->
  binary_round_aux prec emax s (Zpos m) e loc_Exact = S754_finite s m e.
Proof.
  intros C L. unfold binary_round_aux, shr_fexp.
  cbn [Zdigits2 shr_record_of_loc]. fold (digits m).
  rewrite C, Z.sub_diag.
  cbn [shr shr_m loc_of_shr_record round_nearest_even Zdigits2
       shr_record_of_loc].
  fold (digits m). rewrite C, Z.sub_diag. cbn [shr shr_m].
  replace (e <=? emax - prec) with true; [reflexivity|].
  symmetry. apply Z.leb_le. unfold emax, prec. lia.
Qed.

(** Rounding [m * 2^j * 2^e] when [m] has at most 53 bits: the value is
    kept, the mantissa is brought to 53 bits. *)
Lemma binary_round_shifted s m j e :
  digits m <= 53 -> 0 <= j ->
  -1074 <= digits m + j + e - 53 <= 971 ->
  binary_round prec emax s (shl m j) e
  = S754_finite s (shl m (53 - digits m)) (digits m + j + e - 53).
Proof.
  intros D J B. unfold binary_round.
  change (Zpos (digits2_pos (shl m j))) with (digits (shl m j)).
  rewrite digits_shl by lia.
  rewrite fexp_normal by lia.
  unfold shl_align.
  destruct (digits m + j + e - 53 - e) as [|t|t] eqn:T.
  - assert (j = 53 - digits m) by lia. subst j.
    replace (digits m + (53 - digits m) + e - 53) with e by lia.
    apply binary_round_aux_canonical; [|lia].
    rewrite digits_shl by lia. rewrite fexp_normal by lia. lia.
  - (* too many bits: the low [t] bits are zero and are shifted out *)
    unfold binary_round_aux, shr_fexp.
    cbn [Zdigits2 shr_record_of_loc].
    change (Zpos (digits2_pos (shl m j))) with (digits (shl m j)).
    rewrite digits_shl by lia. rewrite fexp_normal by lia.
    replace (digits m + j + e - 53 - e) with (Zpos t) by lia.
    cbn [shr].
    replace (shl m j) with (Pos.iter xO (shl m (53 - digits m)) t).
    2:{ change (Pos.iter xO (shl m (53 - digits m)) t)
          with (shl (shl m (53 - digits m)) (Zpos t)).
        rewrite shl_shl by lia. f_equal. lia. }
    rewrite shr_exact.
    cbn [shr_m loc_of_shr_record round_nearest_even Zdigits2
         shr_record_of_loc].
    change (Zpos (digits2_pos (shl m (53 - digits m))))
      with (digits (shl m (53 - digits m))).
    rewrite digits_shl by lia.
    replace (digits m + (53 - digits m) + (e + Zpos t))
      with (53 + (e + Zpos t)) by lia.
    rewrite fexp_normal by lia.
    replace (53 + (e + Zpos t) - 53 - (e + Zpos t)) with 0 by lia.
    cbn [shr shr_m].
    replace (e + Zpos t <=? emax - prec) with true.
    2:{ symmetry. apply Z.leb_le. unfold emax, prec. lia. }
    f_equal. lia.
  - (* fewer than 53 bits: shifted left *)
    change (Pos.iter xO (shl m j) t) with (shl (shl m j) (Zpos t)).
    rewrite shl_shl by lia.
    replace (j + Zpos t) with (53 - digits m) by lia.
    apply binary_round_aux_canonical; [|lia].
    rewrite digits_shl by lia. rewrite fexp_normal by lia. lia.
Qed.

Lemma of_Z_pos m :
  digits m <= 53 ->
  of_Z (Zpos m) = S754_finite false (shl m (53 - digits m)) (digits m - 53).
Proof.
  intros D. unfold of_Z. cbn [binary_normalize].
  pose proof (binary_round_shifted false m 0 0 D) as R.
  cbn [shl] in R. rewrite R; [f_equal; lia|lia|].
  assert (0 < digits m) by (unfold digits; lia). lia.
Qed.

(** [i++] is exact on the integers from 1 below 2^53. *)
Lemma add_one_of_Z k :
  1 <= k -> k + 1 < 2 ^ 53 -> add (of_Z k) (of_Z 1) = of_Z (k + 1).
Proof.
  intros L U. destruct k as [|m|m]; try lia.
  assert (D' : digits (m + 1) <= 53).
  { pose proof (digits_bounds (m + 1)) as [B _].
    destruct (Z_lt_le_dec 53 (digits (m + 1))); [|assumption].
    assert (2 ^ 53 <= 2 ^ (digits (m + 1) - 1))
      by (apply Z.pow_le_mono_r; lia).
    rewrite Pos2Z.inj_add in B. lia. }
  assert (D : digits m <= 53).
  { pose proof (digits_bounds m) as [B _].
    destruct (Z_lt_le_dec 53 (digits m)); [|assumption].
    assert (2 ^ 53 <= 2 ^ (digits m - 1))
      by (apply Z.pow_le_mono_r; lia). lia. }
  assert (P : 0 < digits m) by (unfold digits; lia).
  assert (P' : 0 < digits (m + 1)) by (unfold digits; lia).
  change (Zpos m + 1) with (Zpos (m + 1)).
  rewrite (of_Z_pos m D), (of_Z_pos (m + 1) D').
  change (of_Z 1) with (S754_finite false 4503599627370496 (-52)).
  unfold add, SFadd.
  rewrite Z.min_r by lia.
  assert (A : fst (shl_align (shl m (53 - digits m)) (digits m - 53) (-52))
              = shl m 52).
  { unfold shl_align.
    destruct (-52 - (digits m - 53)) as [|t|t] eqn:T; cbn [fst].
    - f_equal. lia.
    - lia.
    - change (Pos.iter xO (shl m (53 - digits m)) t)
        with (shl (shl m (53 - digits m)) (Zpos t)).
      rewrite shl_shl by lia. f_equal. lia. }
  rewrite A.
  change (fst (shl_align 4503599627370496 (-52) (-52)))
    with 4503599627370496%positive.
  cbn [cond_Zopp].
  replace (Zpos (shl m 52) + 4503599627370496) with (Zpos (shl (m + 1) 52)).
  2:{ rewrite !shl_Z by lia. rewrite Pos2Z.inj_add.
      change (2 ^ 52) with 4503599627370496. lia. }
  cbn [binary_normalize].
  rewrite (binary_round_shifted false (m + 1) 52 (-52)) by lia.
  f_equal. lia.
Qed.

Lemma valid_finite m e s :
  valid_binary prec emax (S754_finite s m e) = true ->
  fexp prec emax (digits m + e) = e /\ e <= 971.
Proof.
  cbn [valid_binary]. unfold bounded, canonical_mantissa. intros V.
  apply andb_true_iff in V as [C L].
  apply Z.eqb_eq in C. apply Z.leb_le in L.
  unfold emax, prec in L. split; [exact C|lia].
Qed.

Lemma pow2_split a b : 0 <= a -> 0 <= b -> 2 ^ (a + b) = 2 ^ a * 2 ^ b.
Proof. intros. apply Z.pow_add_r; assumption. Qed.

(** [i <= num] for an integer counter is the comparison with the floor. *)
Lemma leb_of_Z k n :
  1 <= k < 2 ^ 53 ->
  valid_binary prec emax n = true -> is_finite n = true ->
  leb (of_Z k) n = (k <=? floor n).
Proof.
  intros [L U] V F. destruct k as [|m|m]; try lia.
  assert (D : digits m <= 53).
  { pose proof (digits_bounds m) as [B _].
    destruct (Z_lt_le_dec 53 (digits m)); [|assumption].
    assert (2 ^ 53 <= 2 ^ (digits m - 1))
      by (apply Z.pow_le_mono_r; lia). lia. }
  assert (P : 0 < digits m) by (unfold digits; lia).
  rewrite (of_Z_pos m D).
  destruct n as [s|s| |s mn en]; try discriminate.
  - cbn. reflexivity.
  - destruct s.
    + (* a negative number: its floor is negative *)
      cbn [leb SFleb SFcompare floor cond_Zopp Z.opp].
      symmetry. apply Z.leb_gt.
      assert (Z.shiftl (- Zpos mn) en < 0) by (apply Z.shiftl_neg; lia).
      lia.
    + apply valid_finite in V as [C E].
      assert (Dn : 0 < digits mn) by (unfold digits; lia).
      pose proof (digits_bounds m) as [Bl Bu].
      pose proof (digits_bounds mn) as [Nl Nu].
      pose proof (shl_Z m (53 - digits m) ltac:(lia)) as HM.
      unfold leb, SFleb, SFcompare. cbn [floor cond_Zopp].
      change (Pos.compare_cont Eq ?a ?b) with (Pos.compare a b).
      destruct (Z.compare_spec (digits m - 53) en) as [EQ|LT|GT].
      * (* same exponent: compare the mantissas *)
        subst en. rewrite Z.shiftl_div_pow2 by lia.
        replace (- (digits m - 53)) with (53 - digits m) by lia.
        assert (0 < 2 ^ (53 - digits m)) by (apply Z.pow_pos_nonneg; lia).
        destruct (Pos.compare_spec (shl m (53 - digits m)) mn) as [q|q|q].
        -- symmetry. apply Z.leb_le. apply Z.div_le_lower_bound; lia.
        -- symmetry. apply Z.leb_le. apply Z.div_le_lower_bound; lia.
        -- symmetry. apply Z.leb_gt. apply Z.div_lt_upper_bound; lia.
      * (* the counter has the smaller exponent: it is below [n] *)
        symmetry. apply Z.leb_le.
        assert (digits mn = 53) by (unfold fexp, emin, prec, emax in C; lia).
        replace (digits mn - 1) with 52 in Nl by lia.
        destruct (Z_lt_le_dec en 0).
        -- rewrite Z.shiftl_div_pow2 by lia.
           assert (0 < 2 ^ (- en)) by (apply Z.pow_pos_nonneg; lia).
           apply Z.div_le_lower_bound; [assumption|].
           assert (2 ^ (- en) * 2 ^ digits m <= 2 ^ 52).
           { rewrite <- pow2_split by lia. apply Z.pow_le_mono_r; lia. }
           nia.
        -- rewrite Z.shiftl_mul_pow2 by lia.
           assert (2 ^ digits m <= 2 ^ 52 * 2 ^ en).
           { rewrite <- pow2_split by lia. apply Z.pow_le_mono_r; lia. }
           nia.
      * (* the counter has the greater exponent: it is above [n] *)
        symmetry. apply Z.leb_gt.
        assert (digits mn <= 53)
          by (unfold fexp, emin, prec, emax in C; lia).
        rewrite Z.shiftl_div_pow2 by lia.
        assert (0 < 2 ^ (- en)) by (apply Z.pow_pos_nonneg; lia).
        apply Z.div_lt_upper_bound; [assumption|].
        assert (2 ^ digits mn <= 2 ^ 53) by (apply Z.pow_le_mono_r; lia).
        assert (2 ^ 53 <= 2 ^ (- en) * 2 ^ (digits m - 1)).
        { rewrite <- pow2_split by lia. apply Z.pow_le_mono_r; lia. }
        nia.
Qed.

Lemma factorial_loop_stops fuel val i num :
  leb i num = false -> Calc.factorial_loop fuel val i num = Normal val.
Proof. intros E. destruct fuel; cbn; rewrite E; reflexivity. Qed.

Lemma factorial_loop_steps fuel val i num :
  leb i num = true ->
  Calc.factorial_loop (S fuel) val i num
  = Calc.factorial_loop fuel (mul val i) (add i (of_Z 1)) num.
Proof. intros E. cbn. rewrite E. reflexivity. Qed.

Lemma factorial_loop_counts n :
  valid_binary prec emax n = true -> is_finite n = true ->
  floor n + 1 < 2 ^ 53 ->
  forall count k val fuel,
    1 <= k < 2 ^ 53 ->
    Z.of_nat count = Z.max 0 (floor n + 1 - k) ->
    (count <= fuel)%nat ->
    Calc.factorial_loop fuel val (of_Z k) n
    = Normal (product_from val (Zseq k count)).
Proof.
  intros V F B. induction count as [|count IH]; intros k val fuel K C L.
  - apply factorial_loop_stops. rewrite leb_of_Z by assumption.
    apply Z.leb_gt. lia.
  - destruct fuel as [|fuel]; [lia|].
    rewrite factorial_loop_steps.
    2:{ rewrite leb_of_Z by assumption. apply Z.leb_le. lia. }
    rewrite add_one_of_Z by lia.
    rewrite IH by lia. reflexivity.
Qed.

Lemma shiftl_back a e : 0 <= e -> Z.shiftl (Z.shiftl a e) (- e) = a.
Proof.
  intros E. rewrite Z.shiftl_div_pow2 by lia.
  rewrite Z.shiftl_mul_pow2 by lia. rewrite Z.opp_involutive.
  apply Z.div_mul. apply Z.pow_nonzero; lia.
Qed.

(** A number with a fraction is below 2^52 in magnitude. *)
Lemma non_integer_small n :
  valid_binary prec emax n = true -> is_finite n = true ->
  is_integer n = false ->
  floor n + 1 < 2 ^ 53.
Proof.
  destruct n as [s|s| |s m e]; try discriminate. intros V _ I.
  cbn [is_integer] in I.
  destruct (Z_lt_le_dec e 0) as [N|N].
  2:{ rewrite shiftl_back in I by assumption.
      rewrite Z.eqb_refl in I. discriminate. }
  apply valid_finite in V as [C _].
  assert (D : digits m <= 53) by (unfold fexp, emin, prec, emax in C; lia).
  pose proof (digits_bounds m) as [_ U].
  assert (2 ^ digits m <= 2 ^ 53) by (apply Z.pow_le_mono_r; lia).
  cbn [floor]. destruct s; cbn [cond_Zopp].
  - assert (Z.shiftl (- Zpos m) e < 0) by (apply Z.shiftl_neg; lia).
    change (2 ^ 53) with 9007199254740992 in *. lia.
  - rewrite Z.shiftl_div_pow2 by lia.
    assert (0 < 2 ^ (- e)) by (apply Z.pow_pos_nonneg; lia).
    assert (Zpos m / 2 ^ (- e) <= Zpos m).
    { apply Z.div_le_upper_bound; [assumption|]. nia. }
    assert (Zpos m / 2 ^ (- e) <> Zpos m).
    { intros Q. assert (2 <= 2 ^ (- e)).
      { change 2 with (2 ^ 1) at 1. apply Z.pow_le_mono_r; lia. }
      assert (Zpos m / 2 ^ (- e) < Zpos m)
        by (apply Z.div_lt; lia). lia. }
    change (2 ^ 53) with 9007199254740992 in *. lia.
Qed.

Lemma factorial_negative fuel n :
  is_negative n = true ->
  Calc.factorial fuel n = Normal (of_Z 1).
Proof.
  intros N. apply factorial_loop_stops.
  destruct n as [[]|[]| |[] m e]; try discriminate; reflexivity.
Qed.

Lemma factorial_finite fuel n :
  valid_binary prec emax n = true -> is_finite n = true ->
  floor n + 1 < 2 ^ 53 ->
  (Z.to_nat (floor n - 1) <= fuel)%nat ->
  Calc.factorial fuel n
  = Normal (product_2_to (floor n)).
Proof.
  intros V F B L. unfold Calc.factorial.
  apply factorial_loop_counts; try assumption.
  - change (2 ^ 53) with 9007199254740992. lia.
  - lia.
Qed.
End Binary64.

(** ** The calculator on statements and programs *)

Lemma set_property_other {V} (m : gmap string V) key k x :
  key <> k -> set_property m key x !! k = m !! k.
Proof.
  intros N. unfold set_property. destruct (String.eqb key "__proto__").
  - reflexivity.
  - apply lookup_insert_ne. exact N.
Qed.

Lemma set_property_same {V} (m : gmap string V) key x :
  key <> "__proto__" -> set_property m key x !! key = Some x.
Proof.
  intros N. unfold set_property.
  destruct (String.eqb_spec key "__proto__"); [contradiction|].
  apply lookup_insert_eq.
Qed.

Lemma Calc_accept_statement {host : MathHost} fuel s v v' :
  is_statement s = true ->
  Calc.accept fuel s v = Normal v' ->
  exists id e x,
    s = AssignExpr id e
    /\ Calc.accept fuel e v = Normal (Calc.push x v)
    /\ v' = {| Calc.scope :=
                 set_property (Calc.scope v) (to_string (value id)) (Some x);
               Calc.stack := Calc.stack v;
               Calc.output := Calc.output v |}.
Proof.
  destruct s as [| | | | |id e|]; try discriminate. cbn [is_statement].
  intros W A. cbn [Calc.accept] in A. unfold Calc.visitAssignExpr in A.
  invert_bind A.
  destruct (Calc_accept_expr fuel e W _ _ E) as [x ->].
  cbn in A. inversion A; subst.
  exists id, e, x. repeat split. exact E.
Qed.

Lemma Calc_statements_frame {host : MathHost} fuel statements :
  forallb is_statement statements = true ->
  forall v v',
    Calc.visitStatementListExpr (Calc.accept fuel) statements v = Normal v' ->
    Calc.stack v' = Calc.stack v
    /\ Calc.output v' = Calc.output v
    /\ forall name, assigns name statements = false ->
                    Calc.scope v' !! name = Calc.scope v !! name.
Proof.
  induction statements as [|s l IH]; intros W v v' A.
  - inversion A; subst. auto.
  - cbn [forallb] in W. apply andb_true_iff in W as [Ws Wl].
    cbn [Calc.visitStatementListExpr] in A. invert_bind A.
    destruct (Calc_accept_statement fuel s v a Ws E)
      as (id & e & x & -> & _ & ->).
    destruct (IH Wl _ _ A) as (S1 & O1 & F1). cbn in S1, O1, F1.
    repeat split; [assumption..|].
    intros name N. cbn [assigns existsb] in N.
    apply orb_false_iff in N as [N1 N2].
    rewrite (F1 name N2). apply set_property_other.
    intros Q. rewrite Q, String.eqb_refl in N1. discriminate.
Qed.

Lemma Calc_accept_program {host : MathHost} fuel root v v' :
  is_program root = true ->
  Calc.accept fuel root v = Normal v' ->
  Calc.stack v' = Calc.stack v.
Proof.
  destruct root as [| | | | | |l]; try discriminate. cbn [is_program].
  intros W A. cbn [Calc.accept] in A.
  eapply Calc_statements_frame; eassumption.
Qed.

(** ** More fuel never changes an answer of the calculator *)

Lemma AST_ind (P : AST -> Prop) :
  (forall opToken e, P e -> P (UnaryExpr opToken e)) ->
  (forall num, P (ValueExpr num)) ->
  (forall constToken, P (RefExpr constToken)) ->
  (forall e, P e -> P (FactorialExpr e)) ->
  (forall l token r, P l -> P r -> P (BinaryExpr l token r)) ->
  (forall id e, P e -> P (AssignExpr id e)) ->
  (forall statements, Forall P statements ->
                      P (StatementListExpr statements)) ->
  forall a, P a.
Proof.
  intros HU HV HR HF HB HA HS. fix IH 1.
  intros [op e|num|tok|e|l tok r|id e|statements].
  - apply HU, IH.
  - apply HV.
  - apply HR.
  - apply HF, IH.
  - apply HB; apply IH.
  - apply HA, IH.
  - apply HS. induction statements as [|s l' IHl]; constructor.
    + apply IH.
    + exact IHl.
Qed.

Lemma factorial_loop_more_fuel fuel :
  forall fuel' val i num r,
    Calc.factorial_loop fuel val i num = Normal r -> fuel <= fuel' ->
    Calc.factorial_loop fuel' val i num = Normal r.
Proof.
  induction fuel as [|fuel IH]; intros fuel' val i num r E L.
  - cbn in E. destruct (leb i num) eqn:C; [discriminate|].
    rewrite <- E. destruct fuel'; cbn; rewrite C; reflexivity.
  - destruct fuel' as [|fuel']; [lia|]. cbn in E |- *.
    destruct (leb i num); [|exact E]. apply IH; [exact E|lia].
Qed.

Lemma Calc_accept_more_fuel {host : MathHost} ast :
  forall fuel fuel' v r,
    Calc.accept fuel ast v = Normal r -> fuel <= fuel' ->
    Calc.accept fuel' ast v = Normal r.
Proof.
  induction ast as [op e IHe|num|tok|e IHe|l tok r0 IHl IHr|id e IHe|l IHl]
    using AST_ind; intros fuel fuel' v r A L; cbn [Calc.accept] in A |- *.
  - unfold Calc.visitUnaryExpr in *. invert_bind A.
    rewrite (IHe _ _ _ _ E L). exact A.
  - exact A.
  - exact A.
  - unfold Calc.visitFactorialExpr in *. invert_bind A.
    rewrite (IHe _ _ _ _ E L). cbn [mbind Outcome_bind].
    destruct (Calc.pop a) as [x a']. invert_bind A.
    unfold Calc.factorial in *.
    rewrite (factorial_loop_more_fuel _ _ _ _ _ _ E0 L). exact A.
  - unfold Calc.visitBinaryExpr in *. invert_bind A.
    rewrite (IHl _ _ _ _ E L). cbn [mbind Outcome_bind].
    destruct (Calc.pop a) as [x a']. invert_bind A.
    rewrite (IHr _ _ _ _ E0 L). exact A.
  - unfold Calc.visitAssignExpr in *. invert_bind A.
    rewrite (IHe _ _ _ _ E L). exact A.
  - revert v A. induction IHl as [|s l' Hs _ IHl']; intros v A; [exact A|].
    cbn [Calc.visitStatementListExpr] in A |- *. invert_bind A.
    rewrite (Hs _ _ _ _ E L). cbn [mbind Outcome_bind]. apply IHl'. exact A.
Qed.

Lemma result_of_more_fuel {host : MathHost} fuel fuel' input r :
  result_of fuel input = Normal r -> fuel <= fuel' ->
  result_of fuel' input = Normal r.
Proof.
  unfold result_of, calculate, interpret. intros A L.
  destruct (newParser input) as [p| | |]; cbn [mbind Outcome_bind] in *;
    try discriminate.
  destruct (parse p) as [root| | |]; cbn [mbind Outcome_bind] in *;
    try discriminate.
  destruct (Calc.accept fuel root Calc.new) as [v| | |] eqn:E;
    cbn [mbind Outcome_bind] in *; try discriminate.
  rewrite (Calc_accept_more_fuel _ _ _ _ _ E L). exact A.
Qed.

(** * The claims *)

(** ** C1: binary operators group to the right *)

(** C1.  A chain of three operands joined by two operators of one grammar
    level parses as [a op1 (b op2 c)]: [term] recurses into [term] after
    [*], [/] or [^], and [expr] recurses into [expr] after [+] or [-].  So
    [out = 10 - 2 - 3] binds [out] to 11, not 5, and [out = 100 / 2 / 5]
    binds [out] to 250, not 10. *)
Theorem C1_right_associative :
  (forall fuel p a p1 op1 p2 b p3 op2 p4 c p5,
      op1 ∈ [MULT; DIVI; POW] -> op2 ∈ [MULT; DIVI; POW] ->
      factor fuel p = Normal (a, p1) ->
      type (currentToken p1) = op1 -> eat op1 p1 = Normal p2 ->
      factor fuel p2 = Normal (b, p3) ->
      type (currentToken p3) = op2 -> eat op2 p3 = Normal p4 ->
      factor fuel p4 = Normal (c, p5) ->
      current_is p5 [NUMBER; MULT; DIVI; POW] = false ->
      term (3 + fuel) p
      = Normal (BinaryExpr a op1 (BinaryExpr b op2 c), p5))
  /\ (forall fuel p a p1 op1 p2 b p3 op2 p4 c p5,
      op1 ∈ [PLUS; MINUS] -> op2 ∈ [PLUS; MINUS] ->
      term fuel p = Normal (a, p1) ->
      type (currentToken p1) = op1 -> eat op1 p1 = Normal p2 ->
      term fuel p2 = Normal (b, p3) ->
      type (currentToken p3) = op2 -> eat op2 p3 = Normal p4 ->
      term fuel p4 = Normal (c, p5) ->
      current_is p5 [PLUS; MINUS] = false ->
      expr (3 + fuel) p
      = Normal (BinaryExpr a op1 (BinaryExpr b op2 c), p5))
  /\ (forall (host : MathHost) fuel,
         result_of fuel "out = 10 - 2 - 3" = Normal (Some (of_Z 11)))
  /\ (forall (host : MathHost) fuel,
         result_of fuel "out = 100 / 2 / 5" = Normal (Some (of_Z 250)))
  /\ of_Z 11 <> of_Z 5 /\ of_Z 250 <> of_Z 10.
Proof.
  assert (level_term : forall p op, op ∈ [MULT; DIVI; POW] ->
            type (currentToken p) = op ->
            current_is p [NUMBER] = false
            /\ current_is p [MULT; DIVI; POW] = true).
  { intros p op I E. unfold current_is. rewrite E.
    repeat (apply elem_of_cons in I as [->|I]); [..|inversion I];
      split; reflexivity. }
  assert (level_expr : forall p op, op ∈ [PLUS; MINUS] ->
            type (currentToken p) = op ->
            current_is p [PLUS; MINUS] = true).
  { intros p op I E. unfold current_is. rewrite E.
    repeat (apply elem_of_cons in I as [->|I]); [..|inversion I];
      reflexivity. }
  assert (not_level : forall p,
            current_is p [NUMBER; MULT; DIVI; POW] = false ->
            current_is p [NUMBER] = false
            /\ current_is p [MULT; DIVI; POW] = false).
  { intros p. unfold current_is.
    destruct (type (currentToken p)); intros E; try discriminate;
      split; reflexivity. }
  split; [|split; [|split; [|split; [|split]]]].
  - intros fuel p a p1 op1 p2 b p3 op2 p4 c p5 I1 I2 Fa T1 E1 Fb T2 E2 Fc N.
    destruct (level_term p1 op1 I1 T1) as [N1 M1].
    destruct (level_term p3 op2 I2 T2) as [N3 M3].
    destruct (not_level p5 N) as [N5 M5].
    assert (Tc : term (1 + fuel) p4 = Normal (c, p5)).
    { cbn [Nat.add]. rewrite term_S, Fc. cbn [mbind Outcome_bind].
      rewrite N5, M5. reflexivity. }
    assert (Tb : term (2 + fuel) p2
                 = Normal (BinaryExpr b op2 c, p5)).
    { cbn [Nat.add]. rewrite term_S.
      rewrite (factor_more_fuel _ (S fuel) _ _ Fb) by lia.
      cbn [mbind Outcome_bind]. rewrite N3, M3. cbn zeta.
      rewrite T2, E2. cbn [mbind Outcome_bind].
      cbn [Nat.add] in Tc. rewrite Tc. reflexivity. }
    cbn [Nat.add]. rewrite term_S.
    rewrite (factor_more_fuel _ (S (S fuel)) _ _ Fa) by lia.
    cbn [mbind Outcome_bind]. rewrite N1, M1. cbn zeta.
    rewrite T1, E1. cbn [mbind Outcome_bind].
    cbn [Nat.add] in Tb. rewrite Tb. reflexivity.
  - intros fuel p a p1 op1 p2 b p3 op2 p4 c p5 I1 I2 Ta T1 E1 Tb T2 E2 Tc N.
    pose proof (level_expr p1 op1 I1 T1) as M1.
    pose proof (level_expr p3 op2 I2 T2) as M3.
    assert (Ec : expr (1 + fuel) p4 = Normal (c, p5)).
    { cbn [Nat.add]. rewrite expr_S, Tc. cbn [mbind Outcome_bind].
      rewrite N. reflexivity. }
    assert (Eb : expr (2 + fuel) p2
                 = Normal (BinaryExpr b op2 c, p5)).
    { cbn [Nat.add]. rewrite expr_S.
      rewrite (term_more_fuel _ (S fuel) _ _ Tb) by lia.
      cbn [mbind Outcome_bind]. rewrite M3. cbn zeta.
      rewrite T2, E2. cbn [mbind Outcome_bind].
      cbn [Nat.add] in Ec. rewrite Ec. reflexivity. }
    cbn [Nat.add]. rewrite expr_S.
    rewrite (term_more_fuel _ (S (S fuel)) _ _ Ta) by lia.
    cbn [mbind Outcome_bind]. rewrite M1. cbn zeta.
    rewrite T1, E1. cbn [mbind Outcome_bind].
    cbn [Nat.add] in Eb. rewrite Eb. reflexivity.
  - intros host fuel. vm_compute. reflexivity.
  - intros host fuel. vm_compute. reflexivity.
  - vm_compute. discriminate.
  - vm_compute. discriminate.
Qed.

(** The chain [8 / 4 / 2], read from its first token. *)
Lemma C1_right_associative_witness :
  term 4 {| lexer := {| rest := " / 4 / 2"; lexCursor := 1 |};
            currentToken := mkToken NUMBER (Some "8") |}
  = Normal (BinaryExpr (ValueExpr (Some "8")) DIVI
              (BinaryExpr (ValueExpr (Some "4")) DIVI (ValueExpr (Some "2"))),
            {| lexer := {| rest := ""; lexCursor := 9 |};
               currentToken := mkToken EOF None |}).
Proof.
  refine (proj1 C1_right_associative 1 _ _
            {| lexer := {| rest := " 4 / 2"; lexCursor := 3 |};
               currentToken := mkToken DIVI (Some "/") |}
            DIVI
            {| lexer := {| rest := " / 2"; lexCursor := 5 |};
               currentToken := mkToken NUMBER (Some "4") |}
            _
            {| lexer := {| rest := " 2"; lexCursor := 7 |};
               currentToken := mkToken DIVI (Some "/") |}
            DIVI
            {| lexer := {| rest := ""; lexCursor := 9 |};
               currentToken := mkToken NUMBER (Some "2") |}
            _ _ _ _ _ _ _ _ _ _ _ _).
  all: first [ reflexivity | repeat constructor ].
Defined.

(** ** C2: the factorial loop *)

(** The claim's two programs write the factorial sign behind its operand;
    the grammar has it in front ([FACTORIAL factor]), so both are rejected
    by the parser and bind nothing. *)
Lemma C2_postfix_factorial_is_rejected :
  parse_text "out = 3.5!" = Throw (InvalidSyntax ID FACTORIAL)
  /\ parse_text "out = (-2)!" = Throw (InvalidSyntax ID FACTORIAL)
  /\ result_of (host := plain_host) 100 "out = 3.5!"
     <> Normal (Some (of_Z 6))
  /\ result_of (host := plain_host) 100 "out = (-2)!"
     <> Normal (Some (of_Z 1)).
Proof. repeat split; vm_compute; congruence. Qed.

(** C2, amended.  [factorial] starts an accumulator at 1 and a counter at 2
    and multiplies the accumulator by the counter while the counter is
    [<=] the operand.  For every negative operand the result is 1; for every
    finite operand that is not an integer it is the binary64 product, from
    the left, of the integers from 2 up to the greatest integer [<=] the
    operand.  With the sign in front of its operand, [out = !3.5] binds
    [out] to 6 and [out = !(-2)] binds [out] to 1. *)
Theorem C2_factorial_loop :
  (forall fuel num,
      Calc.factorial fuel num
      = Calc.factorial_loop fuel (of_Z 1) (of_Z 2) num)
  /\ (forall fuel val i num,
         leb i num = true ->
         Calc.factorial_loop (S fuel) val i num
         = Calc.factorial_loop fuel (mul val i) (add i (of_Z 1)) num)
  /\ (forall fuel val i num,
         leb i num = false ->
         Calc.factorial_loop fuel val i num = Normal val)
  /\ (forall fuel num,
         is_negative num = true ->
         Calc.factorial fuel num = Normal (of_Z 1))
  /\ (forall fuel num,
         valid_binary prec emax num = true ->
         is_finite num = true -> is_integer num = false ->
         Z.to_nat (floor num - 1) <= fuel ->
         Calc.factorial fuel num = Normal (product_2_to (floor num)))
  /\ (forall (host : MathHost) fuel,
         2 <= fuel ->
         result_of fuel "out = !3.5" = Normal (Some (of_Z 6)))
  /\ (forall (host : MathHost) fuel,
         result_of fuel "out = !(-2)" = Normal (Some (of_Z 1))).
Proof.
  split; [|split; [|split; [|split; [|split; [|split]]]]].
  - reflexivity.
  - intros. apply factorial_loop_steps. assumption.
  - intros. apply factorial_loop_stops. assumption.
  - intros. apply factorial_negative. assumption.
  - intros fuel num V F I L. apply factorial_finite; try assumption.
    apply non_integer_small; assumption.
  - intros host fuel L.
    apply (result_of_more_fuel 2 fuel); [|exact L]. vm_compute. reflexivity.
  - intros host fuel.
    apply (result_of_more_fuel 0 fuel); [|lia]. vm_compute. reflexivity.
Qed.

(** The operand 3.5: the loop runs for the counters 2 and 3. *)
Lemma C2_factorial_loop_witness :
  Calc.factorial 2 (S754_finite false 7881299347898368 (-51))
  = Normal (of_Z 6).
Proof.
  exact (proj1 (proj2 (proj2 (proj2 (proj2 C2_factorial_loop))))
           2 (S754_finite false 7881299347898368 (-51))
           eq_refl eq_refl eq_refl (le_n 2)).
Defined.

(** ** C3: implicit multiplication *)

(** C3.  After [term] has parsed a factor, a current token of type NUMBER
    makes it build a MULT node of that factor and a freshly parsed term, with
    no token consumed in between; with any other current token no such node
    is built: an operator [*], [/], [^] is consumed for an explicit node, and
    everything else, an identifier or a left parenthesis included, leaves
    the factor as the result.  So [out = 2 3] parses as [out = 2*3], and
    [out = 2pi] and [out = 2(3)] are syntax errors. *)
Theorem C3_implicit_multiplication :
  (forall fuel p a p1,
      factor fuel p = Normal (a, p1) ->
      type (currentToken p1) = NUMBER ->
      term (S fuel) p
      = ('(rTerm, p2) ← term fuel p1;
         Normal (BinaryExpr a MULT rTerm, p2)))
  /\ (forall fuel p a p1,
      factor fuel p = Normal (a, p1) ->
      type (currentToken p1) <> NUMBER ->
      term (S fuel) p
      = (if current_is p1 [MULT; DIVI; POW]
         then p2 ← eat (type (currentToken p1)) p1;
              '(rTerm, p3) ← term fuel p2;
              Normal (BinaryExpr a (type (currentToken p1)) rTerm, p3)
         else Normal (a, p1)))
  /\ (forall fuel p a p1,
      factor fuel p = Normal (a, p1) ->
      type (currentToken p1) ∈ [ID; LPAREN] ->
      term (S fuel) p = Normal (a, p1))
  /\ parse_text "out = 2 3"
     = Normal (StatementListExpr
                 [AssignExpr (mkToken ID (Some "out"))
                    (BinaryExpr (ValueExpr (Some "2")) MULT
                       (ValueExpr (Some "3")))])
  /\ parse_text "out = 2 3" = parse_text "out = 2*3"
  /\ parse_text "out = 2pi" = Throw (InvalidSyntax ASSIGN EOF)
  /\ parse_text "out = 2(3)" = Throw (InvalidSyntax ID LPAREN).
Proof.
  split; [|split; [|split; [|split; [|split; [|split]]]]].
  4-7: vm_compute; reflexivity.
  - intros fuel p a p1 F T. rewrite term_S, F. cbn [mbind Outcome_bind].
    unfold current_is. rewrite T. reflexivity.
  - intros fuel p a p1 F T. rewrite term_S, F. cbn [mbind Outcome_bind].
    replace (current_is p1 [NUMBER]) with false; [reflexivity|].
    unfold current_is. destruct (type (currentToken p1));
      try reflexivity. contradiction T; reflexivity.
  - intros fuel p a p1 F T. rewrite term_S, F. cbn [mbind Outcome_bind].
    unfold current_is.
    repeat (apply elem_of_cons in T as [->|T]); [..|inversion T];
      reflexivity.
Qed.

(** [2 3]: the factor [2] is followed by the number [3]. *)
Lemma C3_implicit_multiplication_witness :
  term 3 {| lexer := {| rest := " 3"; lexCursor := 1 |};
            currentToken := mkToken NUMBER (Some "2") |}
  = Normal (BinaryExpr (ValueExpr (Some "2")) MULT (ValueExpr (Some "3")),
            {| lexer := {| rest := ""; lexCursor := 3 |};
               currentToken := mkToken EOF None |}).
Proof.
  rewrite (proj1 C3_implicit_multiplication 2
             {| lexer := {| rest := " 3"; lexCursor := 1 |};
                currentToken := mkToken NUMBER (Some "2") |}
             (ValueExpr (Some "2"))
             {| lexer := {| rest := ""; lexCursor := 3 |};
                currentToken := mkToken NUMBER (Some "3") |}
             eq_refl eq_refl).
  reflexivity.
Defined.

(** ** C4: statements run in order, the result is the value of [out] *)

Lemma Calc_visitRefExpr_bound {host : MathHost} fuel id v x :
  Calc.scope v !! to_string (value id) = Some (Some x) ->
  Calc.accept fuel (RefExpr id) v = Normal (Calc.push x v).
Proof.
  intros B. cbn [Calc.accept]. unfold Calc.visitRefExpr, get_property.
  rewrite B. reflexivity.
Qed.

Lemma Calc_getOutput_held v :
  Calc.getOutput v = Normal (Calc.held (Calc.scope v !! "out")).
Proof.
  unfold Calc.getOutput, get_property.
  destruct (Calc.scope v !! "out"); reflexivity.
Qed.

(** An assignment binds its name; a reference reads the binding, at once and
    behind statements that do not assign the name. *)
Lemma Calc_assign_then_reference {host : MathHost} fuel id e v x :
  to_string (value id) <> "__proto__" ->
  Calc.accept fuel e v = Normal (Calc.push x v) ->
  exists v',
    Calc.accept fuel (AssignExpr id e) v = Normal v'
    /\ Calc.scope v' !! to_string (value id) = Some (Some x)
    /\ Calc.stack v' = Calc.stack v
    /\ Calc.accept fuel (RefExpr id) v' = Normal (Calc.push x v')
    /\ forall later v'',
        forallb is_statement later = true ->
        assigns (to_string (value id)) later = false ->
        Calc.accept fuel (StatementListExpr later) v' = Normal v'' ->
        Calc.accept fuel (RefExpr id) v'' = Normal (Calc.push x v'').
Proof.
  intros N A. eexists. split; [|split; [|split; [|split]]].
  - cbn [Calc.accept]. unfold Calc.visitAssignExpr. rewrite A. reflexivity.
  - cbn. apply set_property_same. exact N.
  - reflexivity.
  - apply Calc_visitRefExpr_bound. cbn. apply set_property_same. exact N.
  - intros later v'' W NA R. cbn [Calc.accept] in R.
    destruct (Calc_statements_frame fuel later W _ _ R) as (_ & _ & F).
    apply Calc_visitRefExpr_bound. rewrite (F _ NA). cbn.
    apply set_property_same. exact N.
Qed.

(** C4.  The calculator visits the statements of a program from left to
    right, each on the state the one before left.  An assignment binds its
    name to the value of its right-hand side; a later reference to the name
    reads that value, also behind further statements that do not assign it.
    The result accessor returns what [out] is bound to: 7 after
    [x = 2; y = x * 3; out = y + 1], which also leaves x = 2 and y = 6.  The
    accessor never fails, and after a parsed program with no assignment to
    [out] it returns [undefined]. *)
Theorem C4_statements_in_order_and_out :
  (forall (host : MathHost) fuel s statements v,
      Calc.accept fuel (StatementListExpr (s :: statements)) v
      = (v' ← Calc.accept fuel s v;
         Calc.accept fuel (StatementListExpr statements) v'))
  /\ (forall (host : MathHost) fuel id e v x,
         to_string (value id) <> "__proto__" ->
         Calc.accept fuel e v = Normal (Calc.push x v) ->
         exists v',
           Calc.accept fuel (AssignExpr id e) v = Normal v'
           /\ Calc.accept fuel (RefExpr id) v' = Normal (Calc.push x v')
           /\ forall later v'',
               forallb is_statement later = true ->
               assigns (to_string (value id)) later = false ->
               Calc.accept fuel (StatementListExpr later) v' = Normal v'' ->
               Calc.accept fuel (RefExpr id) v''
               = Normal (Calc.push x v''))
  /\ (forall v,
         Calc.getOutput v = Normal (Calc.held (Calc.scope v !! "out")))
  /\ (forall (host : MathHost) fuel,
         exists v,
           calculate fuel "x = 2; y = x * 3; out = y + 1" = Normal v
           /\ Calc.scope v !! "x" = Some (Some (of_Z 2))
           /\ Calc.scope v !! "y" = Some (Some (of_Z 6))
           /\ Calc.getOutput v = Normal (Some (of_Z 7)))
  /\ (forall (host : MathHost) fuel p root v,
         parse p = Normal root ->
         assigns "out" (statements_of root) = false ->
         Calc.accept fuel root Calc.new = Normal v ->
         Calc.getOutput v = Normal None)
  /\ (forall (host : MathHost) fuel,
         result_of fuel "x = 2" = Normal None).
Proof.
  split; [|split; [|split; [|split; [|split]]]].
  - reflexivity.
  - intros host fuel id e v x N A.
    destruct (Calc_assign_then_reference fuel id e v x N A)
      as (v' & A' & _ & _ & R & L).
    exists v'. auto.
  - exact Calc_getOutput_held.
  - intros host fuel. eexists. split; [vm_compute; reflexivity|].
    repeat split; vm_compute; reflexivity.
  - intros host fuel p root v P NA A.
    pose proof (parse_builds_program _ _ P) as W.
    destruct root as [| | | | | |l]; try discriminate.
    cbn [is_program statements_of] in *. cbn [Calc.accept] in A.
    destruct (Calc_statements_frame fuel l W _ _ A) as (_ & _ & F).
    rewrite Calc_getOutput_held, (F _ NA). reflexivity.
  - intros host fuel. vm_compute. reflexivity.
Qed.

(** [x = 2] on a fresh visitor, then a reference to [x]. *)
Lemma C4_statements_in_order_and_out_witness :
  exists v',
    Calc.accept (host := plain_host) 0
      (AssignExpr (mkToken ID (Some "x")) (ValueExpr (Some "2"))) Calc.new
    = Normal v'
    /\ Calc.accept (host := plain_host) 0 (RefExpr (mkToken ID (Some "x"))) v'
       = Normal (Calc.push (of_Z 2) v').
Proof.
  destruct (proj1 (proj2 C4_statements_in_order_and_out) plain_host 0
              (mkToken ID (Some "x")) (ValueExpr (Some "2")) Calc.new
              (of_Z 2) ltac:(discriminate) eq_refl)
    as (v' & A & R & _).
  exists v'. split; assumption.
Defined.

(** ** C5: references to names that are not bound *)

(** For a name that no member of [Object.prototype] carries, the two
    visitors differ as the specification says: the calculator throws, the
    printer writes the name. *)
Lemma RefExpr_unbound_ordinary_name {host : MathHost} fuel tok v pv :
  to_string (value tok) ∉ Object_prototype_keys ->
  Calc.held (Calc.scope v !! to_string (value tok)) = None ->
  Print.constTable !! to_string (value tok) = None ->
  Calc.accept fuel (RefExpr tok) v
  = Throw (UndefinedSymbol (to_string (value tok)))
  /\ Print.accept (RefExpr tok) pv
     = Normal (Print.push (to_string (value tok)) pv).
Proof.
  intros NP U C. cbn [Calc.accept Print.accept].
  unfold Calc.visitRefExpr, Print.visitRefExpr, get_property.
  rewrite C. rewrite (bool_decide_eq_false_2 _ NP).
  split; [|reflexivity].
  destruct (Calc.scope v !! to_string (value tok)) as [o|]; cbn in U |- *.
  - rewrite U. reflexivity.
  - reflexivity.
Qed.

(** C5 at the identifier [toString].  It is bound in neither table, yet the
    lookups [scope['toString']] and [constTable['toString']] find the
    function inherited from [Object.prototype], which is not [undefined]:
    the calculator throws no undefined-symbol error and goes on with the
    function as a value, and the printer does not take the branch that
    writes the identifier's text. *)
Theorem C5_inherited_name_is_not_undefined :
  Calc.scope Calc.new !! "toString" = None
  /\ Print.constTable !! "toString" = None
  /\ (forall (host : MathHost) fuel,
         Calc.accept fuel (RefExpr (mkToken ID (Some "toString"))) Calc.new
         = Beyond (InheritedMember "toString"))
  /\ Print.accept (RefExpr (mkToken ID (Some "toString"))) Print.new
     = Beyond (InheritedMember "toString")
  /\ (forall (host : MathHost) fuel,
         calculate fuel "out = toString"
         = Beyond (InheritedMember "toString"))
  /\ print "out = toString" = Beyond (InheritedMember "toString").
Proof.
  split; [|split; [|split; [|split; [|split]]]];
    try intros host fuel; vm_compute; reflexivity.
Qed.

(** ** C6: parentheses around the right operand of a binary node *)

(** Under [*], the claim's rule puts the right operand [3 ^ 4] in
    parentheses; the printer leaves it bare. *)
Lemma C6_power_operand_is_bare :
  spec_right_bare MULT
    (BinaryExpr (ValueExpr (Some "3")) POW (ValueExpr (Some "4"))) = false
  /\ Print.right_bare MULT
       (BinaryExpr (ValueExpr (Some "3")) POW (ValueExpr (Some "4"))) = true
  /\ print "out = 2 * 3 ^ 4" = Normal "out = 2 &times; 3<sup>4</sup><br>".
Proof. repeat split; vm_compute; reflexivity. Qed.

(** C6, amended.  The printer leaves the right operand of a binary node
    bare exactly when the operand is a literal, a factorial or a reference,
    or the parent's operator is POW, or the operand is a binary node whose
    operator is DIVI, the parent's operator or POW; in every other case
    it wraps it in parentheses. *)
Theorem C6_right_operand_parentheses :
  (forall token right,
      Print.right_bare token right
      = spec_right_bare token right || Print.token_is right POW)
  /\ (forall left token right v,
         Print.accept (BinaryExpr left token right) v
         = (v ← Print.accept left v;
            let '(x, v) := Print.pop v in
            let l := if Print.left_bare left token
                     then x else Print.paren x in
            v ← Print.accept right v;
            let '(y, v) := Print.pop v in
            let r := if spec_right_bare token right
                        || Print.token_is right POW
                     then y else Print.paren y in
            s ← Print.resolve token l r;
            Normal (Print.note_output (Print.push s v))))
  /\ print "out = 3*(1+2)" = Normal "out = 3 &times; (1 &plus; 2)<br>"
  /\ print "out = 2^3^4" = Normal "out = 2<sup>3<sup>4</sup></sup><br>".
Proof.
  assert (R : forall token right,
             Print.right_bare token right
             = spec_right_bare token right || Print.token_is right POW).
  { intros token right. unfold Print.right_bare, spec_right_bare.
    destruct (Print.is_ValueExpr right), (Print.is_FactorialExpr right),
      (Print.is_RefExpr right), (bool_decide (token = POW)),
      (Print.is_BinaryExpr right), (Print.token_is right DIVI),
      (Print.token_is right token), (Print.token_is right POW);
      reflexivity. }
  split; [exact R|split; [|split; vm_compute; reflexivity]].
  intros left token right v. cbn [Print.accept].
  unfold Print.visitBinaryExpr. rewrite R. reflexivity.
Qed.

(** ** C7: parentheses around the operand of unary and factorial nodes *)

(** What the two methods test: a factorial node follows the rule of the
    specification, a unary node leaves out the references. *)
Lemma Print_operand_rules :
  (forall operand v,
      Print.accept (FactorialExpr operand) v
      = (v ← Print.accept operand v;
         let '(x, v) := Print.pop v in
         Normal (Print.note_output
                   (Print.push (if spec_operand_bare operand
                                then "!" +:+ x
                                else "!" +:+ Print.paren x) v))))
  /\ (forall opToken operand v,
         Print.accept (UnaryExpr opToken operand) v
         = (v ← Print.accept operand v;
            let '(x, v) := Print.pop v in
            let sign := match opToken with MINUS => "&minus;" | _ => "" end in
            Normal (Print.note_output
                      (Print.push
                         (if spec_operand_bare operand
                             && negb (Print.is_RefExpr operand)
                          then sign +:+ x
                          else sign +:+ Print.paren x) v)))).
Proof.
  split.
  - intros operand v. cbn [Print.accept]. unfold Print.visitFactorialExpr.
    destruct (Print.accept operand v) as [v1| | |]; try reflexivity.
    cbn [mbind Outcome_bind]. destruct (Print.pop v1) as [x v2].
    unfold spec_operand_bare.
    destruct (Print.is_ValueExpr operand), (Print.is_FactorialExpr operand),
      (Print.is_RefExpr operand); reflexivity.
  - intros opToken operand v. cbn [Print.accept].
    unfold Print.visitUnaryExpr.
    destruct (Print.accept operand v) as [v1| | |]; try reflexivity.
    cbn [mbind Outcome_bind]. destruct (Print.pop v1) as [x v2].
    unfold spec_operand_bare.
    destruct operand; reflexivity.
Qed.

(** C7 at the program [out = -pi].  The operand of the unary node is a
    reference, which the claim leaves bare; [visitUnaryExpr] tests for a
    literal and a factorial only and wraps the reference in parentheses,
    where [visitFactorialExpr] on [out = !pi] leaves it bare. *)
Theorem C7_unary_reference_is_wrapped :
  spec_operand_bare (RefExpr (mkToken ID (Some "pi"))) = true
  /\ print "out = -pi" = Normal "out = &minus;(&pi;)<br>"
  /\ print "out = -x" = Normal "out = &minus;(x)<br>"
  /\ print "out = !pi" = Normal "out = !&pi;<br>".
Proof. repeat split; vm_compute; reflexivity. Qed.

(** ** C8: white space and line ends *)

(** The path of [nextToken] that starts on a line feed reports it. *)
Lemma nextToken_at_newline r n :
  nextToken {| rest := String LF r; lexCursor := n |}
  = Normal (mkToken EOL (Some newline), {| rest := r; lexCursor := S n |}).
Proof. reflexivity. Qed.

(** C8 at the text of a space and a line feed.  The claim has the run of
    white space end in front of the line feed, and the line feed reported
    as an end-of-line token.  [readWhiteSpace] tests with [\s], which
    matches the line feed too: the line feed is consumed with the space, and
    the next token is what follows it. *)
Theorem C8_newline_behind_space_is_consumed :
  isWhiteSpace (Some LF) = true
  /\ readWhiteSpace (newLexer (" " +:+ newline +:+ "y"))
     = (" " +:+ newline, {| rest := "y"; lexCursor := 2 |})
  /\ nextToken (newLexer (" " +:+ newline))
     = Normal (mkToken EOF None, {| rest := ""; lexCursor := 2 |})
  /\ nextToken (newLexer (" " +:+ newline +:+ "y"))
     = Normal (mkToken ID (Some "y"), {| rest := ""; lexCursor := 3 |})
  /\ nextToken (newLexer (newline +:+ "y"))
     = Normal (mkToken EOL (Some newline), {| rest := "y"; lexCursor := 1 |}).
Proof. repeat split; vm_compute; reflexivity. Qed.

(** ** C9: the constants can be assigned *)

Lemma nextToken_body_letter self c r n :
  is_letter c = true ->
  nextToken_body self {| rest := String c r; lexCursor := n |}
  = (let '(id, l') :=
       readAlphaNumeric {| rest := String c r; lexCursor := n |} in
     let low := toLowerCase id in
     if String.eqb low "e" then Normal (mkToken ID (Some "e"), l')
     else if String.eqb low "pi" then Normal (mkToken ID (Some "pi"), l')
     else Normal (mkToken ID (Some id), l')).
Proof.
  intros L. destruct c as [[] [] [] [] [] [] [] []];
    try discriminate L; reflexivity.
Qed.

Lemma letter_is_no_case_space c :
  is_letter c = true -> is_case_space c = false.
Proof.
  intros L. destruct c as [[] [] [] [] [] [] [] []];
    try discriminate L; reflexivity.
Qed.

Lemma append_empty text : "" +:+ text = text.
Proof. reflexivity. Qed.

Lemma append_String c s text : String c s +:+ text = String c (s +:+ text).
Proof. reflexivity. Qed.

Lemma read_from_letters id text :
  all_chars is_letter id = true ->
  match text with
  | String c _ => is_letter c = false
  | EmptyString => True
  end ->
  read_from isAlphaNumeric (id +:+ text) = (id, text).
Proof.
  intros A B. induction id as [|c id IH].
  - rewrite append_empty. destruct text as [|c r]; [reflexivity|].
    cbn [read_from isAlphaNumeric]. rewrite B. reflexivity.
  - cbn [all_chars] in A. apply andb_true_iff in A as [Ac A].
    rewrite append_String. cbn [read_from isAlphaNumeric].
    rewrite Ac, (IH A). reflexivity.
Qed.

(** The token of an identifier: [e] and [pi] in any case are lowered, every
    other name is kept as written. *)
Lemma nextToken_identifier id text n :
  id <> "" -> all_chars is_letter id = true ->
  match text with
  | String c _ => is_letter c = false
  | EmptyString => True
  end ->
  nextToken {| rest := id +:+ text; lexCursor := n |}
  = Normal (mkToken ID (Some (lexed_name id)),
            {| rest := text; lexCursor := n + String.length id |}).
Proof.
  intros NE A B. destruct id as [|c id]; [contradiction|].
  pose proof A as A'. cbn in A'. apply andb_true_iff in A' as [Ac _].
  rewrite nextToken_unfold, append_String. cbn [currentChar rest].
  rewrite (letter_is_no_case_space c Ac).
  rewrite nextToken_body_letter by exact Ac.
  unfold readAlphaNumeric, read. cbn [rest lexCursor].
  change (String c (id +:+ text)) with (String c id +:+ text).
  rewrite (read_from_letters _ _ A B). unfold lexed_name.
  destruct (String.eqb (toLowerCase (String c id)) "e"); [reflexivity|].
  destruct (String.eqb (toLowerCase (String c id)) "pi"); reflexivity.
Qed.

(** C9.  A name that is [pi] or [e] when lowered is lexed to the token
    value [pi] or [e].  The calculator accepts an assignment to such a token
    like any other: it overwrites the binding, the seeded constant
    included, and every later reference to the name in the program reads
    the assigned value until the name is assigned again.  So
    [pi = 5; out = pi] and [PI = 5; out = pi] bind [out] to 5. *)
Theorem C9_constants_are_assignable :
  (forall id text n,
      id <> "" -> all_chars is_letter id = true ->
      match text with
      | String c _ => is_letter c = false
      | EmptyString => True
      end ->
      toLowerCase id ∈ ["pi"; "e"] ->
      nextToken {| rest := id +:+ text; lexCursor := n |}
      = Normal (mkToken ID (Some (toLowerCase id)),
                {| rest := text; lexCursor := n + String.length id |}))
  /\ Calc.scope Calc.new !! "pi" = Some (Some Math_PI)
  /\ Calc.scope Calc.new !! "e" = Some (Some Math_E)
  /\ (forall (host : MathHost) fuel name e v x,
         name ∈ ["pi"; "e"] ->
         Calc.accept fuel e v = Normal (Calc.push x v) ->
         exists v',
           Calc.accept fuel (AssignExpr (mkToken ID (Some name)) e) v
           = Normal v'
           /\ Calc.scope v' !! name = Some (Some x)
           /\ Calc.accept fuel (RefExpr (mkToken ID (Some name))) v'
              = Normal (Calc.push x v')
           /\ forall later v'',
               forallb is_statement later = true ->
               assigns name later = false ->
               Calc.accept fuel (StatementListExpr later) v' = Normal v'' ->
               Calc.accept fuel (RefExpr (mkToken ID (Some name))) v''
               = Normal (Calc.push x v''))
  /\ (forall (host : MathHost) fuel,
         result_of fuel "pi = 5; out = pi" = Normal (Some (of_Z 5)))
  /\ (forall (host : MathHost) fuel,
         result_of fuel "PI = 5; out = pi" = Normal (Some (of_Z 5))).
Proof.
  split; [|split; [|split; [|split; [|split]]]].
  - intros id text n NE A B I.
    rewrite (nextToken_identifier id text n NE A B). unfold lexed_name.
    repeat (apply elem_of_cons in I as [->|I]); [..|inversion I];
      reflexivity.
  - vm_compute. reflexivity.
  - vm_compute. reflexivity.
  - intros host fuel name e v x I A.
    assert (N : to_string (value (mkToken ID (Some name))) <> "__proto__").
    { cbn. repeat (apply elem_of_cons in I as [->|I]); [..|inversion I];
        discriminate. }
    destruct (Calc_assign_then_reference fuel _ e v x N A)
      as (v' & A' & S' & _ & R & L).
    exists v'. auto.
  - intros host fuel. vm_compute. reflexivity.
  - intros host fuel. vm_compute. reflexivity.
Qed.

(** [Pi] in front of [ = 5]. *)
Lemma C9_constants_are_assignable_witness :
  nextToken {| rest := "Pi = 5"; lexCursor := 0 |}
  = Normal (mkToken ID (Some "pi"), {| rest := " = 5"; lexCursor := 2 |}).
Proof.
  refine (proj1 C9_constants_are_assignable "Pi" " = 5" 0 _ _ _ _).
  - discriminate.
  - reflexivity.
  - reflexivity.
  - repeat constructor.
Defined.

(** ** C10: the stack of the calculator is balanced *)

(** C10.  A completed visit of an expression tree leaves the stack one
    number higher, with what was below untouched; a completed visit of an
    assignment of an expression tree leaves the stack as it was; so the stack
    is empty after the calculator, started on its empty stack, has visited
    the root of a parsed program. *)
Theorem C10_stack_is_balanced :
  (forall (host : MathHost) fuel e v v',
      is_expr e = true ->
      Calc.accept fuel e v = Normal v' ->
      length (Calc.stack v') = S (length (Calc.stack v))
      /\ exists x, Calc.stack v' = x :: Calc.stack v)
  /\ (forall (host : MathHost) fuel id e v v',
         is_expr e = true ->
         Calc.accept fuel (AssignExpr id e) v = Normal v' ->
         Calc.stack v' = Calc.stack v)
  /\ (forall (host : MathHost) fuel p root v v',
         parse p = Normal root ->
         Calc.accept fuel root v = Normal v' ->
         Calc.stack v' = Calc.stack v)
  /\ (forall (host : MathHost) fuel p root v',
         parse p = Normal root ->
         Calc.accept fuel root Calc.new = Normal v' ->
         Calc.stack v' = []).
Proof.
  split; [|split; [|split]].
  - intros host fuel e v v' W A.
    destruct (Calc_accept_expr fuel e W v v' A) as [x ->].
    split; [reflexivity|]. exists x. reflexivity.
  - intros host fuel id e v v' W A.
    destruct (Calc_accept_statement fuel (AssignExpr id e) v v' W A)
      as (id' & e' & x & _ & _ & ->).
    reflexivity.
  - intros host fuel p root v v' P A.
    eapply Calc_accept_program; [|exact A].
    eapply parse_builds_program. exact P.
  - intros host fuel p root v' P A.
    change [] with (Calc.stack Calc.new).
    eapply Calc_accept_program; [|exact A].
    eapply parse_builds_program. exact P.
Qed.

(** The expression [1 + 2] on a stack of one number. *)
Lemma C10_stack_is_balanced_witness :
  length (Calc.stack
            {| Calc.scope := Calc.scope Calc.new;
               Calc.stack := [of_Z 3; of_Z 7];
               Calc.output := S754_zero false |}) = 2.
Proof.
  exact (proj1 (proj1 C10_stack_is_balanced plain_host 0
                  (BinaryExpr (ValueExpr (Some "1")) PLUS
                     (ValueExpr (Some "2")))
                  {| Calc.scope := Calc.scope Calc.new;
                     Calc.stack := [of_Z 7];
                     Calc.output := S754_zero false |}
                  {| Calc.scope := Calc.scope Calc.new;
                     Calc.stack := [of_Z 3; of_Z 7];
                     Calc.output := S754_zero false |}
                  eq_refl eq_refl)).
Defined.

(** * Further properties *)

(** ** The lexer on its input *)

Lemma length_append a b :
  String.length (a +:+ b) = String.length a + String.length b.
Proof.
  induction a as [|c a IH]; [reflexivity|].
  rewrite append_String. cbn [String.length]. rewrite IH. reflexivity.
Qed.

Lemma append_assoc a b c : (a +:+ b) +:+ c = a +:+ (b +:+ c).
Proof.
  induction a as [|x a IH]; [reflexivity|].
  rewrite !append_String, IH. reflexivity.
Qed.

Lemma get_behind a c r :
  String.get (String.length a) (a +:+ String c r) = Some c.
Proof. induction a as [|x a IH]; [reflexivity|exact IH]. Qed.

Lemma read_from_append pred s tok s' :
  read_from pred s = (tok, s') -> s = tok +:+ s'.
Proof.
  revert tok s'. induction s as [|c r IH]; intros tok s' E;
    cbn [read_from] in E.
  - inversion E; reflexivity.
  - destruct (pred (Some c)).
    + destruct (read_from pred r) as [t0 s0] eqn:R. inversion E; subst.
      rewrite append_String, <- (IH _ _ eq_refl). reflexivity.
    + inversion E; subst. reflexivity.
Qed.

Lemma read_from_all pred s tok s' :
  read_from pred s = (tok, s') ->
  all_chars (fun c => pred (Some c)) tok = true.
Proof.
  revert tok s'. induction s as [|c r IH]; intros tok s' E;
    cbn [read_from] in E.
  - inversion E; reflexivity.
  - destruct (pred (Some c)) eqn:P.
    + destruct (read_from pred r) as [t0 s0] eqn:R. inversion E; subst.
      cbn [all_chars]. rewrite P, (IH _ _ eq_refl). reflexivity.
    + inversion E; subst. reflexivity.
Qed.

Lemma reads_step input l tok r n :
  rest l = tok +:+ r -> n = lexCursor l + String.length tok ->
  reads input l -> reads input {| rest := r; lexCursor := n |}.
Proof.
  intros E -> (consumed & I & L). exists (consumed +:+ tok).
  cbn [rest lexCursor]. split.
  - rewrite append_assoc, <- E. exact I.
  - rewrite length_append, L. reflexivity.
Qed.

Lemma reads_current input l c :
  reads input l -> currentChar l = Some c ->
  String.get (lexCursor l) input = Some c.
Proof.
  intros (consumed & I & L) C. unfold currentChar in C.
  destruct (rest l) as [|x r] eqn:R; inversion C; subst.
  rewrite <- L. apply get_behind.
Qed.

(** One pass of the switch, from a character that is no white space label:
    the token is well formed and longest, the lexer stays on its input, and
    the one error names the character at the cursor. *)
Lemma nextToken_body_lexed input l :
  match currentChar l with
  | Some c => is_case_space c = false
  | None => True
  end ->
  reads input l ->
  parse_outcome input (lexed input) (nextToken_body (fun _ => OutOfFuel) l).
Proof.
  intros W R. pose proof (reads_current input l) as G.
  assert (step1 : forall c r t v,
             rest l = String c r -> token_wf (mkToken t v) = true ->
             t <> EOF -> t <> NUMBER -> t <> ID ->
             lexed input (mkToken t v,
                          {| rest := r; lexCursor := S (lexCursor l) |})).
  { intros c r t v E T N1 N2 N3. split; [|split; [|split]].
    - apply (reads_step input l (String c "") r); [exact E| |exact R].
      cbn. lia.
    - exact T.
    - intros Q. contradiction.
    - unfold munched. cbn [fst type]. destruct t; try exact I; contradiction. }
  unfold nextToken_body, single, advance, readNumber, readAlphaNumeric, read
    in *.
  unfold currentChar in *. destruct l as [s n]; cbn [rest lexCursor] in *.
  destruct s as [|c r].
  - cbn. split; [exact R|]. repeat split. 
  - rewrite W.
    destruct (Ascii.eqb c "010");
      [apply (step1 c r); [reflexivity|reflexivity|discriminate..]|].
    destruct (Ascii.eqb c ";");
      [apply (step1 c r); [reflexivity|reflexivity|discriminate..]|].
    destruct (is_digit c || Ascii.eqb c ".") eqn:D.
    { destruct (read_from_first isNumber c r) as (tok & s' & R1 & R2);
        [exact D|].
      rewrite R1. cbn [parse_outcome].
      pose proof (read_from_append _ _ _ _ R1) as A.
      pose proof (read_from_all _ _ _ _ R1) as B.
      pose proof (read_from_stops _ _ _ _ R1) as S.
      split; [|split; [|split]]; cbn [fst snd].
      - apply (reads_step input {| rest := String c r; lexCursor := n |}
                 (String c tok) s' _ A eq_refl R).
      - unfold token_wf. cbn [type value]. 
        change (all_chars is_numchar (String c tok)) with
          (all_chars (fun c => isNumber (Some c)) (String c tok)).
        rewrite B. reflexivity.
      - discriminate.
      - unfold munched, currentChar. cbn [type rest].
        destruct s'; [reflexivity|exact S]. }
    repeat (match goal with
            | |- context [if Ascii.eqb c ?x then _ else _] =>
                destruct (Ascii.eqb c x);
                [apply (step1 c r); [reflexivity|reflexivity|discriminate..]|]
            end).
    destruct (isAlphaNumeric (Some c)) eqn:D'.
    2:{ cbn. apply (G c R eq_refl). }
    destruct (read_from_first isAlphaNumeric c r) as (tok & s' & R1 & R2);
      [exact D'|].
    rewrite R1.
    pose proof (read_from_append _ _ _ _ R1) as A.
    pose proof (read_from_all _ _ _ _ R1) as B.
    pose proof (read_from_stops _ _ _ _ R1) as S.
    assert (M : forall v, token_wf (mkToken ID (Some v)) = true ->
                lexed input
                  (mkToken ID (Some v),
                   {| rest := s';
                      lexCursor := n + String.length (String c tok) |})).
    { intros v T. split; [|split; [|split]]; cbn [fst snd].
      - apply (reads_step input {| rest := String c r; lexCursor := n |}
                 (String c tok) s' _ A eq_refl R).
      - exact T.
      - discriminate.
      - unfold munched, currentChar. cbn [type rest].
        destruct s'; [reflexivity|exact S]. }
    destruct (String.eqb (toLowerCase (String c tok)) "e");
      [apply M; reflexivity|].
    destruct (String.eqb (toLowerCase (String c tok)) "pi");
      [apply M; reflexivity|].
    apply M. unfold token_wf. cbn [type value].
    change (all_chars is_letter (String c tok)) with
      (all_chars (fun c => isAlphaNumeric (Some c)) (String c tok)).
    rewrite B. reflexivity.
Qed.

Lemma readWhiteSpace_reads input l :
  reads input l -> reads input (snd (readWhiteSpace l)).
Proof.
  intros R. unfold readWhiteSpace, read.
  destruct (read_from isWhiteSpace (rest l)) as [tok s'] eqn:E. cbn [snd].
  apply (reads_step input l tok s' _ (read_from_append _ _ _ _ E) eq_refl R).
Qed.

Lemma nextToken_lexed input l :
  reads input l -> parse_outcome input (lexed input) (nextToken l).
Proof.
  intros R. rewrite nextToken_unfold.
  destruct (currentChar l) as [c|] eqn:C.
  - destruct (is_case_space c) eqn:W.
    + apply nextToken_body_lexed.
      * apply after_readWhiteSpace.
      * apply readWhiteSpace_reads, R.
    + apply nextToken_body_lexed; [rewrite C; exact W|exact R].
  - cbn. split; [exact R|]. split; [reflexivity|]. split; [|exact I].
    intros _. cbn [snd]. unfold currentChar in C.
    destruct (rest l); [reflexivity|discriminate].
Qed.

(** ** The parser on its input *)

Lemma parse_outcome_bind {A B} input (Q : A -> Prop) (R : B -> Prop)
  (m : Outcome A) (k : A -> Outcome B) :
  parse_outcome input Q m ->
  (forall a, Q a -> parse_outcome input R (k a)) ->
  parse_outcome input R (m ≫= k).
Proof. destruct m; cbn; auto. Qed.

Lemma parse_outcome_weaken {A} input (Q R : A -> Prop) (m : Outcome A) :
  parse_outcome input Q m -> (forall a, Q a -> R a) ->
  parse_outcome input R m.
Proof. destruct m; cbn; auto. Qed.

Lemma eat_parses input tokenType p :
  parses input p ->
  parse_outcome input
    (fun p' => parses input p' /\ type (currentToken p) = tokenType)
    (eat tokenType p).
Proof.
  intros (R & _ & _). unfold eat.
  destruct (decide (type (currentToken p) = tokenType)) as [E|]; [|exact I].
  apply (parse_outcome_bind input (lexed input)).
  - apply nextToken_lexed, R.
  - intros [t l] (R' & T & F & _). cbn. repeat split; assumption.
Qed.

Lemma newParser_parses input :
  parse_outcome input (parses input) (newParser input).
Proof.
  unfold newParser. apply (parse_outcome_bind input (lexed input)).
  - apply nextToken_lexed. exists "". split; reflexivity.
  - intros [t l] (R' & T & F & _). cbn. repeat split; assumption.
Qed.

Lemma current_is_elem p ts :
  current_is p ts = true -> bool_decide (type (currentToken p) ∈ ts) = true.
Proof. exact (fun H => H). Qed.

Lemma parser_produces input fuel :
  forall p,
    parses input p ->
    parse_outcome input (produced input) (expr fuel p)
    /\ parse_outcome input (produced input) (term fuel p)
    /\ parse_outcome input (produced input) (factor fuel p)
    /\ parse_outcome input (produced input) (closure fuel p).
Proof.
  induction fuel as [|fuel IH]; intros p P.
  { repeat split. }
  assert (IHe : forall p, parses input p ->
                 parse_outcome input (produced input) (expr fuel p))
    by (intros q Hq; apply (IH q Hq)).
  assert (IHt : forall p, parses input p ->
                 parse_outcome input (produced input) (term fuel p))
    by (intros q Hq; apply (IH q Hq)).
  assert (IHf : forall p, parses input p ->
                 parse_outcome input (produced input) (factor fuel p))
    by (intros q Hq; apply (IH q Hq)).
  assert (IHc : forall p, parses input p ->
                 parse_outcome input (produced input) (closure fuel p))
    by (intros q Hq; apply (IH q Hq)).
  clear IH.
  assert (binary : forall a p1 (k : nat -> Parser -> Outcome (AST * Parser)),
             (forall p, parses input p ->
                        parse_outcome input (produced input) (k fuel p)) ->
             wf_expr a = true -> parses input p1 ->
             bool_decide (type (currentToken p1)
                            ∈ [PLUS; MINUS; MULT; DIVI; POW]) = true ->
             parse_outcome input (produced input)
               (p2 ← eat (type (currentToken p1)) p1;
                '(rTerm, p3) ← k fuel p2;
                Normal (BinaryExpr a (type (currentToken p1)) rTerm, p3))).
  { intros a p1 k Hk Wa P1 I.
    apply (parse_outcome_bind input _ _ _ _ (eat_parses input _ p1 P1)).
    intros p2 [P2 _].
    apply (parse_outcome_bind input _ _ _ _ (Hk p2 P2)).
    intros [b p3] [P3 Wb]. split; [exact P3|].
    cbn [fst wf_expr] in *. rewrite I, Wa, Wb. reflexivity. }
  split; [|split; [|split]].
  - rewrite expr_S.
    apply (parse_outcome_bind input _ _ _ _ (IHt p P)).
    intros [a p1] [P1 Wa]. cbn [fst snd] in *.
    destruct (current_is p1 [PLUS; MINUS]) eqn:C.
    + cbn zeta. apply (binary a p1 expr IHe Wa P1).
      unfold current_is in C. destruct (type (currentToken p1));
        try discriminate; reflexivity.
    + split; assumption.
  - rewrite term_S.
    apply (parse_outcome_bind input _ _ _ _ (IHf p P)).
    intros [a p1] [P1 Wa]. cbn [fst snd] in *.
    destruct (current_is p1 [NUMBER]) eqn:C.
    + apply (parse_outcome_bind input _ _ _ _ (IHt p1 P1)).
      intros [b p3] [P3 Wb]. split; [exact P3|].
      cbn [fst wf_expr] in *. rewrite Wa, Wb. reflexivity.
    + destruct (current_is p1 [MULT; DIVI; POW]) eqn:C'.
      * cbn zeta. apply (binary a p1 term IHt Wa P1).
        unfold current_is in C'. destruct (type (currentToken p1));
          try discriminate; reflexivity.
      * split; assumption.
  - rewrite factor_S.
    destruct (current_is p [PLUS; MINUS]) eqn:C1.
    { cbn zeta.
      apply (parse_outcome_bind input _ _ _ _ (eat_parses input _ p P)).
      intros p2 [P2 _].
      apply (parse_outcome_bind input _ _ _ _ (IHf p2 P2)).
      intros [b p3] [P3 Wb]. split; [exact P3|].
      cbn [fst wf_expr] in *. rewrite (current_is_elem _ _ C1), Wb.
      reflexivity. }
    destruct (current_is p [FACTORIAL]) eqn:C2.
    { apply (parse_outcome_bind input _ _ _ _ (eat_parses input _ p P)).
      intros p2 [P2 _].
      apply (parse_outcome_bind input _ _ _ _ (IHf p2 P2)).
      intros [b p3] [P3 Wb]. split; assumption. }
    destruct (current_is p [LPAREN]) eqn:C3; [exact (IHc p P)|].
    destruct (current_is p [ID]) eqn:C4.
    { unfold const.
      apply (parse_outcome_bind input _ _ _ _ (eat_parses input _ p P)).
      intros p2 [P2 T]. split; [exact P2|].
      cbn [fst wf_expr]. destruct P as (_ & W & _).
      rewrite W. rewrite (bool_decide_eq_true_2 _ T). reflexivity. }
    cbn zeta.
    apply (parse_outcome_bind input _ _ _ _ (eat_parses input _ p P)).
    intros p2 [P2 T]. split; [exact P2|].
    cbn [fst wf_expr]. destruct P as (_ & W & _).
    unfold token_wf in W. rewrite T in W. exact W.
  - rewrite closure_S.
    apply (parse_outcome_bind input _ _ _ _ (eat_parses input _ p P)).
    intros p2 [P2 _].
    apply (parse_outcome_bind input _ _ _ _ (IHe p2 P2)).
    intros [b p3] [P3 Wb]. cbn [fst snd] in *.
    apply (parse_outcome_bind input _ _ _ _ (eat_parses input _ p3 P3)).
    intros p4 [P4 _]. split; assumption.
Qed.

Lemma declarations_loop_declares input fuel :
  forall assignList p,
    forallb wf_statement assignList = true ->
    parses input p ->
    parse_outcome input (declared input)
      (declarations_loop fuel assignList p).
Proof.
  induction fuel as [|fuel IH]; intros assignList p W P;
    cbn [declarations_loop];
    (destruct (decide (type (currentToken p) = EOF)) as [E|E];
     [repeat split; try assumption; apply P|]); [exact I|].
  apply (parse_outcome_bind input _ _ _ _ (eat_parses input _ p P)).
  intros p1 [P1 T1].
  apply (parse_outcome_bind input _ _ _ _ (eat_parses input _ p1 P1)).
  intros p2 [P2 _].
  destruct (parser_produces input fuel p2 P2) as (He & _).
  apply (parse_outcome_bind input _ _ _ _ He).
  intros [e p3] [P3 We]. cbn [fst snd] in *.
  assert (W' : forallb wf_statement
                 (assignList ++ [AssignExpr (currentToken p) e]) = true).
  { rewrite forallb_app, W. cbn. rewrite (bool_decide_eq_true_2 _ T1), We.
    destruct P as (_ & Tw & _). rewrite Tw. reflexivity. }
  destruct (current_is p3 [EOL; SEMICOLON]).
  - apply (parse_outcome_bind input _ _ _ _ (eat_parses input _ p3 P3)).
    intros p4 [P4 _]. apply IH; assumption.
  - cbn [mbind Outcome_bind]. apply IH; assumption.
Qed.

Lemma append_empty_r a : a +:+ "" = a.
Proof.
  induction a as [|c a IH]; [reflexivity|].
  rewrite append_String, IH. reflexivity.
Qed.

(** ** Lexing and parsing: what every input gets *)

Lemma parse_text_outcome input :
  parse_outcome input (fun root => wf_program root = true)
    (parse_text input).
Proof.
  unfold parse_text.
  apply (parse_outcome_bind input _ _ _ _ (newParser_parses input)).
  intros p P. unfold parse, declarations.
  apply (parse_outcome_bind input _ _ _ _
           (declarations_loop_declares input (parse_fuel p) [] p eq_refl P)).
  intros [root p'] (W & _). exact W.
Qed.

(** X1.  The parser comes to an end on every text, with a tree or with one
    of two errors: "Invalid syntax" from [eat] or "unespected char" from the
    lexer.  It never needs more recursion than its text allows, and it
    raises no other error. *)
Theorem parse_text_tree_or_error input :
  (exists root, parse_text input = Normal root)
  \/ (exists expected got,
         parse_text input = Throw (InvalidSyntax expected got))
  \/ (exists c n, parse_text input = Throw (UnexpectedChar c n)).
Proof.
  pose proof (parse_text_outcome input) as O.
  pose proof (parse_text_total input) as T.
  destruct (parse_text input) as [root|e|h|]; cbn in O.
  - left. eauto.
  - destruct e; try contradiction; [right; right|right; left]; eauto.
  - contradiction.
  - contradiction T. reflexivity.
Qed.

(** X2.  The offset in the lexer's error is the place of the character in
    the whole text, whichever statement the parser was in. *)
Theorem unexpected_char_is_at_its_offset input c n :
  parse_text input = Throw (UnexpectedChar c n) ->
  String.get n input = Some c.
Proof.
  intros E. pose proof (parse_text_outcome input) as O.
  rewrite E in O. exact O.
Qed.

Lemma unexpected_char_is_at_its_offset_witness :
  String.get 8 "x = 1; y$ = 2" = Some "$"%char.
Proof.
  exact (unexpected_char_is_at_its_offset "x = 1; y$ = 2" "$" 8 eq_refl).
Defined.

(** X3.  Every tree the parser returns is a list of assignments to
    identifier tokens; their right-hand sides are made of the five
    expression nodes, with a sign [+] or [-] in every unary node, one of
    [+ - * / ^] in every binary node, an identifier token of letters in every
    reference and a run of digits and dots in every literal. *)
Theorem parsed_tree_is_well_formed input root :
  parse_text input = Normal root -> wf_program root = true.
Proof.
  intros E. pose proof (parse_text_outcome input) as O.
  rewrite E in O. exact O.
Qed.

Lemma parsed_tree_is_well_formed_witness :
  wf_program
    (StatementListExpr
       [AssignExpr (mkToken ID (Some "x"))
          (BinaryExpr (UnaryExpr MINUS (ValueExpr (Some "1.5"))) POW
             (RefExpr (mkToken ID (Some "pi"))))]) = true.
Proof.
  exact (parsed_tree_is_well_formed "x = -1.5 ^ PI" _ eq_refl).
Defined.

(** X4.  [declarations] returns only at the EOF token, and the lexer makes
    that token only at the end of the text: a parse that succeeds has read
    the whole input, nothing behind the last statement is left unread. *)
Theorem parse_reads_the_whole_text input p root p' :
  newParser input = Normal p ->
  declarations (parse_fuel p) p = Normal (root, p') ->
  type (currentToken p') = EOF
  /\ rest (lexer p') = ""
  /\ lexCursor (lexer p') = String.length input.
Proof.
  intros N D. pose proof (newParser_parses input) as P. rewrite N in P.
  cbn in P.
  pose proof (declarations_loop_declares input (parse_fuel p) [] p eq_refl P)
    as O.
  unfold declarations in D. rewrite D in O.
  destruct O as (_ & (R & _ & F) & E). cbn [snd] in *.
  split; [exact E|]. split; [exact (F E)|].
  destruct R as (consumed & I & L). rewrite (F E), append_empty_r in I.
  subst. symmetry. exact L.
Qed.

Lemma parse_reads_the_whole_text_witness :
  lexCursor {| rest := ""; lexCursor := 9 |} = String.length "x = 1  ; ".
Proof.
  exact (proj2 (proj2
           (parse_reads_the_whole_text "x = 1  ; "
              {| lexer := {| rest := " = 1  ; "; lexCursor := 1 |};
                 currentToken := mkToken ID (Some "x") |}
              (StatementListExpr
                 [AssignExpr (mkToken ID (Some "x")) (ValueExpr (Some "1"))])
              {| lexer := {| rest := ""; lexCursor := 9 |};
                 currentToken := mkToken EOF None |}
              eq_refl eq_refl))).
Defined.

(** ** The lexer token by token *)

Lemma reads_own l : reads (padding (lexCursor l) +:+ rest l) l.
Proof.
  exists (padding (lexCursor l)). split; [reflexivity|].
  induction (lexCursor l) as [|n IH]; [reflexivity|].
  cbn. rewrite IH. reflexivity.
Qed.


Lemma nextToken_body_throws l e :
  nextToken_body (fun _ => OutOfFuel) l = Throw e ->
  exists c, e = UnexpectedChar c (lexCursor l)
            /\ is_letter c = false /\ is_numchar c = false.
Proof.
  intros E.
  unfold nextToken_body, single, readNumber, readAlphaNumeric, read in E.
  destruct (currentChar l) as [c|]; [|discriminate].
  destruct (is_case_space c); [discriminate|].
  destruct (read_from isNumber (rest l)),
    (read_from isAlphaNumeric (rest l)).
  repeat match type of E with
         | (if ?b then _ else _) = _ => destruct b eqn:?; try discriminate E
         end.
  inversion E; subst. exists c. repeat split; assumption.
Qed.


Lemma nextToken_rests_at_EOF l t l' :
  nextToken l = Normal (t, l') -> type t = EOF ->
  nextToken l' = Normal (t, l').
Proof.
  intros E F. pose proof (nextToken_lexed _ l (reads_own l)) as O.
  rewrite E in O. destruct O as (_ & _ & Z & _). cbn [fst snd] in Z.
  specialize (Z F).
  assert (t = mkToken EOF None) as ->.
  { rewrite nextToken_unfold in E.
    assert (B : forall l0, nextToken_body (fun _ => OutOfFuel) l0
                            = Normal (t, l') -> t = mkToken EOF None).
    { intros l0 E0.
      unfold nextToken_body, single, readNumber, readAlphaNumeric, read in E0.
      destruct (currentChar l0) as [c|]; [|inversion E0; reflexivity].
      destruct (is_case_space c); [discriminate|].
      destruct (read_from isNumber (rest l0)),
        (read_from isAlphaNumeric (rest l0)).
      repeat match type of E0 with
             | (if ?b then _ else _) = _ => destruct b eqn:?
             end;
        inversion E0; subst; discriminate F. }
    destruct (currentChar l) as [c|]; [|inversion E; reflexivity].
    destruct (is_case_space c); exact (B _ E). }
  rewrite nextToken_unfold. unfold currentChar. rewrite Z. reflexivity.
Qed.

(** X6.  The end of the text is a resting state: once [nextToken] has
    returned the EOF token, every further call returns it again and leaves
    the lexer as it is. *)
Theorem nextToken_EOF_is_final l t l' :
  nextToken l = Normal (t, l') -> type t = EOF ->
  nextToken l' = Normal (t, l').
Proof. exact (nextToken_rests_at_EOF l t l'). Qed.

Lemma nextToken_EOF_is_final_witness :
  nextToken {| rest := ""; lexCursor := 3 |}
  = Normal (mkToken EOF None, {| rest := ""; lexCursor := 3 |}).
Proof.
  exact (nextToken_EOF_is_final {| rest := "   "; lexCursor := 0 |}
           (mkToken EOF None) {| rest := ""; lexCursor := 3 |}
           eq_refl eq_refl).
Defined.



(** X8.  An identifier is the run of letters up to the first character that
    is no letter.  Written in any case, [e] and [pi] give the tokens [e] and
    [pi]; every other name is kept letter for letter, so names that differ
    in case only are different variables. *)
Theorem nextToken_identifier_value id text n :
  id <> "" -> all_chars is_letter id = true ->
  match text with
  | String c _ => is_letter c = false
  | EmptyString => True
  end ->
  exists name,
    nextToken {| rest := id +:+ text; lexCursor := n |}
    = Normal (mkToken ID (Some name),
              {| rest := text; lexCursor := n + String.length id |})
    /\ (toLowerCase id = "e" -> name = "e")
    /\ (toLowerCase id = "pi" -> name = "pi")
    /\ (toLowerCase id <> "e" -> toLowerCase id <> "pi" -> name = id).
Proof.
  intros NE A B. exists (lexed_name id).
  split; [exact (nextToken_identifier id text n NE A B)|].
  unfold lexed_name.
  destruct (String.eqb_spec (toLowerCase id) "e") as [E|E].
  - repeat split; congruence.
  - destruct (String.eqb_spec (toLowerCase id) "pi") as [P|P];
      repeat split; congruence.
Qed.

Lemma nextToken_identifier_value_witness :
  exists name,
    nextToken {| rest := "Rate" +:+ "2 = 1"; lexCursor := 0 |}
    = Normal (mkToken ID (Some name),
              {| rest := "2 = 1"; lexCursor := 0 + 4 |})
    /\ (toLowerCase "Rate" = "e" -> name = "e")
    /\ (toLowerCase "Rate" = "pi" -> name = "pi")
    /\ (toLowerCase "Rate" <> "e" -> toLowerCase "Rate" <> "pi" ->
        name = "Rate").
Proof.
  exact (nextToken_identifier_value "Rate" "2 = 1" 0
           ltac:(discriminate) eq_refl eq_refl).
Defined.

(** ** The calculator as a function of the tree *)

Lemma Calc_eta v :
  {| Calc.scope := Calc.scope v; Calc.stack := Calc.stack v;
     Calc.output := Calc.output v |} = v.
Proof. destruct v; reflexivity. Qed.

Lemma Calc_accept_eval {host : MathHost} fuel e :
  is_expr e = true ->
  forall v,
    Calc.accept fuel e v
    = (x ← eval fuel (Calc.scope v) e; Normal (Calc.push x v)).
Proof.
  revert e. apply (is_expr_ind (fun e => forall v,
    Calc.accept fuel e v
    = (x ← eval fuel (Calc.scope v) e; Normal (Calc.push x v)))).
  all: [> intros opToken e _ IHe | intros num | intros constToken
        | intros e _ IHe | intros e1 token e2 _ IHe1 _ IHe2 ].
  all: intros v; cbn [Calc.accept eval].
  - unfold Calc.visitUnaryExpr. rewrite IHe.
    destruct (eval fuel (Calc.scope v) e) as [x| | |]; reflexivity.
  - unfold Calc.visitValueExpr. reflexivity.
  - unfold Calc.visitRefExpr.
    destruct (get_property (Calc.scope v) (to_string (value constToken)))
      as [r| | |]; [|reflexivity..].
    cbn. destruct (Calc.held r); reflexivity.
  - unfold Calc.visitFactorialExpr. rewrite IHe.
    destruct (eval fuel (Calc.scope v) e) as [x| | |]; [|reflexivity..].
    cbn. destruct (Calc.factorial fuel x); reflexivity.
  - unfold Calc.visitBinaryExpr. rewrite IHe1.
    destruct (eval fuel (Calc.scope v) e1) as [x| | |]; [|reflexivity..].
    cbn. rewrite Calc_eta, IHe2.
    destruct (eval fuel (Calc.scope v) e2) as [y| | |]; [|reflexivity..].
    cbn. destruct (Calc.resolve token x y); reflexivity.
Qed.

Lemma Calc_statements_exec {host : MathHost} fuel statements :
  forallb is_statement statements = true ->
  forall v,
    Calc.visitStatementListExpr (Calc.accept fuel) statements v
    = (scope ← exec fuel (Calc.scope v) statements;
       Normal {| Calc.scope := scope; Calc.stack := Calc.stack v;
                 Calc.output := Calc.output v |}).
Proof.
  induction statements as [|s l IH]; intros W v.
  - cbn. rewrite Calc_eta. reflexivity.
  - cbn [forallb] in W. apply andb_true_iff in W as [Ws Wl].
    destruct s as [| | | | |id e|]; try discriminate. cbn [is_statement] in Ws.
    cbn [Calc.visitStatementListExpr exec Calc.accept].
    unfold Calc.visitAssignExpr. rewrite (Calc_accept_eval fuel e Ws).
    destruct (eval fuel (Calc.scope v) e) as [x| | |]; try reflexivity.
    cbn [mbind Outcome_bind]. cbn [Calc.pop Calc.push Calc.stack].
    cbn [mbind Outcome_bind Calc.scope Calc.stack Calc.output].
    rewrite (IH Wl). reflexivity.
Qed.

(** X9.  The calculator's stack is an evaluation stack and no more: the
    visit of an expression tree pushes the value that the tree has under
    the bindings, computed from the operands' values by the node's
    operation, whatever lies on the stack, and a program runs as the
    sequence of its assignments on the bindings, leaving stack and output
    as they were. *)
Theorem calculator_evaluates_the_tree :
  (forall (host : MathHost) fuel e v,
      is_expr e = true ->
      Calc.accept fuel e v
      = (x ← eval fuel (Calc.scope v) e; Normal (Calc.push x v)))
  /\ (forall (host : MathHost) fuel root v,
         is_program root = true ->
         Calc.accept fuel root v
         = (scope ← exec fuel (Calc.scope v) (statements_of root);
            Normal {| Calc.scope := scope; Calc.stack := Calc.stack v;
                      Calc.output := Calc.output v |}))
  /\ (forall (host : MathHost) fuel input,
         result_of fuel input
         = (root ← parse_text input;
            scope ← exec fuel (Calc.scope Calc.new) (statements_of root);
            Normal (Calc.held (scope !! "out")))).
Proof.
  split; [|split].
  - intros host fuel e v W. exact (Calc_accept_eval fuel e W v).
  - intros host fuel root v W.
    destruct root as [| | | | | |l]; try discriminate.
    exact (Calc_statements_exec fuel l W v).
  - intros host fuel input. unfold result_of, calculate, interpret, parse_text.
    destruct (newParser input) as [p| | |]; try reflexivity.
    cbn [mbind Outcome_bind].
    destruct (parse p) as [root| | |] eqn:P; try reflexivity.
    cbn [mbind Outcome_bind].
    pose proof (parse_builds_program _ _ P) as W.
    destruct root as [| | | | | |l]; try discriminate.
    cbn [Calc.accept statements_of].
    rewrite (Calc_statements_exec fuel l W).
    destruct (exec fuel (Calc.scope Calc.new) l) as [scope| | |];
      try reflexivity.
    cbn [mbind Outcome_bind]. apply Calc_getOutput_held.
Qed.

Lemma calculator_evaluates_the_tree_witness :
  Calc.accept (host := plain_host) 0
    (BinaryExpr (ValueExpr (Some "1")) PLUS (ValueExpr (Some "2")))
    (Calc.push (of_Z 9) Calc.new)
  = Normal (Calc.push (of_Z 3) (Calc.push (of_Z 9) Calc.new)).
Proof.
  exact (proj1 calculator_evaluates_the_tree plain_host 0
           (BinaryExpr (ValueExpr (Some "1")) PLUS (ValueExpr (Some "2")))
           (Calc.push (of_Z 9) Calc.new) eq_refl).
Defined.

(** ** What a run on a parsed program can end with *)

Lemma factorial_loop_outcome fuel :
  forall val i num, calc_outcome (Calc.factorial_loop fuel val i num).
Proof.
  induction fuel as [|fuel IH]; intros val i num; cbn;
    destruct (leb i num); try exact I. apply IH.
Qed.

Lemma calc_outcome_bind {A B} (m : Outcome A) (k : A -> Outcome B) :
  calc_outcome m -> (forall a, calc_outcome (k a)) -> calc_outcome (m ≫= k).
Proof. destruct m as [a|e|h|]; cbn; auto. Qed.

Lemma eval_outcome {host : MathHost} fuel scope e :
  wf_expr e = true -> calc_outcome (eval fuel scope e).
Proof.
  induction e as [op e IHe|num|tok|e IHe|l tok r IHl IHr|id e IHe|l IHl]
    using AST_ind; cbn [wf_expr eval]; intros W; try discriminate.
  - apply andb_true_iff in W as [_ W].
    apply calc_outcome_bind; [exact (IHe W)|]. intros; exact I.
  - destruct num as [s|]; [|discriminate]. unfold Number_.
    apply andb_true_iff in W as [W _].
    destruct (String.eqb s ""); [exact I|].
    change (all_chars (fun c => is_digit c || Ascii.eqb c ".") s)
      with (all_chars is_numchar s). rewrite W.
    destruct (StrDecimalLiteral s) as [[m d]|]; exact I.
  - unfold get_property.
    destruct (scope !! to_string (value tok)) as [o|].
    + cbn. destruct o; exact I.
    + destruct (bool_decide (to_string (value tok) ∈ Object_prototype_keys));
        cbn; exact I.
  - apply calc_outcome_bind; [exact (IHe W)|].
    intros x. apply factorial_loop_outcome.
  - apply andb_true_iff in W as [W Wr]. apply andb_true_iff in W as [Wt Wl].
    apply calc_outcome_bind; [exact (IHl Wl)|]. intros x.
    apply calc_outcome_bind; [exact (IHr Wr)|]. intros y.
    apply bool_decide_eq_true_1 in Wt.
    repeat (apply elem_of_cons in Wt as [->|Wt]); [..|inversion Wt];
      exact I.
Qed.

Lemma wf_expr_is_expr e : wf_expr e = true -> is_expr e = true.
Proof.
  induction e as [op e IHe|num|tok|e IHe|l tok r IHl IHr|id e IHe|l IHl]
    using AST_ind; cbn [wf_expr is_expr]; intros W; try discriminate;
    try reflexivity.
  - apply andb_true_iff in W as [_ W]. exact (IHe W).
  - exact (IHe W).
  - apply andb_true_iff in W as [W Wr]. apply andb_true_iff in W as [_ Wl].
    rewrite (IHl Wl), (IHr Wr). reflexivity.
Qed.

Lemma wf_statements_are_statements l :
  forallb wf_statement l = true -> forallb is_statement l = true.
Proof.
  induction l as [|s l IH]; [reflexivity|]. cbn [forallb]. intros W.
  apply andb_true_iff in W as [Ws Wl]. rewrite (IH Wl), andb_true_r.
  destruct s; try discriminate. cbn in *.
  apply andb_true_iff in Ws as [_ We]. exact (wf_expr_is_expr _ We).
Qed.

Lemma exec_outcome {host : MathHost} fuel statements :
  forallb wf_statement statements = true ->
  forall scope, calc_outcome (exec fuel scope statements).
Proof.
  induction statements as [|s l IH]; intros W scope; [exact I|].
  cbn [forallb] in W. apply andb_true_iff in W as [Ws Wl].
  destruct s as [| | | | |id e|]; try discriminate. cbn [exec].
  cbn [wf_statement] in Ws. apply andb_true_iff in Ws as [_ We].
  apply calc_outcome_bind; [exact (eval_outcome fuel scope e We)|].
  intros x. apply IH. exact Wl.
Qed.

(** X10.  Whatever the text, a run of the calculator ends in one of these
    ways: with a result, with one of the parser's two errors, with an
    undefined symbol, with an inherited member taken for a value, or in a
    factorial loop that needs more iterations.  The "Unexpected token
    type" branch of [resolve] is never reached from a text, and [Number] only
    ever gets the runs of digits and dots of number tokens; the arithmetic
    itself raises nothing. *)
Theorem calculate_ends input {host : MathHost} fuel :
  match calculate fuel input with
  | Normal _ => True
  | Throw (InvalidSyntax _ _) => True
  | Throw (UnexpectedChar c n) => String.get n input = Some c
  | Throw (UndefinedSymbol _) => True
  | Throw (UnexpectedTokenType _) => False
  | Beyond (InheritedMember _) => True
  | Beyond (NumericString _) => False
  | OutOfFuel => True
  end.
Proof.
  unfold calculate, interpret.
  pose proof (parse_text_outcome input) as O. unfold parse_text in O.
  destruct (newParser input) as [p|e|h|];
    cbn [mbind Outcome_bind parse_outcome] in O |- *;
    [|destruct e; try contradiction; exact O|contradiction|exact I].
  destruct (parse p) as [root|e|h|];
    cbn [mbind Outcome_bind parse_outcome] in O |- *;
    [|destruct e; try contradiction; exact O|contradiction|exact I].
  destruct root as [| | | | | |l]; try discriminate. cbn [wf_program] in O.
  cbn [Calc.accept].
  rewrite (Calc_statements_exec fuel l (wf_statements_are_statements l O)).
  pose proof (exec_outcome fuel l O (Calc.scope Calc.new)) as C.
  destruct (exec fuel (Calc.scope Calc.new) l) as [scope|e|h|];
    cbn [mbind Outcome_bind calc_outcome] in C |- *.
  - exact I.
  - destruct e; try contradiction; exact I.
  - destruct h; try contradiction; exact I.
  - exact I.
Qed.

(** ** The printer as a function of the tree *)

Lemma Print_eta v :
  {| Print.stack := Print.stack v; Print.output := Print.output v |} = v.
Proof. destruct v; reflexivity. Qed.

Lemma Print_accept_render e :
  is_expr e = true ->
  forall v,
    Print.accept e v = (s ← render e; Normal (Print.push s v)).
Proof.
  revert e. apply (is_expr_ind (fun e => forall v,
    Print.accept e v = (s ← render e; Normal (Print.push s v)))).
  all: [> intros opToken e _ IHe | intros num | intros constToken
        | intros e _ IHe | intros e1 token e2 _ IHe1 _ IHe2 ].
  all: intros v; cbn [Print.accept render].
  - unfold Print.visitUnaryExpr. rewrite IHe.
    destruct (render e) as [x| | |]; [|reflexivity..].
    cbn. rewrite Print_eta.
    destruct (Print.is_ValueExpr e || Print.is_FactorialExpr e);
      reflexivity.
  - reflexivity.
  - unfold Print.visitRefExpr.
    destruct (get_property Print.constTable (to_string (value constToken)));
      reflexivity.
  - unfold Print.visitFactorialExpr. rewrite IHe.
    destruct (render e) as [x| | |]; [|reflexivity..].
    cbn. rewrite Print_eta.
    destruct (Print.is_ValueExpr e || Print.is_FactorialExpr e
              || Print.is_RefExpr e); reflexivity.
  - unfold Print.visitBinaryExpr. rewrite IHe1.
    destruct (render e1) as [x| | |]; [|reflexivity..].
    cbn. rewrite Print_eta, IHe2.
    destruct (render e2) as [y| | |]; [|reflexivity..].
    cbn. rewrite Print_eta.
    destruct (Print.resolve token _ _); reflexivity.
Qed.

Lemma Print_accept_statement s :
  is_statement s = true ->
  forall v,
    Print.accept s v = (x ← render s; Normal (Print.push x v)).
Proof.
  destruct s as [| | | | |id e|]; try discriminate. cbn [is_statement].
  intros W v. cbn [Print.accept render]. unfold Print.visitAssignExpr.
  rewrite (Print_accept_render e W).
  destruct (render e) as [x| | |]; [|reflexivity..].
  cbn. rewrite Print_eta. reflexivity.
Qed.

Lemma join_from st acc :
  fold_left (fun acc x => x +:+ acc) st acc = Print.join st +:+ acc.
Proof.
  unfold Print.join. revert acc. induction st as [|x st IH]; intros acc.
  - reflexivity.
  - cbn [fold_left]. rewrite IH, (IH (x +:+ "")).
    rewrite append_assoc, append_empty_r. reflexivity.
Qed.

Lemma join_cons x st : Print.join (x :: st) = Print.join st +:+ x.
Proof.
  unfold Print.join at 1. cbn [fold_left]. rewrite join_from.
  rewrite append_empty_r. reflexivity.
Qed.

Lemma forEach_statement_lines statements :
  forallb is_statement statements = true ->
  forall v,
    (v' ← Print.forEach_statement Print.accept statements v;
     Normal (Print.join (Print.stack v')))
    = (text ← render_lines statements;
       Normal (Print.join (Print.stack v) +:+ text)).
Proof.
  induction statements as [|s l IH]; intros W v.
  - cbn. rewrite append_empty_r. reflexivity.
  - cbn [forallb] in W. apply andb_true_iff in W as [Ws Wl].
    cbn [Print.forEach_statement render_lines].
    rewrite (Print_accept_statement s Ws).
    destruct (render s) as [x| | |]; [|reflexivity..].
    cbn [mbind Outcome_bind Print.pop Print.push Print.stack Print.output].
    rewrite Print_eta.
    change (Print.forEach_statement Print.accept l
              (Print.push (x +:+ "<br>") v)
            ≫= (fun v' => Normal (Print.join (Print.stack v'))))
      with (v' ← Print.forEach_statement Print.accept l
                   (Print.push (x +:+ "<br>") v);
            Normal (Print.join (Print.stack v'))).
    rewrite (IH Wl).
    destruct (render_lines l) as [text| | |]; [|reflexivity..].
    cbn [mbind Outcome_bind Print.push Print.stack].
    rewrite join_cons, !append_assoc. reflexivity.
Qed.

Lemma print_render_lines input :
  print input
  = (root ← parse_text input; render_lines (statements_of root)).
Proof.
  unfold print, interpret, parse_text.
  destruct (newParser input) as [p| | |]; try reflexivity.
  cbn [mbind Outcome_bind].
  destruct (parse p) as [root| | |] eqn:P; try reflexivity.
  cbn [mbind Outcome_bind].
  pose proof (parse_builds_program _ _ P) as W.
  destruct root as [| | | | | |l]; try discriminate.
  cbn [Print.accept statements_of is_program] in *.
  unfold Print.visitStatementListExpr.
  pose proof (forEach_statement_lines l W Print.new) as F.
  destruct (Print.forEach_statement Print.accept l Print.new) as [v'| | |];
    destruct (render_lines l) as [text| | |];
    cbn [mbind Outcome_bind] in F |- *; try discriminate F;
    inversion F as [E]; try reflexivity.
  unfold Print.getOutput, Print.note_output.
  destruct (Nat.eqb _ _); cbn [Print.stack]; rewrite E; reflexivity.
Qed.

(** X11.  The printer's stack is an evaluation stack too: the visit of an
    expression tree pushes the text of the tree, made of the texts of its
    operands, whatever lies on the stack; and the output for a text is the
    texts of its statements in their order, each followed by a line
    break. *)
Theorem printer_renders_the_tree :
  (forall e v,
      is_expr e = true ->
      Print.accept e v = (s ← render e; Normal (Print.push s v)))
  /\ (forall input,
         print input
         = (root ← parse_text input; render_lines (statements_of root))).
Proof.
  split; [intros e v W; exact (Print_accept_render e W v)|].
  exact print_render_lines.
Qed.

Lemma printer_renders_the_tree_witness :
  Print.accept (UnaryExpr MINUS (RefExpr (mkToken ID (Some "pi"))))
    (Print.push "below" Print.new)
  = Normal (Print.push "&minus;(&pi;)" (Print.push "below" Print.new)).
Proof.
  exact (proj1 printer_renders_the_tree
           (UnaryExpr MINUS (RefExpr (mkToken ID (Some "pi"))))
           (Print.push "below" Print.new) eq_refl).
Defined.

Lemma print_outcome_bind {A B} (m : Outcome A) (k : A -> Outcome B) :
  print_outcome m -> (forall a, print_outcome (k a)) ->
  print_outcome (m ≫= k).
Proof. destruct m as [a|e|h|]; cbn; auto. Qed.

Lemma render_outcome e : wf_expr e = true -> print_outcome (render e).
Proof.
  induction e as [op e IHe|num|tok|e IHe|l tok r IHl IHr|id e IHe|l IHl]
    using AST_ind; cbn [wf_expr render]; intros W; try discriminate.
  - apply andb_true_iff in W as [_ W].
    apply print_outcome_bind; [exact (IHe W)|]. intros; exact I.
  - exact I.
  - unfold get_property.
    destruct (Print.constTable !! to_string (value tok)); [exact I|].
    destruct (bool_decide (to_string (value tok) ∈ Object_prototype_keys));
      exact I.
  - apply print_outcome_bind; [exact (IHe W)|]. intros; exact I.
  - apply andb_true_iff in W as [W Wr]. apply andb_true_iff in W as [Wt Wl].
    apply print_outcome_bind; [exact (IHl Wl)|]. intros x.
    apply print_outcome_bind; [exact (IHr Wr)|]. intros y.
    apply bool_decide_eq_true_1 in Wt.
    repeat (apply elem_of_cons in Wt as [->|Wt]); [..|inversion Wt];
      exact I.
Qed.

Lemma render_lines_outcome statements :
  forallb wf_statement statements = true ->
  print_outcome (render_lines statements).
Proof.
  induction statements as [|s l IH]; intros W; [exact I|].
  cbn [forallb] in W. apply andb_true_iff in W as [Ws Wl].
  destruct s as [| | | | |id e|]; try discriminate.
  cbn [wf_statement] in Ws. apply andb_true_iff in Ws as [_ We].
  cbn [render_lines render].
  apply print_outcome_bind.
  - apply print_outcome_bind; [exact (render_outcome e We)|]. intros; exact I.
  - intros x. apply print_outcome_bind; [exact (IH Wl)|]. intros; exact I.
Qed.

(** X12.  Whatever the text, the printer ends with an output, with one of
    the parser's two errors, or with an inherited member taken for a text:
    on a parsed tree it raises nothing of its own, the "Unexpected token
    type" branch of its [resolve] is never reached. *)
Theorem print_ends input :
  match print input with
  | Normal _ => True
  | Throw (InvalidSyntax _ _) => True
  | Throw (UnexpectedChar c n) => String.get n input = Some c
  | Throw _ => False
  | Beyond (InheritedMember _) => True
  | Beyond (NumericString _) => False
  | OutOfFuel => False
  end.
Proof.
  rewrite (print_render_lines input).
  pose proof (parse_text_outcome input) as O.
  pose proof (parse_text_total input) as T.
  destruct (parse_text input) as [root|e|h|];
    cbn [mbind Outcome_bind parse_outcome] in O |- *.
  - destruct root as [| | | | | |l]; try discriminate.
    cbn [wf_program statements_of] in *.
    pose proof (render_lines_outcome l O) as R.
    destruct (render_lines l) as [text|e|h|]; cbn in R; try contradiction.
    + exact I.
    + destruct h; [exact I|contradiction].
  - destruct e; try contradiction; exact O.
  - contradiction.
  - contradiction T. reflexivity.
Qed.

(** ** What the calculator never does *)

Lemma Number_on_numchars s :
  all_chars is_numchar s = true -> exists x, Number_ (Some s) = Normal x.
Proof.
  intros W. unfold Number_.
  destruct (String.eqb s ""); [eauto|].
  change (all_chars (fun c => is_digit c || Ascii.eqb c ".") s)
    with (all_chars is_numchar s).
  rewrite W. destruct (StrDecimalLiteral s) as [[m d]|]; eauto.
Qed.

Lemma eval_closed {host : MathHost} scope e :
  wf_expr e = true -> no_factorial e = true -> refs_bound scope e = true ->
  exists x, forall fuel, eval fuel scope e = Normal x.
Proof.
  induction e as [op e IHe|num|tok|e IHe|l tok r IHl IHr|id e IHe|l IHl]
    using AST_ind; cbn [wf_expr no_factorial refs_bound eval];
    intros W F R; try discriminate.
  - apply andb_true_iff in W as [_ W].
    destruct (IHe W F R) as [x E]. eexists. intros fuel.
    rewrite E. reflexivity.
  - destruct num as [s|]; [|discriminate].
    apply andb_true_iff in W as [W _].
    destruct (Number_on_numchars s W) as [x E]. exists x. intros _. exact E.
  - unfold get_property.
    destruct (scope !! to_string (value tok)) as [[x|]|]; try discriminate.
    exists x. intros _. reflexivity.
  - apply andb_true_iff in W as [W Wr]. apply andb_true_iff in W as [Wt Wl].
    apply andb_true_iff in F as [Fl Fr]. apply andb_true_iff in R as [Rl Rr].
    destruct (IHl Wl Fl Rl) as [x El]. destruct (IHr Wr Fr Rr) as [y Er].
    apply bool_decide_eq_true_1 in Wt.
    repeat (apply elem_of_cons in Wt as [->|Wt]); [..|inversion Wt];
      eexists; intros fuel; rewrite El, Er; reflexivity.
Qed.

(** X13.  Arithmetic without factorials never fails: the visit of a parsed
    expression whose names are all bound to numbers, and which holds no
    factorial, pushes a number (a NaN or an infinity where the arithmetic
    gives one), the same whatever the stack and the bound of the loops; no
    division and no literal raises an error. *)
Theorem closed_arithmetic_evaluates {host : MathHost} scope e :
  wf_expr e = true -> no_factorial e = true -> refs_bound scope e = true ->
  exists x,
    forall fuel v,
      Calc.scope v = scope ->
      Calc.accept fuel e v = Normal (Calc.push x v).
Proof.
  intros W F R. destruct (eval_closed scope e W F R) as [x E].
  exists x. intros fuel v <-.
  rewrite (Calc_accept_eval fuel e (wf_expr_is_expr e W)), E. reflexivity.
Qed.

Lemma closed_arithmetic_evaluates_witness :
  exists x,
    forall fuel v,
      Calc.scope v = Calc.scope Calc.new ->
      Calc.accept (host := plain_host) fuel
        (BinaryExpr (ValueExpr (Some "1")) DIVI
           (BinaryExpr (RefExpr (mkToken ID (Some "pi"))) MINUS
              (RefExpr (mkToken ID (Some "pi"))))) v
      = Normal (Calc.push x v).
Proof.
  exact (closed_arithmetic_evaluates (host := plain_host)
           (Calc.scope Calc.new)
           (BinaryExpr (ValueExpr (Some "1")) DIVI
              (BinaryExpr (RefExpr (mkToken ID (Some "pi"))) MINUS
                 (RefExpr (mkToken ID (Some "pi")))))
           eq_refl eq_refl eq_refl).
Defined.

Lemma Calc_pop_output v : Calc.output (snd (Calc.pop v)) = Calc.output v.
Proof. unfold Calc.pop. destruct (Calc.stack v); reflexivity. Qed.

Lemma Calc_output_kept {host : MathHost} fuel ast :
  forall v v',
    Calc.accept fuel ast v = Normal v' -> Calc.output v' = Calc.output v.
Proof.
  induction ast as [op e IHe|num|tok|e IHe|l tok r0 IHl IHr|id e IHe|l IHl]
    using AST_ind; intros v v' A; cbn [Calc.accept] in A.
  - unfold Calc.visitUnaryExpr in A. invert_bind A.
    pose proof (Calc_pop_output a) as P.
    destruct (Calc.pop a) as [x a']. inversion A; subst. cbn in P |- *.
    rewrite P. exact (IHe _ _ E).
  - unfold Calc.visitValueExpr in A. invert_bind A.
    inversion A; subst. reflexivity.
  - unfold Calc.visitRefExpr in A. invert_bind A.
    destruct (Calc.held a); inversion A; subst. reflexivity.
  - unfold Calc.visitFactorialExpr in A. invert_bind A.
    pose proof (Calc_pop_output a) as P.
    destruct (Calc.pop a) as [x a']. invert_bind A.
    inversion A; subst. cbn in P |- *. rewrite P. exact (IHe _ _ E).
  - unfold Calc.visitBinaryExpr in A. invert_bind A.
    pose proof (Calc_pop_output a) as P.
    destruct (Calc.pop a) as [x a']. invert_bind A.
    pose proof (Calc_pop_output a0) as P0.
    destruct (Calc.pop a0) as [y a0']. invert_bind A.
    inversion A; subst. cbn in P, P0 |- *.
    rewrite P0, (IHr _ _ E0), P. exact (IHl _ _ E).
  - unfold Calc.visitAssignExpr in A. invert_bind A.
    pose proof (Calc_pop_output a) as P.
    destruct (Calc.pop a) as [x a']. inversion A; subst. cbn in P |- *.
    rewrite P. exact (IHe _ _ E).
  - revert v A. induction IHl as [|s l' Hs _ IHl']; intros v A.
    + inversion A; subst. reflexivity.
    + cbn [Calc.visitStatementListExpr] in A. invert_bind A.
      rewrite (IHl' _ A). exact (Hs _ _ E).
Qed.

Lemma Print_pop_output v : Print.output (snd (Print.pop v)) = Print.output v.
Proof. unfold Print.pop. destruct (Print.stack v); reflexivity. Qed.

Lemma Print_note_output_empty v :
  Print.output v = "" -> Print.output (Print.note_output v) = "".
Proof.
  intros O. unfold Print.note_output.
  destruct (Print.stack v); cbn; [reflexivity|exact O].
Qed.

Lemma Print_output_kept ast :
  forall v v',
    Print.accept ast v = Normal v' ->
    Print.output v = "" -> Print.output v' = "".
Proof.
  induction ast as [op e IHe|num|tok|e IHe|l tok r0 IHl IHr|id e IHe|l IHl]
    using AST_ind; intros v v' A O; cbn [Print.accept] in A.
  - unfold Print.visitUnaryExpr in A. invert_bind A.
    pose proof (Print_pop_output a) as P.
    destruct (Print.pop a) as [x a']. inversion A; subst. cbn in P.
    apply Print_note_output_empty.
    destruct (_ || _); cbn; rewrite P; exact (IHe _ _ E O).
  - unfold Print.visitValueExpr in A. inversion A; subst. exact O.
  - unfold Print.visitRefExpr in A. invert_bind A.
    inversion A; subst. exact O.
  - unfold Print.visitFactorialExpr in A. invert_bind A.
    pose proof (Print_pop_output a) as P.
    destruct (Print.pop a) as [x a']. inversion A; subst. cbn in P.
    apply Print_note_output_empty.
    destruct (_ || _); cbn; rewrite P; exact (IHe _ _ E O).
  - unfold Print.visitBinaryExpr in A. invert_bind A.
    pose proof (Print_pop_output a) as P.
    destruct (Print.pop a) as [x a']. invert_bind A.
    pose proof (Print_pop_output a0) as P0.
    destruct (Print.pop a0) as [y a0']. invert_bind A.
    inversion A; subst. cbn in P, P0 |- *.
    rewrite P0. apply (IHr _ _ E0). rewrite P. exact (IHl _ _ E O).
  - unfold Print.visitAssignExpr in A. invert_bind A.
    pose proof (Print_pop_output a) as P.
    destruct (Print.pop a) as [x a']. inversion A; subst. cbn in P |- *.
    rewrite P. exact (IHe _ _ E O).
  - unfold Print.visitStatementListExpr in A. invert_bind A.
    inversion A; subst. apply Print_note_output_empty.
    clear A. revert v a E O.
    induction IHl as [|s l' Hs _ IHl']; intros v a E O.
    + inversion E; subst. exact O.
    + cbn [Print.forEach_statement] in E. invert_bind E.
      pose proof (Print_pop_output a0) as P.
      destruct (Print.pop a0) as [x a0']. cbn in P.
      apply (IHl' _ _ E). cbn. rewrite P. exact (Hs _ _ E0 O).
Qed.

(** X14.  The [output] field of the two visitors is never what a run
    reports.  The calculator writes it only when its stack is empty, and it
    looks just after a push: so no visit of any tree changes the field, and
    it stays at 0.  The printer's field, the empty text at the start, is
    still the empty text after the visit of any tree.  What a run reports is
    read from [scope] and from the stack. *)
Theorem output_field_is_never_written :
  (forall (host : MathHost) fuel ast v v',
      Calc.accept fuel ast v = Normal v' ->
      Calc.output v' = Calc.output v)
  /\ (forall ast v v',
         Print.accept ast v = Normal v' ->
         Print.output v = "" -> Print.output v' = "").
Proof.
  split.
  - intros host fuel ast. exact (Calc_output_kept fuel ast).
  - exact Print_output_kept.
Qed.

Lemma output_field_is_never_written_witness :
  Print.accept (StatementListExpr []) Print.new = Normal Print.new
  /\ Print.output Print.new = "".
Proof.
  split; [reflexivity|].
  exact (proj2 output_field_is_never_written
           (StatementListExpr []) Print.new Print.new eq_refl eq_refl).
Defined.

(** ** Exact binary64 results *)

Section Exact.
Local Open Scope Z_scope.

(** Rounding [m * 2^t] at the exponent [e - t] gives back the canonical
    [m] at [e]: the [t] bits shifted out are zero. *)
Lemma binary_round_aux_exact s m e t :
  fexp prec emax (digits m + e) = e -> e <= 971 -> 0 <= t ->
  binary_round_aux prec emax s (Zpos (shl m t)) (e - t) loc_Exact
  = S754_finite s m e.
Proof.
  intros C L T. destruct t as [|p|p]; [| |lia].
  { cbn [shl]. rewrite Z.sub_0_r. apply binary_round_aux_canonical; auto. }
  unfold binary_round_aux, shr_fexp.
  cbn [Zdigits2 shr_record_of_loc].
  change (Zpos (digits2_pos (shl m (Zpos p)))) with (digits (shl m (Zpos p))).
  rewrite digits_shl by lia.
  replace (digits m + Zpos p + (e - Zpos p)) with (digits m + e) by lia.
  rewrite C.
  replace (e - (e - Zpos p)) with (Zpos p) by lia.
  cbn [shr shl]. rewrite shr_exact.
  cbn [shr_m loc_of_shr_record round_nearest_even Zdigits2
       shr_record_of_loc].
  fold (digits m).
  replace (e - Zpos p + Zpos p) with e by lia.
  rewrite C, Z.sub_diag. cbn [shr shr_m].
  replace (e <=? emax - prec) with true; [reflexivity|].
  symmetry. apply Z.leb_le. unfold emax, prec. lia.
Qed.

Lemma mul_one x :
  valid_binary prec emax x = true -> mul (of_Z 1) x = x.
Proof.
  intros V. destruct x as [s|s| |s m e]; try reflexivity.
  apply valid_finite in V as [C L].
  change (of_Z 1) with (S754_finite false 4503599627370496 (-52)).
  unfold mul, SFmul. cbn [xorb].
  replace (4503599627370496 * m)%positive with (shl m 52).
  2:{ apply Pos2Z.inj. rewrite shl_Z by lia. rewrite Pos2Z.inj_mul.
      change (2 ^ 52) with 4503599627370496. lia. }
  replace (-52 + e) with (e - 52) by lia.
  apply binary_round_aux_exact; [assumption|assumption|lia].
Qed.

Lemma mul_minus_one x :
  valid_binary prec emax x = true -> mul (of_Z (-1)) x = SFopp x.
Proof.
  intros V. destruct x as [s|s| |s m e]; try reflexivity.
  apply valid_finite in V as [C L].
  change (of_Z (-1)) with (S754_finite true 4503599627370496 (-52)).
  unfold mul, SFmul. cbn [xorb SFopp].
  replace (4503599627370496 * m)%positive with (shl m 52).
  2:{ apply Pos2Z.inj. rewrite shl_Z by lia. rewrite Pos2Z.inj_mul.
      change (2 ^ 52) with 4503599627370496. lia. }
  replace (-52 + e) with (e - 52) by lia.
  apply binary_round_aux_exact; [assumption|assumption|lia].
Qed.

Lemma valid_opp x :
  valid_binary prec emax (SFopp x) = valid_binary prec emax x.
Proof. destruct x; reflexivity. Qed.

Lemma opp_opp x : SFopp (SFopp x) = x.
Proof. destruct x as [s|s| |s m e]; cbn; rewrite ?negb_involutive; auto. Qed.

Lemma Calc_visitUnaryExpr_pushed {host : MathHost} fuel op e v x :
  Calc.accept fuel e v = Normal (Calc.push x v) ->
  Calc.accept fuel (UnaryExpr op e) v
  = Normal (Calc.push
              (mul (match op with MINUS => of_Z (-1) | _ => of_Z 1 end) x)
              v).
Proof.
  intros A. cbn [Calc.accept]. unfold Calc.visitUnaryExpr. rewrite A.
  cbn. rewrite Calc_eta. reflexivity.
Qed.

End Exact.

(** X15.  The sign of a unary expression costs no precision and no special
    case: multiplying by 1 keeps every value, multiplying by -1 flips its
    sign and nothing else, zeros and infinities included; so two minus
    signs in a row give the operand back. *)
Theorem unary_sign_is_exact {host : MathHost} fuel e v x :
  valid_binary prec emax x = true ->
  Calc.accept fuel e v = Normal (Calc.push x v) ->
  Calc.accept fuel (UnaryExpr PLUS e) v = Normal (Calc.push x v)
  /\ Calc.accept fuel (UnaryExpr MINUS e) v
     = Normal (Calc.push (SFopp x) v)
  /\ Calc.accept fuel (UnaryExpr MINUS (UnaryExpr MINUS e)) v
     = Normal (Calc.push x v).
Proof.
  intros V A.
  pose proof (Calc_visitUnaryExpr_pushed fuel MINUS e v x A) as M.
  cbv beta iota in M. rewrite (mul_minus_one x V) in M.
  split; [|split].
  - rewrite (Calc_visitUnaryExpr_pushed fuel PLUS e v x A).
    cbv beta iota. rewrite (mul_one x V). reflexivity.
  - exact M.
  - rewrite (Calc_visitUnaryExpr_pushed fuel MINUS _ v _ M).
    cbv beta iota. rewrite mul_minus_one by (rewrite valid_opp; exact V).
    rewrite opp_opp. reflexivity.
Qed.

Lemma unary_sign_is_exact_witness :
  Calc.accept (host := plain_host) 0
    (UnaryExpr MINUS (RefExpr (mkToken ID (Some "pi")))) Calc.new
  = Normal (Calc.push (SFopp Math_PI) Calc.new).
Proof.
  exact (proj1 (proj2 (unary_sign_is_exact (host := plain_host) 0
                         (RefExpr (mkToken ID (Some "pi"))) Calc.new
                         Math_PI eq_refl eq_refl))).
Defined.

(** ** The number of a literal *)

Section Literals.
Local Open Scope Z_scope.

Lemma digits_le_53 p : Zpos p < 2 ^ 53 -> digits p <= 53.
Proof.
  intros U. pose proof (digits_bounds p) as [B _].
  destruct (Z_lt_le_dec 53 (digits p)); [|assumption].
  assert (2 ^ 53 <= 2 ^ (digits p - 1)) by (apply Z.pow_le_mono_r; lia).
  lia.
Qed.

Lemma div_eucl_one a : Z.div_eucl a 1 = (a, 0).
Proof.
  pose proof (Z.div_1_r a) as Q. pose proof (Z.mod_1_r a) as R.
  unfold Z.div, Z.modulo in Q, R.
  destruct (Z.div_eucl a 1) as [q r]. cbn in Q, R. congruence.
Qed.

Lemma of_ratio_integer m : 0 <= m < 2 ^ 53 -> of_ratio m 1 = of_Z m.
Proof.
  intros [L U]. destruct m as [|p|p]; [reflexivity| |lia].
  pose proof (digits_le_53 p U) as D.
  assert (P : 0 < digits p) by (unfold digits; lia).
  unfold of_ratio, SFdiv_core_binary.
  cbn [Zdigits2]. fold (digits p).
  change (Zpos (digits2_pos 1)) with 1.
  replace (digits p + 0 - (1 + 0)) with (digits p - 1) by lia.
  replace (fexp prec emax (digits p - 1)) with (digits p - 54)
    by (unfold fexp, emin, prec, emax; lia).
  change (0 - 0) with 0. rewrite Z.min_l by lia.
  replace (0 - (digits p - 54)) with (54 - digits p) by lia.
  destruct (54 - digits p) as [|t|t] eqn:T; [lia| |lia].
  rewrite Z.shiftl_mul_pow2 by lia. rewrite <- (shl_Z p (Zpos t)) by lia.
  rewrite div_eucl_one.
  change (new_location 1 0) with loc_Exact.
  rewrite (of_Z_pos p D).
  replace (shl p (Zpos t)) with (shl (shl p (53 - digits p)) 1)
    by (rewrite shl_shl by lia; f_equal; lia).
  replace (digits p - 54) with (digits p - 53 - 1) by lia.
  apply binary_round_aux_exact; [|lia|lia].
  rewrite digits_shl by lia. unfold fexp, emin, prec, emax. lia.
Qed.

Lemma shr_1_nonneg r : 0 <= shr_m r -> 0 <= shr_m (shr_1 r).
Proof. destruct r as [[|[p|p|]|[p|p|]] b c]; cbn; lia. Qed.

Lemma iter_pos_keeps {A} (P : A -> Prop) (f : A -> A) :
  (forall x, P x -> P (f x)) ->
  forall n x, P x -> P (SpecFloat.iter_pos f n x).
Proof.
  intros K. induction n as [n IH|n IH|]; intros x Px; cbn; auto.
Qed.

Lemma shr_fexp_nonneg m e l :
  0 <= m -> 0 <= shr_m (fst (shr_fexp prec emax m e l)).
Proof.
  intros M. unfold shr_fexp, shr.
  assert (R : 0 <= shr_m (shr_record_of_loc m l))
    by (destruct l as [|[]]; exact M).
  destruct (fexp prec emax (Zdigits2 m + e) - e) as [|p|p]; cbn [fst];
    try exact R.
  apply (iter_pos_keeps (fun r => 0 <= shr_m r)); [|exact R].
  exact shr_1_nonneg.
Qed.

Lemma round_nearest_even_nonneg m l :
  0 <= m -> 0 <= round_nearest_even m l.
Proof.
  intros M. destruct l as [|[]]; cbn [round_nearest_even]; try lia.
  destruct (Z.even m); lia.
Qed.

Lemma binary_round_aux_number s m e l :
  0 <= m -> binary_round_aux prec emax s m e l <> S754_nan.
Proof.
  intros M. unfold binary_round_aux.
  pose proof (shr_fexp_nonneg m e l M) as A.
  destruct (shr_fexp prec emax m e l) as [mrs' e']. cbn [fst] in A.
  pose proof (shr_fexp_nonneg _ e' loc_Exact
                (round_nearest_even_nonneg _ (loc_of_shr_record mrs') A))
    as B.
  destruct (shr_fexp prec emax _ e' loc_Exact) as [mrs'' e''].
  cbn [fst] in B.
  destruct (shr_m mrs'') as [|p|p]; [discriminate| |lia].
  destruct (e'' <=? emax - prec); discriminate.
Qed.

Lemma of_ratio_number m d : 0 <= m -> 0 < d -> of_ratio m d <> S754_nan.
Proof.
  intros M D. destruct m as [|p|p]; [discriminate| |lia].
  unfold of_ratio, SFdiv_core_binary.
  set (m' := match _ - _ - _ with
             | 0 => Zpos p | Zpos _ => Z.shiftl (Zpos p) _ | Zneg _ => 0
             end).
  assert (N : 0 <= m').
  { subst m'. destruct (_ - _ - _); [lia| |lia].
    apply Z.shiftl_nonneg. lia. }
  pose proof (Z.div_pos m' d N D) as Q. unfold Z.div in Q.
  destruct (Z.div_eucl m' d) as [q r]. cbn [fst] in Q.
  apply binary_round_aux_number. exact Q.
Qed.

End Literals.

Lemma digit_is_no_dot c : is_digit c = true -> Ascii.eqb c "." = false.
Proof.
  intros D. destruct (Ascii.eqb_spec c "."); [subst; discriminate|].
  reflexivity.
Qed.

Lemma numchar_cases c :
  is_numchar c = true ->
  (Ascii.eqb c "." = true /\ is_digit c = false)
  \/ (Ascii.eqb c "." = false /\ is_digit c = true).
Proof.
  unfold is_numchar. intros N. destruct (is_digit c) eqn:D.
  - right. split; [apply digit_is_no_dot; exact D|reflexivity].
  - left. split; [exact N|reflexivity].
Qed.

Lemma digits_are_numchars s :
  all_chars is_digit s = true -> all_chars is_numchar s = true.
Proof.
  induction s as [|c s IH]; [reflexivity|]. cbn [all_chars]. intros A.
  apply andb_true_iff in A as [D A]. unfold is_numchar at 1.
  rewrite D, (IH A). reflexivity.
Qed.

Lemma dots_digits s :
  all_chars is_numchar s = true ->
  (dots s = 0 <-> all_chars is_digit s = true).
Proof.
  induction s as [|c s IH]; [intros _; split; reflexivity|].
  cbn [all_chars dots]. intros A. apply andb_true_iff in A as [N A].
  destruct (numchar_cases c N) as [[-> ->]|[-> ->]]; cbn.
  - split; [lia|discriminate].
  - exact (IH A).
Qed.

Lemma split_dot_parts s :
  all_chars is_numchar s = true ->
  match split_dot s with
  | (a, None) => a = s /\ dots s = 0
  | (a, Some f) =>
      s = a +:+ "." +:+ f /\ dots s = S (dots f)
      /\ all_chars is_digit a = true /\ all_chars is_numchar f = true
  end.
Proof.
  induction s as [|c s IH]; [intros _; split; reflexivity|].
  cbn [all_chars split_dot dots]. intros A.
  apply andb_true_iff in A as [N A].
  destruct (numchar_cases c N) as [[E D]|[E D]]; rewrite E.
  - apply Ascii.eqb_eq in E. subst c. repeat split. exact A.
  - specialize (IH A). destruct (split_dot s) as [a [f|]].
    + destruct IH as (-> & -> & Da & Nf). cbn [all_chars].
      rewrite D, Da. repeat split. exact Nf.
    + destruct IH as (-> & ->). split; reflexivity.
Qed.

Lemma digits_to_Z_nonneg s : forall acc, (0 <= acc -> 0 <= digits_to_Z acc s)%Z.
Proof.
  induction s as [|c s IH]; intros acc A; cbn [digits_to_Z]; [exact A|].
  apply IH. lia.
Qed.

Lemma append_is_empty a b : a +:+ b = "" -> a = "" /\ b = "".
Proof.
  destruct a as [|c a].
  - rewrite append_empty. intros ->. auto.
  - rewrite append_String. discriminate.
Qed.

(** The literals [Number] reads as a number: at most one dot, and a digit
    somewhere. *)
Lemma StrDecimalLiteral_number s :
  s <> "" -> s <> "." -> all_chars is_numchar s = true -> dots s <= 1 ->
  exists m d, StrDecimalLiteral s = Some (m, d) /\ (0 <= m)%Z /\ (0 < d)%Z.
Proof.
  intros NE ND A L. unfold StrDecimalLiteral.
  pose proof (split_dot_parts s A) as P.
  destruct (split_dot s) as [a [f|]].
  - destruct P as (-> & Q & Da & Nf).
    assert (Df : all_chars is_digit f = true)
      by (apply dots_digits; [exact Nf|lia]).
    rewrite Da, Df. cbn [andb].
    destruct (String.eqb_spec (a +:+ f) "") as [E|E].
    + apply append_is_empty in E as [-> ->]. contradiction ND. reflexivity.
    + cbn [negb]. eexists _, _. split; [reflexivity|].
      split; [apply digits_to_Z_nonneg; lia|].
      apply Z.pow_pos_nonneg; lia.
  - destruct P as (-> & Q).
    rewrite (proj1 (dots_digits s A) Q).
    destruct (String.eqb_spec s ""); [contradiction|].
    cbn. eexists _, _. split; [reflexivity|].
    split; [apply digits_to_Z_nonneg|]; lia.
Qed.

Lemma StrDecimalLiteral_dots s :
  all_chars is_numchar s = true -> 2 <= dots s ->
  StrDecimalLiteral s = None.
Proof.
  intros A L. unfold StrDecimalLiteral.
  pose proof (split_dot_parts s A) as P.
  destruct (split_dot s) as [a [f|]].
  - destruct P as (_ & Q & _ & Nf).
    destruct (all_chars is_digit f) eqn:Df.
    + apply (dots_digits f Nf) in Df. lia.
    + rewrite andb_false_r. reflexivity.
  - destruct P as (_ & Q). lia.
Qed.

Lemma Number_numchars s :
  s <> "" -> all_chars is_numchar s = true ->
  Number_ (Some s)
  = Normal (match StrDecimalLiteral s with
            | Some (m, d) => of_ratio m d
            | None => JS_NaN
            end).
Proof.
  intros NE A. unfold Number_.
  destruct (String.eqb_spec s ""); [contradiction|].
  change (all_chars (fun c => is_digit c || Ascii.eqb c ".") s)
    with (all_chars is_numchar s).
  rewrite A. destruct (StrDecimalLiteral s) as [[m d]|]; reflexivity.
Qed.

(** X16.  A literal made of digits alone, with a value below 2^53, is
    pushed as exactly that integer, read in base ten whatever zeros lead
    it. *)
Theorem integer_literal_is_exact {host : MathHost} fuel s v :
  s <> "" -> all_chars is_digit s = true ->
  (digits_to_Z 0 s < 2 ^ 53)%Z ->
  Calc.accept fuel (ValueExpr (Some s)) v
  = Normal (Calc.push (of_Z (digits_to_Z 0 s)) v).
Proof.
  intros NE D U. cbn [Calc.accept]. unfold Calc.visitValueExpr.
  rewrite (Number_numchars s NE (digits_are_numchars s D)).
  unfold StrDecimalLiteral.
  pose proof (split_dot_parts s (digits_are_numchars s D)) as P.
  destruct (split_dot s) as [a [f|]].
  - destruct P as (_ & Q & _ & _).
    apply (dots_digits s (digits_are_numchars s D)) in D. lia.
  - destruct P as (-> & _). rewrite D.
    destruct (String.eqb_spec s ""); [contradiction|].
    cbn [andb negb mbind Outcome_bind].
    rewrite of_ratio_integer; [reflexivity|].
    split; [apply digits_to_Z_nonneg; lia|exact U].
Qed.

Lemma integer_literal_is_exact_witness :
  Calc.accept (host := plain_host) 0 (ValueExpr (Some "0042")) Calc.new
  = Normal (Calc.push (of_Z (digits_to_Z 0 "0042")) Calc.new).
Proof.
  exact (integer_literal_is_exact (host := plain_host) 0 "0042" Calc.new
           ltac:(discriminate) eq_refl eq_refl).
Defined.

(** X17.  A number token is a run of digits and dots, not always a
    numeral.  Its value is NaN exactly when it holds two dots or more, or
    is a lone dot; every other token, [5.] and [.5] included, is pushed as
    a number.  No token raises an error. *)
Theorem number_token_is_NaN {host : MathHost} fuel s v :
  s <> "" -> all_chars is_numchar s = true ->
  exists x,
    Calc.accept fuel (ValueExpr (Some s)) v = Normal (Calc.push x v)
    /\ (x = JS_NaN <-> 2 <= dots s \/ s = ".").
Proof.
  intros NE A. cbn [Calc.accept]. unfold Calc.visitValueExpr.
  rewrite (Number_numchars s NE A). cbn [mbind Outcome_bind].
  eexists. split; [reflexivity|].
  destruct (le_lt_dec 2 (dots s)) as [L|L].
  { rewrite (StrDecimalLiteral_dots s A L). split; auto. }
  destruct (String.eqb_spec s ".") as [->|ND].
  { split; auto. }
  destruct (StrDecimalLiteral_number s NE ND A ltac:(lia))
    as (m & d & -> & M & D).
  split.
  - intros Q. contradiction (of_ratio_number m d M D Q).
  - intros [Q|Q]; [lia|contradiction].
Qed.

Lemma number_token_is_NaN_witness :
  exists x,
    Calc.accept (host := plain_host) 0 (ValueExpr (Some "1.2.3")) Calc.new
    = Normal (Calc.push x Calc.new)
    /\ (x = JS_NaN <-> 2 <= dots "1.2.3" \/ "1.2.3" = ".").
Proof.
  exact (number_token_is_NaN (host := plain_host) 0 "1.2.3" Calc.new
           ltac:(discriminate) eq_refl).
Defined.

(** ** Factorials of large operands *)

Section Large.
Local Open Scope Z_scope.

Lemma of_Z_finite k :
  1 <= k < 2 ^ 53 -> exists m e, of_Z k = S754_finite false m e.
Proof.
  intros [L U]. destruct k as [|p|p]; try lia.
  rewrite (of_Z_pos p (digits_le_53 p U)). eauto.
Qed.

(** The counter of the loop sticks at 2^53, where [i++] changes nothing. *)
Lemma counter_below k :
  1 <= k <= 2 ^ 53 ->
  exists k', 1 <= k' <= 2 ^ 53 /\ add (of_Z k) (of_Z 1) = of_Z k'.
Proof.
  intros [L U].
  destruct (Z_lt_le_dec (k + 1) (2 ^ 53)) as [B|B].
  - exists (k + 1). split; [lia|]. apply add_one_of_Z; lia.
  - exists (2 ^ 53). split; [lia|].
    assert (K : k = 2 ^ 53 - 1 \/ k = 2 ^ 53) by lia.
    destruct K as [-> | ->]; vm_compute; reflexivity.
Qed.

Lemma leb_huge k n :
  1 <= k <= 2 ^ 53 ->
  valid_binary prec emax n = true ->
  leb (of_Z (2 ^ 53)) n = true ->
  leb (of_Z k) n = true.
Proof.
  intros [L U] V H.
  destruct (Z.eq_dec k (2 ^ 53)) as [->|N]; [exact H|].
  destruct n as [s|s| |s m e].
  - discriminate H.
  - destruct s; [discriminate H|].
    destruct (of_Z_finite k ltac:(lia)) as (mk & ek & ->). reflexivity.
  - discriminate H.
  - rewrite leb_of_Z; [|lia|exact V|reflexivity].
    apply Z.leb_le.
    change (of_Z (2 ^ 53)) with (S754_finite false 4503599627370496 1) in H.
    destruct s; [discriminate H|].
    apply valid_finite in V as [C E].
    pose proof (digits_bounds m) as [Bl Bu].
    cbn [floor cond_Zopp].
    unfold leb, SFleb, SFcompare in H.
    change (Pos.compare_cont Eq ?a ?b) with (Pos.compare a b) in H.
    destruct (Z.compare_spec 1 e) as [Q|Q|Q]; try discriminate H.
    + subst e. rewrite Z.shiftl_mul_pow2 by lia.
      destruct (Pos.compare_spec 4503599627370496 m) as [q|q|q];
        try discriminate H; change (2 ^ 53) with 9007199254740992 in *;
        lia.
    + assert (D : digits m = 53)
        by (unfold fexp, emin, prec, emax in C; lia).
      rewrite D in Bl. rewrite Z.shiftl_mul_pow2 by lia.
      assert (2 ^ 2 <= 2 ^ e) by (apply Z.pow_le_mono_r; lia).
      change (2 ^ (53 - 1)) with 4503599627370496 in Bl.
      change (2 ^ 53) with 9007199254740992 in *.
      change (2 ^ 2) with 4 in *. nia.
Qed.

Lemma factorial_loop_huge n :
  valid_binary prec emax n = true ->
  leb (of_Z (2 ^ 53)) n = true ->
  forall fuel k val,
    1 <= k <= 2 ^ 53 ->
    Calc.factorial_loop fuel val (of_Z k) n = OutOfFuel.
Proof.
  intros V H. induction fuel as [|fuel IH]; intros k val K.
  - cbn. rewrite (leb_huge k n K V H). reflexivity.
  - rewrite factorial_loop_steps by exact (leb_huge k n K V H).
    destruct (counter_below k K) as (k' & K' & ->).
    apply IH. exact K'.
Qed.

End Large.

(** X18.  The factorial of a number from 2^53 on, infinity included, never
    returns: the counter of the loop reaches 2^53, where adding 1 leaves it
    as it is, and stays below the operand for ever.  However many
    iterations are allowed, the loop has not ended. *)
Theorem factorial_of_huge_never_returns n :
  valid_binary prec emax n = true ->
  leb (of_Z (2 ^ 53)) n = true ->
  forall fuel, Calc.factorial fuel n = OutOfFuel.
Proof.
  intros V H fuel. unfold Calc.factorial.
  apply (factorial_loop_huge n V H fuel 2).
  change (2 ^ 53)%Z with 9007199254740992%Z. lia.
Qed.

Lemma factorial_of_huge_never_returns_witness :
  Calc.factorial 1000 (S754_infinity false) = OutOfFuel.
Proof.
  exact (factorial_of_huge_never_returns (S754_infinity false)
           eq_refl eq_refl 1000%nat).
Defined.

Section Overflow.
Local Open Scope Z_scope.

Lemma Zseq_app a : forall k b,
  Zseq k (a + b) = Zseq k a ++ Zseq (k + Z.of_nat a) b.
Proof.
  induction a as [|a IH]; intros k b.
  - cbn. f_equal. lia.
  - cbn [Nat.add Zseq app]. rewrite IH. do 3 f_equal. lia.
Qed.

Lemma In_Zseq count : forall k z,
  k <= z < k + Z.of_nat count -> In z (Zseq k count).
Proof.
  induction count as [|count IH]; intros k z B; [lia|].
  cbn [Zseq]. destruct (Z.eq_dec k z) as [->|N]; [left; reflexivity|].
  right. apply IH. lia.
Qed.

Lemma product_from_infinity count : forall k,
  1 <= k -> k + Z.of_nat count <= 2 ^ 53 ->
  product_from (S754_infinity false) (Zseq k count) = S754_infinity false.
Proof.
  unfold product_from.
  induction count as [|count IH]; intros k L U; [reflexivity|].
  cbn [Zseq fold_left].
  destruct (of_Z_finite k ltac:(lia)) as (m & e & ->).
  cbn [mul SFmul xorb]. apply IH; lia.
Qed.

Lemma product_2_to_small z :
  z <= 170 -> is_finite (product_2_to z) = true.
Proof.
  intros U. destruct (Z_lt_le_dec z 0) as [N|N].
  { unfold product_2_to. replace (Z.to_nat (z - 1)) with 0%nat by lia.
    reflexivity. }
  assert (A : forallb (fun z => is_finite (product_2_to z)) (Zseq 0 171)
              = true) by (vm_compute; reflexivity).
  rewrite forallb_forall in A. apply A. apply In_Zseq. lia.
Qed.

Lemma product_2_to_large z :
  171 <= z -> z + 1 < 2 ^ 53 -> product_2_to z = S754_infinity false.
Proof.
  intros L U. unfold product_2_to.
  replace (Z.to_nat (z - 1)) with (170 + Z.to_nat (z - 171))%nat by lia.
  rewrite Zseq_app. unfold product_from. rewrite fold_left_app.
  change (fold_left (fun acc j => mul acc (of_Z j)) (Zseq 2 170) (of_Z 1))
    with (product_2_to 171).
  replace (product_2_to 171) with (S754_infinity false)
    by (vm_compute; reflexivity).
  apply product_from_infinity; lia.
Qed.

End Overflow.

(** X19.  The factorial overflows from 171 on: for an operand whose whole
    part is at most 170 the result is a finite number, and for every
    greater operand that the loop can count to, the result is
    +Infinity. *)
Theorem factorial_overflows_from_171 n fuel :
  valid_binary prec emax n = true -> is_finite n = true ->
  (floor n + 1 < 2 ^ 53)%Z ->
  Z.to_nat (floor n - 1) <= fuel ->
  exists r,
    Calc.factorial fuel n = Normal r
    /\ ((floor n <= 170)%Z -> is_finite r = true)
    /\ ((171 <= floor n)%Z -> r = S754_infinity false).
Proof.
  intros V F B L. exists (product_2_to (floor n)).
  split; [exact (factorial_finite fuel n V F B L)|].
  split.
  - apply product_2_to_small.
  - intros G. apply product_2_to_large; assumption.
Qed.

Lemma factorial_overflows_from_171_witness :
  exists r,
    Calc.factorial 170 (of_Z 171) = Normal r
    /\ ((floor (of_Z 171) <= 170)%Z -> is_finite r = true)
    /\ ((171 <= floor (of_Z 171))%Z -> r = S754_infinity false).
Proof.
  apply (factorial_overflows_from_171 (of_Z 171) 170).
  - reflexivity.
  - reflexivity.
  - vm_compute. reflexivity.
  - vm_compute. apply le_n.
Defined.

Section ExactFactorials.
Local Open Scope Z_scope.

Lemma product_2_to_exact z :
  z <= 22 ->
  is_integer (product_2_to z) = true
  /\ floor (product_2_to z) = integer_product_2_to z.
Proof.
  intros U. destruct (Z_lt_le_dec z 0) as [N|N].
  { unfold product_2_to, integer_product_2_to.
    replace (Z.to_nat (z - 1)) with 0%nat by lia.
    split; reflexivity. }
  assert (A : forallb (fun z => is_integer (product_2_to z)
                                && (floor (product_2_to z)
                                    =? integer_product_2_to z))
                (Zseq 0 23) = true) by (vm_compute; reflexivity).
  rewrite forallb_forall in A.
  specialize (A z (In_Zseq 23 0 z ltac:(lia))).
  apply andb_true_iff in A as [I E]. apply Z.eqb_eq in E. auto.
Qed.

End ExactFactorials.

(** X20.  The factorial is exact as far as 22: for an operand whose whole
    part is at most 22 the result is an integer, the product of the
    integers from 2 up to that whole part.  The factorial of 23 is already
    a rounded value. *)
Theorem factorial_is_exact_up_to_22 :
  (forall n fuel,
      valid_binary prec emax n = true -> is_finite n = true ->
      (floor n <= 22)%Z ->
      Z.to_nat (floor n - 1) <= fuel ->
      exists r,
        Calc.factorial fuel n = Normal r
        /\ is_integer r = true
        /\ floor r = integer_product_2_to (floor n))
  /\ (forall fuel,
         22 <= fuel ->
         exists r,
           Calc.factorial fuel (of_Z 23) = Normal r
           /\ floor r <> integer_product_2_to 23).
Proof.
  split.
  - intros n fuel V F B L. exists (product_2_to (floor n)).
    split; [|exact (product_2_to_exact (floor n) B)].
    apply factorial_finite; try assumption.
    change (2 ^ 53)%Z with 9007199254740992%Z. lia.
  - intros fuel L. exists (product_2_to 23). split.
    + apply (factorial_finite fuel (of_Z 23)); try reflexivity.
      exact L.
    + vm_compute. discriminate.
Qed.

Lemma factorial_is_exact_up_to_22_witness :
  exists r,
    Calc.factorial 21 (of_Z 22) = Normal r
    /\ is_integer r = true
    /\ floor r = integer_product_2_to (floor (of_Z 22)).
Proof.
  apply (proj1 factorial_is_exact_up_to_22 (of_Z 22) 21).
  - reflexivity.
  - reflexivity.
  - vm_compute. discriminate.
  - vm_compute. apply le_n.
Defined.

(** ** Reading a run of characters *)

Lemma read_from_run pred tok :
  forall s',
    all_chars (fun c => pred (Some c)) tok = true -> stops_at pred s' ->
    read_from pred (tok +:+ s') = (tok, s').
Proof.
  induction tok as [|c tok IH]; intros s' A S.
  - rewrite append_empty. destruct s' as [|c r]; [reflexivity|].
    cbn [read_from]. cbn in S. rewrite S. reflexivity.
  - cbn [all_chars] in A. apply andb_true_iff in A as [Ac A].
    rewrite append_String. cbn [read_from]. rewrite Ac, (IH s' A S).
    reflexivity.
Qed.

(** X21.  [read] takes the longest run, for a predicate that rejects the
    end of the text as the three predicates of the lexer do: the token it
    returns is the prefix of the text whose characters all satisfy the
    predicate and behind which the text ends or goes on with a character
    that does not, the cursor has moved by the length of the token, and no
    other split of the text has these properties. *)
Theorem read_takes_the_longest_run predicate l tok s' :
  predicate None = false ->
  rest l = tok +:+ s' ->
  (all_chars (fun c => predicate (Some c)) tok = true
   /\ stops_at predicate s')
  <-> read predicate l
      = (tok, {| rest := s'; lexCursor := lexCursor l + String.length tok |}).
Proof.
  intros _ E. unfold read. split.
  - intros [A S]. rewrite E, (read_from_run predicate tok s' A S).
    reflexivity.
  - destruct (read_from predicate (rest l)) as [tok' s''] eqn:R.
    intros Q. inversion Q; subst. split.
    + exact (read_from_all _ _ _ _ R).
    + exact (read_from_stops _ _ _ _ R).
Qed.

Lemma read_takes_the_longest_run_witness :
  read isNumber {| rest := "12.5+x"; lexCursor := 3 |}
  = ("12.5", {| rest := "+x"; lexCursor := 3 + 4 |}).
Proof.
  exact (proj1 (read_takes_the_longest_run isNumber
                  {| rest := "12.5+x"; lexCursor := 3 |} "12.5" "+x"
                  eq_refl eq_refl)
           (conj eq_refl eq_refl)).
Defined.

Lemma numchar_is_no_case_space c :
  is_numchar c = true -> is_case_space c = false.
Proof.
  intros L. destruct c as [[] [] [] [] [] [] [] []];
    try discriminate L; reflexivity.
Qed.

Lemma nextToken_body_numchar self c r n :
  is_numchar c = true ->
  nextToken_body self {| rest := String c r; lexCursor := n |}
  = (let '(num, l') :=
       readNumber {| rest := String c r; lexCursor := n |} in
     Normal (mkToken NUMBER (Some num), l')).
Proof.
  intros L. destruct c as [[] [] [] [] [] [] [] []];
    try discriminate L; reflexivity.
Qed.

(** X22.  A number token is the whole run of digits and dots up to the
    first character that is neither, taken as it is written: no sign, no
    exponent and no check that the run is a numeral. *)
Theorem nextToken_number_value num text n :
  num <> "" -> all_chars is_numchar num = true ->
  match text with
  | String c _ => is_numchar c = false
  | EmptyString => True
  end ->
  nextToken {| rest := num +:+ text; lexCursor := n |}
  = Normal (mkToken NUMBER (Some num),
            {| rest := text; lexCursor := n + String.length num |}).
Proof.
  intros NE A B. destruct num as [|c num]; [contradiction|].
  pose proof A as A'. cbn in A'. apply andb_true_iff in A' as [Ac _].
  rewrite nextToken_unfold, append_String. cbn [currentChar rest].
  rewrite (numchar_is_no_case_space c Ac).
  rewrite nextToken_body_numchar by exact Ac.
  unfold readNumber, read. cbn [rest lexCursor].
  change (String c (num +:+ text)) with (String c num +:+ text).
  rewrite (read_from_run isNumber (String c num) text); [reflexivity| |].
  - exact A.
  - destruct text; [exact I|exact B].
Qed.

Lemma nextToken_number_value_witness :
  nextToken {| rest := "1.2.3" +:+ "e5"; lexCursor := 0 |}
  = Normal (mkToken NUMBER (Some "1.2.3"),
            {| rest := "e5"; lexCursor := 0 + 5 |}).
Proof.
  exact (nextToken_number_value "1.2.3" "e5" 0
           ltac:(discriminate) eq_refl eq_refl).
Defined.

(** ** The syntax errors of the parser *)

Lemma syntax_outcome_bind {A B} (m : Outcome A) (k : A -> Outcome B) :
  syntax_outcome m -> (forall a, syntax_outcome (k a)) ->
  syntax_outcome (m ≫= k).
Proof. destruct m as [a|e|h|]; cbn; auto. Qed.

Lemma nextToken_syntax l : syntax_outcome (nextToken l).
Proof.
  pose proof (nextToken_lexed _ l (reads_own l)) as O.
  destruct (nextToken l) as [r|e|h|] eqn:E; try exact I.
  rewrite nextToken_unfold in E.
  destruct (currentChar l) as [c|]; [|discriminate].
  destruct (is_case_space c);
    destruct (nextToken_body_throws _ _ E) as (c' & -> & _); exact I.
Qed.

Lemma eat_syntax_current tokenType p :
  type (currentToken p) = tokenType -> syntax_outcome (eat tokenType p).
Proof.
  intros T. unfold eat.
  destruct (decide (type (currentToken p) = tokenType)); [|contradiction].
  apply syntax_outcome_bind; [apply nextToken_syntax|].
  intros [t l]. exact I.
Qed.

Lemma eat_syntax_expected tokenType p :
  tokenType ∈ [NUMBER; RPAREN; ID; ASSIGN] ->
  syntax_outcome (eat tokenType p).
Proof.
  intros T. unfold eat.
  destruct (decide (type (currentToken p) = tokenType)) as [E|E].
  - apply syntax_outcome_bind; [apply nextToken_syntax|].
    intros [t l]. exact I.
  - split; [exact T|exact E].
Qed.

Lemma current_is_single p t :
  current_is p [t] = true -> type (currentToken p) = t.
Proof.
  unfold current_is. intros C. apply bool_decide_eq_true_1 in C.
  apply elem_of_cons in C as [C|C]; [exact C|inversion C].
Qed.

Lemma parser_syntax fuel :
  forall p,
    syntax_outcome (expr fuel p) /\ syntax_outcome (term fuel p)
    /\ syntax_outcome (factor fuel p)
    /\ (type (currentToken p) = LPAREN -> syntax_outcome (closure fuel p)).
Proof.
  induction fuel as [|fuel IH]; intros p.
  { repeat split. }
  assert (IHe : forall p, syntax_outcome (expr fuel p))
    by (intros q; apply (IH q)).
  assert (IHt : forall p, syntax_outcome (term fuel p))
    by (intros q; apply (IH q)).
  assert (IHf : forall p, syntax_outcome (factor fuel p))
    by (intros q; apply (IH q)).
  assert (IHc : forall p, type (currentToken p) = LPAREN ->
                          syntax_outcome (closure fuel p))
    by (intros q; apply (IH q)).
  clear IH.
  split; [|split; [|split]].
  - rewrite expr_S. apply syntax_outcome_bind; [apply IHt|].
    intros [a p1]. destruct (current_is p1 [PLUS; MINUS]); [|exact I].
    cbn zeta. apply syntax_outcome_bind.
    { apply eat_syntax_current. reflexivity. }
    intros p2. apply syntax_outcome_bind; [apply IHe|].
    intros [b p3]. exact I.
  - rewrite term_S. apply syntax_outcome_bind; [apply IHf|].
    intros [a p1]. destruct (current_is p1 [NUMBER]).
    { apply syntax_outcome_bind; [apply IHt|]. intros [b p3]. exact I. }
    destruct (current_is p1 [MULT; DIVI; POW]); [|exact I].
    cbn zeta. apply syntax_outcome_bind.
    { apply eat_syntax_current. reflexivity. }
    intros p2. apply syntax_outcome_bind; [apply IHt|].
    intros [b p3]. exact I.
  - rewrite factor_S.
    destruct (current_is p [PLUS; MINUS]).
    { cbn zeta. apply syntax_outcome_bind.
      { apply eat_syntax_current. reflexivity. }
      intros p2. apply syntax_outcome_bind; [apply IHf|].
      intros [b p3]. exact I. }
    destruct (current_is p [FACTORIAL]) eqn:C2.
    { apply syntax_outcome_bind.
      { apply eat_syntax_current, current_is_single, C2. }
      intros p2. apply syntax_outcome_bind; [apply IHf|].
      intros [b p3]. exact I. }
    destruct (current_is p [LPAREN]) eqn:C3;
      [apply IHc, current_is_single, C3|].
    destruct (current_is p [ID]).
    { unfold const. apply syntax_outcome_bind.
      { apply eat_syntax_expected. repeat constructor. }
      intros p2. exact I. }
    cbn zeta. apply syntax_outcome_bind.
    { apply eat_syntax_expected. repeat constructor. }
    intros p2. exact I.
  - intros L. rewrite closure_S. apply syntax_outcome_bind.
    { apply eat_syntax_current, L. }
    intros p2. apply syntax_outcome_bind; [apply IHe|].
    intros [b p3]. apply syntax_outcome_bind.
    { apply eat_syntax_expected. repeat constructor. }
    intros p4. exact I.
Qed.

Lemma declarations_loop_syntax fuel :
  forall assignList p,
    syntax_outcome (declarations_loop fuel assignList p).
Proof.
  induction fuel as [|fuel IH]; intros assignList p;
    cbn [declarations_loop];
    (destruct (decide (type (currentToken p) = EOF)); [exact I|]);
    [exact I|].
  apply syntax_outcome_bind.
  { apply eat_syntax_expected. repeat constructor. }
  intros p1. apply syntax_outcome_bind.
  { apply eat_syntax_expected. repeat constructor. }
  intros p2. apply syntax_outcome_bind; [apply parser_syntax|].
  intros [e p3]. apply syntax_outcome_bind; [|intros p4; apply IH].
  destruct (current_is p3 [EOL; SEMICOLON]); [|exact I].
  apply eat_syntax_current. reflexivity.
Qed.

(** X23.  A syntax error always says that a number, a closing parenthesis,
    an identifier or [=] was expected, and that another token was found:
    these are the four places where the parser asks for a token it has not
    looked at first. *)
Theorem syntax_error_expects input expected got :
  parse_text input = Throw (InvalidSyntax expected got) ->
  expected ∈ [NUMBER; RPAREN; ID; ASSIGN] /\ got <> expected.
Proof.
  intros E.
  assert (S : syntax_outcome (parse_text input)).
  { unfold parse_text. apply syntax_outcome_bind.
    - unfold newParser. apply syntax_outcome_bind; [apply nextToken_syntax|].
      intros [t l]. exact I.
    - intros p. unfold parse, declarations. apply syntax_outcome_bind.
      + apply declarations_loop_syntax.
      + intros [root p']. exact I. }
  rewrite E in S. exact S.
Qed.

Lemma syntax_error_expects_witness :
  RPAREN ∈ [NUMBER; RPAREN; ID; ASSIGN] /\ EOF <> RPAREN.
Proof.
  exact (syntax_error_expects "x = (1 + 2" RPAREN EOF eq_refl).
Defined.

(** ** The parser sees the tokens only *)

Lemma alike_bind {A B A' B'} (rel : A -> B -> Prop) (rel' : A' -> B' -> Prop)
  (m1 : Outcome A) (m2 : Outcome B) k1 k2 :
  alike rel m1 m2 ->
  (forall a b, rel a b -> alike rel' (k1 a) (k2 b)) ->
  alike rel' (m1 ≫= k1) (m2 ≫= k2).
Proof.
  destruct m1 as [a|e1|h1|], m2 as [b|e2|h2|]; cbn; auto;
    try contradiction; try (intros -> _; reflexivity).
  all: intros _ _; destruct (k1 a); exact I.
Qed.

Lemma alike_OutOfFuel_r {A B} (rel : A -> B -> Prop) o :
  alike rel o OutOfFuel.
Proof. destruct o; exact I. Qed.

Lemma tokens_fuel_Normal fuel l ts :
  tokens_fuel fuel l = Normal ts ->
  exists t l',
    nextToken l = Normal (t, l')
    /\ ((type t = EOF /\ ts = [t])
        \/ (type t <> EOF
            /\ exists fuel' ts', tokens_fuel fuel' l' = Normal ts'
                                 /\ ts = t :: ts')).
Proof.
  destruct fuel as [|fuel]; [discriminate|]. cbn [tokens_fuel].
  intros E. invert_bind E. exists t, l0. split; [exact E0|].
  destruct (decide (type t = EOF)) as [F|F].
  - left. inversion E; auto.
  - right. split; [exact F|]. invert_bind E. inversion E; subst. eauto.
Qed.

Lemma same_stream_step l1 l2 :
  same_stream l1 l2 ->
  exists t l1' l2',
    nextToken l1 = Normal (t, l1') /\ nextToken l2 = Normal (t, l2')
    /\ same_stream l1' l2'.
Proof.
  intros (ts & n1 & n2 & T1 & T2).
  apply tokens_fuel_Normal in T1 as (t1 & l1' & N1 & C1).
  apply tokens_fuel_Normal in T2 as (t2 & l2' & N2 & C2).
  assert (t1 = t2) as <-.
  { destruct C1 as [[_ ->]|(_ & ? & ? & _ & ->)],
      C2 as [[_ Q]|(_ & ? & ? & _ & Q)]; inversion Q; reflexivity. }
  exists t1, l1', l2'. split; [exact N1|]. split; [exact N2|].
  destruct C1 as [[F1 ->]|(F1 & f1 & ts1 & S1 & ->)].
  - exists [t1], 1, 1. cbn [tokens_fuel].
    rewrite (nextToken_rests_at_EOF _ _ _ N1 F1).
    rewrite (nextToken_rests_at_EOF _ _ _ N2 F1).
    cbn. destruct (decide (type t1 = EOF)); [auto|contradiction].
  - destruct C2 as [[F2 Q]|(F2 & f2 & ts2 & S2 & Q)];
      [contradiction|].
    inversion Q; subst. exists ts2, f1, f2. auto.
Qed.

Lemma eat_alike tokenType p1 p2 :
  same_state p1 p2 ->
  alike same_state (eat tokenType p1) (eat tokenType p2).
Proof.
  intros [C S]. unfold eat. rewrite C.
  destruct (decide (type (currentToken p2) = tokenType)); [|reflexivity].
  destruct (same_stream_step _ _ S) as (t & l1' & l2' & -> & -> & S').
  cbn. split; [reflexivity|exact S'].
Qed.

Lemma current_is_alike p1 p2 ts :
  same_state p1 p2 -> current_is p1 ts = current_is p2 ts.
Proof. intros [C _]. unfold current_is. rewrite C. reflexivity. Qed.

Lemma parser_alike fuel1 :
  forall fuel2 p1 p2,
    same_state p1 p2 ->
    alike same_result (expr fuel1 p1) (expr fuel2 p2)
    /\ alike same_result (term fuel1 p1) (term fuel2 p2)
    /\ alike same_result (factor fuel1 p1) (factor fuel2 p2)
    /\ alike same_result (closure fuel1 p1) (closure fuel2 p2).
Proof.
  induction fuel1 as [|fuel1 IH]; intros fuel2 p1 p2 S.
  { repeat split. }
  destruct fuel2 as [|fuel2].
  { repeat split; apply alike_OutOfFuel_r. }
  assert (IHe : forall p1 p2, same_state p1 p2 ->
                 alike same_result (expr fuel1 p1) (expr fuel2 p2))
    by (intros q1 q2 Q; apply (IH fuel2 q1 q2 Q)).
  assert (IHt : forall p1 p2, same_state p1 p2 ->
                 alike same_result (term fuel1 p1) (term fuel2 p2))
    by (intros q1 q2 Q; apply (IH fuel2 q1 q2 Q)).
  assert (IHf : forall p1 p2, same_state p1 p2 ->
                 alike same_result (factor fuel1 p1) (factor fuel2 p2))
    by (intros q1 q2 Q; apply (IH fuel2 q1 q2 Q)).
  assert (IHc : forall p1 p2, same_state p1 p2 ->
                 alike same_result (closure fuel1 p1) (closure fuel2 p2))
    by (intros q1 q2 Q; apply (IH fuel2 q1 q2 Q)).
  clear IH.
  split; [|split; [|split]].
  - rewrite !expr_S.
    apply (alike_bind same_result); [apply IHt, S|].
    intros [a q1] [b q2] [E Q]. cbn [fst snd] in E, Q. subst b.
    rewrite (current_is_alike q1 q2 _ Q).
    destruct (current_is q2 [PLUS; MINUS]); [|split; [reflexivity|exact Q]].
    cbn zeta. destruct Q as [C Q']. rewrite C.
    apply (alike_bind same_state); [apply eat_alike; split; assumption|].
    intros r1 r2 R. apply (alike_bind same_result); [apply IHe, R|].
    intros [c s1] [d s2] [E R']. cbn [fst snd] in E, R'. subst d.
    split; [reflexivity|exact R'].
  - rewrite !term_S.
    apply (alike_bind same_result); [apply IHf, S|].
    intros [a q1] [b q2] [E Q]. cbn [fst snd] in E, Q. subst b.
    rewrite !(current_is_alike q1 q2 _ Q).
    destruct (current_is q2 [NUMBER]).
    { apply (alike_bind same_result); [apply IHt, Q|].
      intros [c s1] [d s2] [E R']. cbn [fst snd] in E, R'. subst d.
      split; [reflexivity|exact R']. }
    destruct (current_is q2 [MULT; DIVI; POW]);
      [|split; [reflexivity|exact Q]].
    cbn zeta. destruct Q as [C Q']. rewrite C.
    apply (alike_bind same_state); [apply eat_alike; split; assumption|].
    intros r1 r2 R. apply (alike_bind same_result); [apply IHt, R|].
    intros [c s1] [d s2] [E R']. cbn [fst snd] in E, R'. subst d.
    split; [reflexivity|exact R'].
  - rewrite !factor_S. rewrite !(current_is_alike p1 p2 _ S).
    destruct (current_is p2 [PLUS; MINUS]).
    { cbn zeta. pose proof S as [C _]. rewrite C.
      apply (alike_bind same_state); [apply eat_alike, S|].
      intros r1 r2 R. apply (alike_bind same_result); [apply IHf, R|].
      intros [c s1] [d s2] [E R']. cbn [fst snd] in E, R'. subst d.
      split; [reflexivity|exact R']. }
    destruct (current_is p2 [FACTORIAL]).
    { apply (alike_bind same_state); [apply eat_alike, S|].
      intros r1 r2 R. apply (alike_bind same_result); [apply IHf, R|].
      intros [c s1] [d s2] [E R']. cbn [fst snd] in E, R'. subst d.
      split; [reflexivity|exact R']. }
    destruct (current_is p2 [LPAREN]); [apply IHc, S|].
    pose proof S as [C _].
    destruct (current_is p2 [ID]).
    { unfold const. rewrite C.
      apply (alike_bind same_state); [apply eat_alike, S|].
      intros r1 r2 R. split; [reflexivity|exact R]. }
    cbn zeta. rewrite C.
    apply (alike_bind same_state); [apply eat_alike, S|].
    intros r1 r2 R. split; [reflexivity|exact R].
  - rewrite !closure_S.
    apply (alike_bind same_state); [apply eat_alike, S|].
    intros r1 r2 R. apply (alike_bind same_result); [apply IHe, R|].
    intros [c s1] [d s2] [E R']. cbn [fst snd] in E, R'. subst d.
    apply (alike_bind same_state); [apply eat_alike, R'|].
    intros u1 u2 U. split; [reflexivity|exact U].
Qed.

Lemma declarations_loop_alike fuel1 :
  forall fuel2 assignList p1 p2,
    same_state p1 p2 ->
    alike same_result (declarations_loop fuel1 assignList p1)
      (declarations_loop fuel2 assignList p2).
Proof.
  induction fuel1 as [|fuel1 IH]; intros fuel2 assignList p1 p2 S;
    pose proof S as [C _].
  - destruct fuel2; cbn [declarations_loop]; rewrite C;
      (destruct (decide (type (currentToken p2) = EOF));
       [split; [reflexivity|exact S]|exact I]).
  - destruct fuel2 as [|fuel2]; cbn [declarations_loop]; rewrite C;
      (destruct (decide (type (currentToken p2) = EOF));
       [split; [reflexivity|exact S]|]); [apply alike_OutOfFuel_r|].
    apply (alike_bind same_state); [apply eat_alike, S|].
    intros q1 q2 Q. apply (alike_bind same_state); [apply eat_alike, Q|].
    intros r1 r2 R.
    apply (alike_bind same_result);
      [apply (parser_alike fuel1 fuel2 r1 r2 R)|].
    intros [c s1] [d s2] [E R']. cbn [fst snd] in E, R'. subst d.
    apply (alike_bind same_state).
    + rewrite (current_is_alike s1 s2 _ R').
      destruct (current_is s2 [EOL; SEMICOLON]); [|exact R'].
      destruct R' as [C' R'']. rewrite C'.
      apply eat_alike. split; assumption.
    + intros u1 u2 U. apply IH. exact U.
Qed.

Lemma parse_alike p1 p2 : same_state p1 p2 -> parse p1 = parse p2.
Proof.
  intros S. pose proof (parse_total p1) as T1.
  pose proof (parse_total p2) as T2. unfold parse, declarations in *.
  pose proof (declarations_loop_alike (parse_fuel p1) (parse_fuel p2) []
                p1 p2 S) as A.
  destruct (declarations_loop (parse_fuel p1) [] p1) as [[a q1]|e1|h1|],
    (declarations_loop (parse_fuel p2) [] p2) as [[b q2]|e2|h2|];
    cbn in A, T1, T2 |- *; try contradiction; try congruence.
  destruct A as [A _]. cbn [fst] in A. subst b. reflexivity.
Qed.

Lemma parse_text_alike a b ts :
  tokens a = Normal ts -> tokens b = Normal ts ->
  parse_text a = parse_text b.
Proof.
  intros A B. unfold parse_text, newParser.
  assert (S : same_stream (newLexer a) (newLexer b))
    by (exists ts; eauto).
  destruct (same_stream_step _ _ S) as (t & l1 & l2 & -> & -> & S').
  cbn [mbind Outcome_bind]. apply parse_alike. split; [reflexivity|exact S'].
Qed.

Lemma tokens_fuel_total fuel :
  forall l, String.length (rest l) < fuel ->
            tokens_fuel fuel l <> OutOfFuel.
Proof.
  induction fuel as [|fuel IH]; intros l L; [lia|].
  cbn [tokens_fuel]. pose proof (nextToken_total l) as T.
  destruct (nextToken l) as [[t l']|e|h|] eqn:N; cbn; try congruence.
  destruct (decide (type t = EOF)) as [F|F]; [discriminate|].
  apply nextToken_progress in N as [_ P]. specialize (P F).
  pose proof (IH l' ltac:(lia)) as T'.
  destruct (tokens_fuel fuel l'); cbn; congruence.
Qed.

(** X24.  The parser sees the tokens only.  The tokens of every text are
    found, or the character that starts none.  Two texts with the same
    tokens have the same tree, or the same syntax error; so the layout of a
    text, its blanks and the cursor positions, changes neither what the
    calculator computes nor what the printer shows. *)
Theorem same_tokens_same_tree :
  (forall input, tokens input <> OutOfFuel)
  /\ (forall a b ts,
         tokens a = Normal ts -> tokens b = Normal ts ->
         parse_text a = parse_text b
         /\ print a = print b
         /\ forall (host : MathHost) fuel,
             calculate fuel a = calculate fuel b).
Proof.
  split.
  - intros input. apply tokens_fuel_total. cbn. lia.
  - intros a b ts A B. pose proof (parse_text_alike a b ts A B) as P.
    split; [exact P|]. split.
    + rewrite !print_render_lines, P. reflexivity.
    + intros host fuel. unfold calculate, interpret.
      unfold parse_text in P.
      destruct (newParser a) as [p1| | |], (newParser b) as [p2| | |];
        cbn [mbind Outcome_bind] in P |- *; try congruence;
        try (destruct (parse p1); cbn in P |- *; congruence);
        try (destruct (parse p2); cbn in P |- *; congruence).
Qed.

Lemma same_tokens_same_tree_witness :
  parse_text "x=2*pi" = parse_text "  x =  2  *PI ".
Proof.
  exact (proj1 (proj2 same_tokens_same_tree "x=2*pi" "  x =  2  *PI " _
                  eq_refl eq_refl)).
Defined.
